(** * ARCIUM A.W.R.S: the storage layer of the anonymous wallet reputation system

    A shallow embedding of [src/shared/schema.ts] (the tables) and of
    [src/server/storage.ts] (class [DatabaseStorage]) together with the
    properties of the reputation ledger, the leaderboard rebuild and the
    proof gate.

    Conventions of the embedding.
    - A table is the list of its rows in the order a sequential scan yields
      them; a new row is appended.
    - [Timestamp] is the millisecond count of a JS [Date]; every operation
      takes the clock reading [now] of the statement it issues.
    - A [decimal(10,2)] column is held as the integer number of hundredths,
      ordered as the store orders [numeric] values.
    - A promise is an [Outcome]: resolved with a value, or rejected with the
      store's error; both carry the store state that results.
    - Values are taken to fit their columns: the length limits of the
      [varchar] columns and the precision of [decimal(10,2)] are not
      modelled.
    - [minted_nfts] and [activities] play no part in the properties below
      and are left out. *)

From Stdlib Require Import ZArith String List Bool Lia Permutation Sorted.
Import ListNotations.
Local Open Scope string_scope.
Local Open Scope Z_scope.
Local Open Scope list_scope.

Set Implicit Arguments.

(** ** Column types *)

Definition Timestamp := Z.
Definition Decimal := Z.

(** An optional property of a JS object: left out ([undefined]) or supplied.
    A supplied value of a nullable column is itself an [option]
    ([None] is SQL [NULL]). *)
Inductive Optional (A : Type) : Type :=
| Absent : Optional A
| Supplied : A -> Optional A.
Arguments Absent {A}.
Arguments Supplied {A} _.

(** [{...updates}] spread into [.set(...)]: a supplied property overwrites
    the column, an absent one leaves it as it is. *)
Definition orKeep {A} (o : Optional A) (old : A) : A :=
  match o with
  | Supplied a => a
  | Absent => old
  end.

(** [.values(...)] of an insert: an absent property takes the column's
    default. *)
Definition orDefault {A} (o : Optional A) (dflt : A) : A :=
  match o with
  | Supplied a => a
  | Absent => dflt
  end.

Definition isSupplied {A} (o : Optional A) : bool :=
  match o with
  | Supplied _ => true
  | Absent => false
  end.

Definition isSome {A} (o : option A) : bool :=
  match o with
  | Some _ => true
  | None => false
  end.

(** ** Tables of [schema.ts] *)

Module User.
Record t : Type := mk {
  id : Z;
  walletAddress : string;
  chain : string;
  publicKey : option string;
  pseudonymousId : option string;
  createdAt : Timestamp;
  updatedAt : Timestamp
}.
End User.

(** [InsertUser]: [insertUserSchema] omits id, createdAt and updatedAt. *)
Module InsertUser.
Record t : Type := mk {
  walletAddress : string;
  chain : string;
  publicKey : Optional (option string);
  pseudonymousId : Optional (option string)
}.
End InsertUser.

(** [Partial<InsertUser>] *)
Module UserUpdates.
Record t : Type := mk {
  walletAddress : Optional string;
  chain : Optional string;
  publicKey : Optional (option string);
  pseudonymousId : Optional (option string)
}.
End UserUpdates.

Module ReputationScore.
Record t : Type := mk {
  id : Z;
  userId : Z;
  overallScore : Decimal;
  reputationLevel : string;
  daoScore : option Decimal;
  defiScore : option Decimal;
  nftScore : option Decimal;
  bridgeScore : option Decimal;
  votingScore : option Decimal;
  scamAvoidanceScore : option Decimal;
  zkProofHash : option string;
  lastCalculated : Timestamp;
  createdAt : Timestamp;
  updatedAt : Timestamp
}.
End ReputationScore.

(** [InsertReputationScore]: id, createdAt, updatedAt and lastCalculated are
    omitted by [insertReputationScoreSchema]. *)
Module InsertReputationScore.
Record t : Type := mk {
  userId : Z;
  overallScore : Decimal;
  reputationLevel : string;
  daoScore : Optional (option Decimal);
  defiScore : Optional (option Decimal);
  nftScore : Optional (option Decimal);
  bridgeScore : Optional (option Decimal);
  votingScore : Optional (option Decimal);
  scamAvoidanceScore : Optional (option Decimal);
  zkProofHash : Optional (option string)
}.
End InsertReputationScore.

(** [Partial<InsertReputationScore>] *)
Module ScoreUpdates.
Record t : Type := mk {
  userId : Optional Z;
  overallScore : Optional Decimal;
  reputationLevel : Optional string;
  daoScore : Optional (option Decimal);
  defiScore : Optional (option Decimal);
  nftScore : Optional (option Decimal);
  bridgeScore : Optional (option Decimal);
  votingScore : Optional (option Decimal);
  scamAvoidanceScore : Optional (option Decimal);
  zkProofHash : Optional (option string)
}.
End ScoreUpdates.

Module LeaderboardEntry.
Record t : Type := mk {
  id : Z;
  pseudonymousId : string;
  reputationLevel : string;
  overallScore : Decimal;
  chain : string;
  rank : Z;
  createdAt : Timestamp;
  updatedAt : Timestamp
}.
End LeaderboardEntry.

(** [InsertLeaderboardEntry]: what [db.insert(leaderboard).values] is given. *)
Module InsertLeaderboardEntry.
Record t : Type := mk {
  pseudonymousId : string;
  reputationLevel : string;
  overallScore : Decimal;
  chain : string;
  rank : Z
}.
End InsertLeaderboardEntry.

Module ZkProof.
Record t : Type := mk {
  id : Z;
  userId : Z;
  proofHash : string;
  proofData : option string;
  verificationKey : option string;
  publicInputs : option string;
  isValid : option bool;
  expiresAt : option Timestamp;
  createdAt : Timestamp
}.
End ZkProof.

(** [InsertZkProof]: id and createdAt are omitted by [insertZkProofSchema]. *)
Module InsertZkProof.
Record t : Type := mk {
  userId : Z;
  proofHash : string;
  proofData : Optional (option string);
  verificationKey : Optional (option string);
  publicInputs : Optional (option string);
  isValid : Optional (option bool);
  expiresAt : Optional (option Timestamp)
}.
End InsertZkProof.

(** ** The store *)

(** The four tables the ledger, the ranking and the proof gate work on, each
    with the sequence behind its [serial] primary key. *)
Record Db : Type := mkDb {
  users : list User.t;
  reputationScores : list ReputationScore.t;
  leaderboard : list LeaderboardEntry.t;
  zkProofs : list ZkProof.t;
  users_id_seq : Z;
  reputationScores_id_seq : Z;
  leaderboard_id_seq : Z;
  zkProofs_id_seq : Z
}.

Definition emptyDb : Db := mkDb [] [] [] [] 1 1 1 1.

Definition set_users (f : list User.t -> list User.t) (db : Db) : Db :=
  mkDb (f (users db)) (reputationScores db) (leaderboard db) (zkProofs db)
       (users_id_seq db) (reputationScores_id_seq db)
       (leaderboard_id_seq db) (zkProofs_id_seq db).

Definition set_reputationScores
    (f : list ReputationScore.t -> list ReputationScore.t) (db : Db) : Db :=
  mkDb (users db) (f (reputationScores db)) (leaderboard db) (zkProofs db)
       (users_id_seq db) (reputationScores_id_seq db)
       (leaderboard_id_seq db) (zkProofs_id_seq db).

Definition set_leaderboard
    (f : list LeaderboardEntry.t -> list LeaderboardEntry.t) (db : Db) : Db :=
  mkDb (users db) (reputationScores db) (f (leaderboard db)) (zkProofs db)
       (users_id_seq db) (reputationScores_id_seq db)
       (leaderboard_id_seq db) (zkProofs_id_seq db).

Definition set_zkProofs (f : list ZkProof.t -> list ZkProof.t) (db : Db) : Db :=
  mkDb (users db) (reputationScores db) (leaderboard db) (f (zkProofs db))
       (users_id_seq db) (reputationScores_id_seq db)
       (leaderboard_id_seq db) (zkProofs_id_seq db).

(** [nextval]: a sequence value is consumed whether or not the insert that
    asked for it goes through. *)
Definition bump_users_id_seq (db : Db) : Db :=
  mkDb (users db) (reputationScores db) (leaderboard db) (zkProofs db)
       (users_id_seq db + 1) (reputationScores_id_seq db)
       (leaderboard_id_seq db) (zkProofs_id_seq db).

Definition bump_reputationScores_id_seq (db : Db) : Db :=
  mkDb (users db) (reputationScores db) (leaderboard db) (zkProofs db)
       (users_id_seq db) (reputationScores_id_seq db + 1)
       (leaderboard_id_seq db) (zkProofs_id_seq db).

Definition bump_leaderboard_id_seq (db : Db) : Db :=
  mkDb (users db) (reputationScores db) (leaderboard db) (zkProofs db)
       (users_id_seq db) (reputationScores_id_seq db)
       (leaderboard_id_seq db + 1) (zkProofs_id_seq db).

Definition bump_zkProofs_id_seq (db : Db) : Db :=
  mkDb (users db) (reputationScores db) (leaderboard db) (zkProofs db)
       (users_id_seq db) (reputationScores_id_seq db)
       (leaderboard_id_seq db) (zkProofs_id_seq db + 1).

(** The constraint violations the schema can raise: [.unique()],
    [.references(...)] and [.notNull()]. The store also refuses a value
    that does not fit the type of its column (a string longer than its
    [varchar], a number outside [decimal(10, 2)] or [integer]); that check
    is not part of the model: the writes below are the store's on values
    that fit their columns, and what holds of a write that goes through is
    stated of a write that resolves. *)
Inductive StoreError : Type :=
| UniqueViolation
| ForeignKeyViolation
| NotNullViolation.

Inductive Outcome (A : Type) : Type :=
| Resolved : A -> Db -> Outcome A
| Rejected : StoreError -> Db -> Outcome A.
Arguments Rejected {A} _ _.

Definition stateOf {A} (o : Outcome A) : Db :=
  match o with
  | Resolved _ db => db
  | Rejected _ db => db
  end.

(** [eq(users.id, id)] on some row of [users] *)
Definition userExists (id : Z) (db : Db) : bool :=
  existsb (fun u => User.id u =? id) (users db).

(** ** [DatabaseStorage]: user operations *)

(** [const [user] = await db.select()...; return user || undefined]: the
    first row of the result, if any. *)
Definition getUser (id : Z) (db : Db) : option User.t :=
  find (fun u => User.id u =? id) (users db).

Definition getUserByWallet (walletAddress : string) (db : Db) : option User.t :=
  find (fun u => String.eqb (User.walletAddress u) walletAddress) (users db).

(** SQL [=] between a nullable column and a value: [NULL] equals nothing. *)
Definition eqNullable (x : option string) (s : string) : bool :=
  match x with
  | Some y => String.eqb y s
  | None => false
  end.

Definition getUserByPseudonymousId (pseudonymousId : string) (db : Db)
    : option User.t :=
  find (fun u => eqNullable (User.pseudonymousId u) pseudonymousId) (users db).

(** [db.insert(users).values({...insertUser, updatedAt: new Date()})
    .returning()]: the store draws the id from the sequence and refuses a
    wallet address, or a pseudonymous id other than [NULL], that some row
    already holds. *)
Definition createUser (now : Timestamp) (insertUser : InsertUser.t) (db : Db)
    : Outcome User.t :=
  let db1 := bump_users_id_seq db in
  let user :=
    User.mk (users_id_seq db)
            (InsertUser.walletAddress insertUser)
            (InsertUser.chain insertUser)
            (orDefault (InsertUser.publicKey insertUser) None)
            (orDefault (InsertUser.pseudonymousId insertUser) None)
            now now in
  if existsb (fun u => String.eqb (User.walletAddress u)
                                  (User.walletAddress user))
             (users db)
  then Rejected UniqueViolation db1
  else if match User.pseudonymousId user with
          | Some p => existsb (fun u => eqNullable (User.pseudonymousId u) p)
                              (users db)
          | None => false
          end
  then Rejected UniqueViolation db1
  else Resolved user (set_users (fun us => us ++ [user]) db1).

(** The row [.set({...updates, updatedAt: new Date()})] leaves behind. *)
Definition patchUser (now : Timestamp) (updates : UserUpdates.t) (u : User.t)
    : User.t :=
  User.mk (User.id u)
          (orKeep (UserUpdates.walletAddress updates) (User.walletAddress u))
          (orKeep (UserUpdates.chain updates) (User.chain u))
          (orKeep (UserUpdates.publicKey updates) (User.publicKey u))
          (orKeep (UserUpdates.pseudonymousId updates) (User.pseudonymousId u))
          (User.createdAt u)
          now.

(** The two unique columns of [users]: does a row other than [id] already
    hold the value the update writes? *)
Definition updateUserConflicts (id : Z) (updates : UserUpdates.t) (db : Db)
    : bool :=
  match UserUpdates.walletAddress updates with
  | Supplied w =>
      existsb (fun u => negb (User.id u =? id)
                        && String.eqb (User.walletAddress u) w)
              (users db)
  | Absent => false
  end
  ||
  match UserUpdates.pseudonymousId updates with
  | Supplied (Some p) =>
      existsb (fun u => negb (User.id u =? id)
                        && eqNullable (User.pseudonymousId u) p)
              (users db)
  | _ => false
  end.

(** [db.update(users).set({...updates, updatedAt: new Date()})
    .where(eq(users.id, id)).returning()], first row or [undefined]. Nothing
    in it tells the columns of [updates] apart. *)
Definition updateUser (now : Timestamp) (id : Z) (updates : UserUpdates.t)
    (db : Db) : Outcome (option User.t) :=
  let hit u := (User.id u =? id) in
  if negb (existsb hit (users db)) then Resolved None db
  else if updateUserConflicts id updates db then Rejected UniqueViolation db
  else
    Resolved
      (hd_error (map (patchUser now updates) (filter hit (users db))))
      (set_users (map (fun u => if hit u then patchUser now updates u else u))
                 db).

(** ** [DatabaseStorage]: reputation score operations *)

Definition getReputationScore (userId : Z) (db : Db)
    : option ReputationScore.t :=
  find (fun r => ReputationScore.userId r =? userId) (reputationScores db).

(** [reputationScores innerJoin users on userId = users.id
     where users.walletAddress = walletAddress], first row *)
Definition getReputationScoreByWallet (walletAddress : string) (db : Db)
    : option ReputationScore.t :=
  hd_error
    (flat_map
       (fun r =>
          map (fun _ => r)
              (filter (fun u => (ReputationScore.userId r =? User.id u)
                                && String.eqb (User.walletAddress u)
                                              walletAddress)
                      (users db)))
       (reputationScores db)).

(** [db.insert(reputationScores).values({...insertScore,
    lastCalculated: new Date(), updatedAt: new Date()}).returning()]. The
    category columns carry [.default('0')]; [user_id] references [users.id]
    and carries no unique constraint. *)
Definition createReputationScore (now : Timestamp)
    (insertScore : InsertReputationScore.t) (db : Db)
    : Outcome ReputationScore.t :=
  let db1 := bump_reputationScores_id_seq db in
  let score :=
    ReputationScore.mk
      (reputationScores_id_seq db)
      (InsertReputationScore.userId insertScore)
      (InsertReputationScore.overallScore insertScore)
      (InsertReputationScore.reputationLevel insertScore)
      (orDefault (InsertReputationScore.daoScore insertScore) (Some 0))
      (orDefault (InsertReputationScore.defiScore insertScore) (Some 0))
      (orDefault (InsertReputationScore.nftScore insertScore) (Some 0))
      (orDefault (InsertReputationScore.bridgeScore insertScore) (Some 0))
      (orDefault (InsertReputationScore.votingScore insertScore) (Some 0))
      (orDefault (InsertReputationScore.scamAvoidanceScore insertScore)
                 (Some 0))
      (orDefault (InsertReputationScore.zkProofHash insertScore) None)
      now now now in
  if negb (userExists (ReputationScore.userId score) db)
  then Rejected ForeignKeyViolation db1
  else Resolved score (set_reputationScores (fun rs => rs ++ [score]) db1).

(** The row [.set({...updates, lastCalculated: new Date(),
    updatedAt: new Date()})] leaves behind. *)
Definition patchScore (now : Timestamp) (updates : ScoreUpdates.t)
    (r : ReputationScore.t) : ReputationScore.t :=
  ReputationScore.mk
    (ReputationScore.id r)
    (orKeep (ScoreUpdates.userId updates) (ReputationScore.userId r))
    (orKeep (ScoreUpdates.overallScore updates) (ReputationScore.overallScore r))
    (orKeep (ScoreUpdates.reputationLevel updates)
            (ReputationScore.reputationLevel r))
    (orKeep (ScoreUpdates.daoScore updates) (ReputationScore.daoScore r))
    (orKeep (ScoreUpdates.defiScore updates) (ReputationScore.defiScore r))
    (orKeep (ScoreUpdates.nftScore updates) (ReputationScore.nftScore r))
    (orKeep (ScoreUpdates.bridgeScore updates) (ReputationScore.bridgeScore r))
    (orKeep (ScoreUpdates.votingScore updates) (ReputationScore.votingScore r))
    (orKeep (ScoreUpdates.scamAvoidanceScore updates)
            (ReputationScore.scamAvoidanceScore r))
    (orKeep (ScoreUpdates.zkProofHash updates) (ReputationScore.zkProofHash r))
    now
    (ReputationScore.createdAt r)
    now.

(** [db.update(reputationScores).set({...})
    .where(eq(reputationScores.userId, userId)).returning()], first row or
    [undefined]: every record of the identity is rewritten. *)
Definition updateReputationScore (now : Timestamp) (userId : Z)
    (updates : ScoreUpdates.t) (db : Db) : Outcome (option ReputationScore.t) :=
  let hit r := ReputationScore.userId r =? userId in
  if negb (existsb hit (reputationScores db)) then Resolved None db
  else if match ScoreUpdates.userId updates with
          | Supplied owner => negb (userExists owner db)
          | Absent => false
          end
  then Rejected ForeignKeyViolation db
  else
    Resolved
      (hd_error (map (patchScore now updates)
                     (filter hit (reputationScores db))))
      (set_reputationScores
         (map (fun r => if hit r then patchScore now updates r else r)) db).

(** ** [DatabaseStorage]: ZK proof operations *)

Definition getZkProofs (userId : Z) (db : Db) : list ZkProof.t :=
  filter (fun p => ZkProof.userId p =? userId) (zkProofs db).

Definition getZkProofByHash (proofHash : string) (db : Db) : option ZkProof.t :=
  find (fun p => String.eqb (ZkProof.proofHash p) proofHash) (zkProofs db).

(** [db.insert(zkProofs).values(insertProof).returning()]. [is_valid]
    carries [.default(true)] and the other optional columns default to
    [NULL]; [proof_hash] is unique and [user_id] references [users.id]. *)
Definition createZkProof (now : Timestamp) (insertProof : InsertZkProof.t)
    (db : Db) : Outcome ZkProof.t :=
  let db1 := bump_zkProofs_id_seq db in
  let proof :=
    ZkProof.mk
      (zkProofs_id_seq db)
      (InsertZkProof.userId insertProof)
      (InsertZkProof.proofHash insertProof)
      (orDefault (InsertZkProof.proofData insertProof) None)
      (orDefault (InsertZkProof.verificationKey insertProof) None)
      (orDefault (InsertZkProof.publicInputs insertProof) None)
      (orDefault (InsertZkProof.isValid insertProof) (Some true))
      (orDefault (InsertZkProof.expiresAt insertProof) None)
      now in
  if existsb (fun p => String.eqb (ZkProof.proofHash p)
                                  (ZkProof.proofHash proof))
             (zkProofs db)
  then Rejected UniqueViolation db1
  else if negb (userExists (ZkProof.userId proof) db)
  then Rejected ForeignKeyViolation db1
  else Resolved proof (set_zkProofs (fun ps => ps ++ [proof]) db1).

(** JS truthiness of a [boolean | null] column value *)
Definition truthy (b : option bool) : bool :=
  match b with
  | Some true => true
  | _ => false
  end.

(** [proof.expiresAt && proof.expiresAt < new Date()]: a [Date] object is
    truthy, [null] is not. *)
Definition expiredAt (now : Timestamp) (expiresAt : option Timestamp) : bool :=
  match expiresAt with
  | Some t => t <? now
  | None => false
  end.

(** [if (!proof) return false; if (!proof.isValid) return false;
    if (proof.expiresAt && proof.expiresAt < new Date()) return false;
    return true] *)
Definition validateZkProof (now : Timestamp) (proofHash : string) (db : Db)
    : bool :=
  match getZkProofByHash proofHash db with
  | None => false
  | Some proof =>
      if negb (truthy (ZkProof.isValid proof)) then false
      else if expiredAt now (ZkProof.expiresAt proof) then false
      else true
  end.

(** ** [DatabaseStorage]: leaderboard operations *)

(** A row of [reputationScores innerJoin users]. *)
Definition Joined : Type := (ReputationScore.t * User.t)%type.

Definition joinedScore (j : Joined) : Decimal :=
  ReputationScore.overallScore (fst j).

(** [.from(reputationScores).innerJoin(users, eq(reputationScores.userId,
    users.id)).where(sql`${users.pseudonymousId} IS NOT NULL`)] *)
Definition eligibleRows (db : Db) : list Joined :=
  flat_map
    (fun r =>
       map (fun u => (r, u))
           (filter (fun u => (ReputationScore.userId r =? User.id u)
                             && isSome (User.pseudonymousId u))
                   (users db)))
    (reputationScores db).

(** The row selected from a joined pair:
    [{pseudonymousId, reputationLevel, overallScore, chain}]. *)
Module ScoreRow.
Record t : Type := mk {
  pseudonymousId : option string;
  reputationLevel : string;
  overallScore : Decimal;
  chain : string
}.
End ScoreRow.

Definition selectScoreRow (j : Joined) : ScoreRow.t :=
  ScoreRow.mk (User.pseudonymousId (snd j))
              (ReputationScore.reputationLevel (fst j))
              (ReputationScore.overallScore (fst j))
              (User.chain (snd j)).

(** [score.pseudonymousId!]: the assertion is erased at run time; the
    [where] clause has filtered the [NULL]s out, and a [NULL] here would be
    refused by the [notNull] column. *)
Definition leaderboardValues (i : nat) (score : ScoreRow.t)
    : option InsertLeaderboardEntry.t :=
  match ScoreRow.pseudonymousId score with
  | Some p =>
      Some (InsertLeaderboardEntry.mk p
              (ScoreRow.reputationLevel score)
              (ScoreRow.overallScore score)
              (ScoreRow.chain score)
              (Z.of_nat i + 1))
  | None => None
  end.

(** [db.insert(leaderboard).values(v)]: the store fills in id, createdAt and
    updatedAt. *)
Definition insertLeaderboard (now : Timestamp) (v : InsertLeaderboardEntry.t)
    (db : Db) : Db :=
  let entry :=
    LeaderboardEntry.mk
      (leaderboard_id_seq db)
      (InsertLeaderboardEntry.pseudonymousId v)
      (InsertLeaderboardEntry.reputationLevel v)
      (InsertLeaderboardEntry.overallScore v)
      (InsertLeaderboardEntry.chain v)
      (InsertLeaderboardEntry.rank v)
      now now in
  set_leaderboard (fun es => es ++ [entry]) (bump_leaderboard_id_seq db).

(** [db.delete(leaderboard)] *)
Definition deleteLeaderboard (db : Db) : Db :=
  set_leaderboard (fun _ => []) db.

(** [const [entry] = await db.select({rank}).from(leaderboard)
    .where(eq(leaderboard.pseudonymousId, pseudonymousId));
    return entry?.rank] *)
Definition getLeaderboardPosition (pseudonymousId : string) (db : Db)
    : option Z :=
  option_map LeaderboardEntry.rank
    (find (fun e => String.eqb (LeaderboardEntry.pseudonymousId e)
                               pseudonymousId)
          (leaderboard db)).

(** The store's executor of [ORDER BY overall_score DESC]. The query names
    no further sort key, so SQL fixes the result only up to the order of the
    rows whose scores are equal: the executor is a parameter of the rebuild,
    bound by the contract [OrderByDesc]. *)
Definition OrderBy : Type := list Joined -> list Joined.

Definition descByScore (a b : Joined) : Prop := joinedScore b <= joinedScore a.

Record OrderByDesc (orderBy : OrderBy) : Prop := {
  orderBy_perm : forall l, Permutation l (orderBy l);
  orderBy_sorted : forall l, StronglySorted descByScore (orderBy l)
}.

(** The joined rows in the order the query returns them. *)
Definition sortedRows (orderBy : OrderBy) (db : Db) : list Joined :=
  orderBy (eligibleRows db).

(** The [scores] array of [updateLeaderboard]. *)
Definition selectScores (orderBy : OrderBy) (db : Db) : list ScoreRow.t :=
  map selectScoreRow (sortedRows orderBy db).

(** [for (let i = 0; i < scores.length; i++) await db.insert(...)], entered
    at index [i] with [scores] the elements still to visit; [clock k] is the
    time of the insert at index [k]. A rejected insert ends the loop. *)
Fixpoint insertRanked (clock : nat -> Timestamp) (i : nat)
    (scores : list ScoreRow.t) (db : Db) : Outcome unit :=
  match scores with
  | [] => Resolved tt db
  | score :: rest =>
      match leaderboardValues i score with
      | Some v => insertRanked clock (S i) rest (insertLeaderboard (clock i) v db)
      | None => Rejected NotNullViolation (bump_leaderboard_id_seq db)
      end
  end.

(** Clear the table, select the current scores, insert them with ranks. *)
Definition updateLeaderboard (orderBy : OrderBy) (clock : nat -> Timestamp)
    (db : Db) : Outcome unit :=
  let db0 := deleteLeaderboard db in
  insertRanked clock 0 (selectScores orderBy db0) db0.

(** The store states another request can read while [updateLeaderboard]
    runs: the function awaits each statement on its own and opens no
    transaction, so every statement commits before the next is issued. *)
Fixpoint insertRankedStates (clock : nat -> Timestamp) (i : nat)
    (scores : list ScoreRow.t) (db : Db) : list Db :=
  match scores with
  | [] => []
  | score :: rest =>
      match leaderboardValues i score with
      | Some v =>
          let db1 := insertLeaderboard (clock i) v db in
          db1 :: insertRankedStates clock (S i) rest db1
      | None => [bump_leaderboard_id_seq db]
      end
  end.

Definition updateLeaderboardStates (orderBy : OrderBy)
    (clock : nat -> Timestamp) (db : Db) : list Db :=
  let db0 := deleteLeaderboard db in
  db0 :: insertRankedStates clock 0 (selectScores orderBy db0) db0.

(** An executor that keeps rows of equal score in the order the join
    produced them: insertion sort, descending, stable. *)
Fixpoint insertDesc (j : Joined) (l : list Joined) : list Joined :=
  match l with
  | [] => [j]
  | k :: rest =>
      if joinedScore k <=? joinedScore j then j :: l
      else k :: insertDesc j rest
  end.

Definition scanOrderBy : OrderBy := fold_right insertDesc [].

(** An executor that returns rows of equal score in the reverse of the
    order the join produced them: the same sort fed by a backward scan. *)
Definition scanOrderByBackward : OrderBy := fun l => scanOrderBy (rev l).

(** ** Notions the properties are stated with *)

(** What a leaderboard row says: the five columns the rebuild supplies. *)
Definition snapshotOf (e : LeaderboardEntry.t) : InsertLeaderboardEntry.t :=
  InsertLeaderboardEntry.mk
    (LeaderboardEntry.pseudonymousId e)
    (LeaderboardEntry.reputationLevel e)
    (LeaderboardEntry.overallScore e)
    (LeaderboardEntry.chain e)
    (LeaderboardEntry.rank e).

Definition snapshot (db : Db) : list InsertLeaderboardEntry.t :=
  map snapshotOf (leaderboard db).

(** The ranks [1, 2, ..., n] *)
Definition ranksUpTo (n : nat) : list Z := map Z.of_nat (seq 1 n).

Definition recordsOf (userId : Z) (db : Db) : list ReputationScore.t :=
  filter (fun r => ReputationScore.userId r =? userId) (reputationScores db).

(** An identity is eligible when its pseudonymous id is not null and it owns
    a reputation record. *)
Definition eligible (db : Db) (u : User.t) : bool :=
  isSome (User.pseudonymousId u)
  && existsb (fun r => ReputationScore.userId r =? User.id u)
             (reputationScores db).

Definition eligibleIdentities (db : Db) : list User.t :=
  filter (eligible db) (users db).

(** [.unique()] on a column: no value other than [NULL] occurs twice. *)
Definition uniqueOn {A K} (key : A -> option K) (l : list A) : Prop :=
  NoDup (filter isSome (map key l)).

(** Constraints of the schema on [users]: [id] is the primary key,
    [wallet_address] is unique, and [pseudonymous_id] is unique where it is
    not null. *)
Definition usersPk (db : Db) : Prop := NoDup (map User.id (users db)).

Definition walletsUnique (db : Db) : Prop :=
  uniqueOn (fun u => Some (User.walletAddress u)) (users db).

Definition pseudonymsUnique (db : Db) : Prop :=
  uniqueOn User.pseudonymousId (users db).

(** The constraints on [users] together with the state of its sequence:
    every id in use has been handed out already. *)
Definition schemaOk (db : Db) : Prop :=
  usersPk db
  /\ walletsUnique db
  /\ pseudonymsUnique db
  /\ Forall (fun u => User.id u < users_id_seq db) (users db).

Definition oneRecordPerIdentity (db : Db) : Prop :=
  forall userId, (length (recordsOf userId db) <= 1)%nat.

(** How many selected rows score strictly more than, and at least, [s]. *)
Definition countAbove (s : Decimal) (l : list Joined) : nat :=
  length (filter (fun j => s <? joinedScore j) l).

Definition countAtLeast (s : Decimal) (l : list Joined) : nat :=
  length (filter (fun j => s <=? joinedScore j) l).

(** The rows the insert loop leaves in [leaderboard] when it is entered at
    index [i] with the sequence at [nextId]: the closed form of
    [insertRanked]. *)
Fixpoint rankedEntries (clock : nat -> Timestamp) (i : nat) (nextId : Z)
    (scores : list ScoreRow.t) : list LeaderboardEntry.t :=
  match scores with
  | [] => []
  | score :: rest =>
      match leaderboardValues i score with
      | Some v =>
          LeaderboardEntry.mk nextId
            (InsertLeaderboardEntry.pseudonymousId v)
            (InsertLeaderboardEntry.reputationLevel v)
            (InsertLeaderboardEntry.overallScore v)
            (InsertLeaderboardEntry.chain v)
            (InsertLeaderboardEntry.rank v)
            (clock i) (clock i)
          :: rankedEntries clock (S i) (nextId + 1) rest
      | None => []
      end
  end.

(** Sequences of writes to the reputation store, as the routes
    [POST /api/reputation] and [PUT /api/reputation/:userId] issue them. *)
Inductive ScoreOp : Type :=
| CreateScore : Timestamp -> InsertReputationScore.t -> ScoreOp
| UpdateScore : Timestamp -> Z -> ScoreUpdates.t -> ScoreOp.

Definition runScoreOp (op : ScoreOp) (db : Db) : Db :=
  match op with
  | CreateScore now insertScore =>
      stateOf (createReputationScore now insertScore db)
  | UpdateScore now userId updates =>
      stateOf (updateReputationScore now userId updates db)
  end.

Definition runScoreOps (ops : list ScoreOp) (db : Db) : Db :=
  fold_left (fun d op => runScoreOp op d) ops db.

(** A write that cannot give an identity a second record: a create for an
    identity that owns none, or an update that leaves [userId] alone. *)
Definition firstRecordOnly (op : ScoreOp) (db : Db) : bool :=
  match op with
  | CreateScore _ insertScore =>
      match recordsOf (InsertReputationScore.userId insertScore) db with
      | [] => true
      | _ :: _ => false
      end
  | UpdateScore _ _ updates => negb (isSupplied (ScoreUpdates.userId updates))
  end.

Fixpoint allFirstRecordOnly (ops : list ScoreOp) (db : Db) : bool :=
  match ops with
  | [] => true
  | op :: rest =>
      firstRecordOnly op db && allFirstRecordOnly rest (runScoreOp op db)
  end.

(** The writes of [DatabaseStorage] that the properties involve. *)
Inductive StoreOp : Type :=
| CreateUser : Timestamp -> InsertUser.t -> StoreOp
| UpdateUser : Timestamp -> Z -> UserUpdates.t -> StoreOp
| WriteScore : ScoreOp -> StoreOp
| CreateZkProof : Timestamp -> InsertZkProof.t -> StoreOp
| UpdateLeaderboard : OrderBy -> (nat -> Timestamp) -> StoreOp.

Definition runStoreOp (op : StoreOp) (db : Db) : Db :=
  match op with
  | CreateUser now insertUser => stateOf (createUser now insertUser db)
  | UpdateUser now id updates => stateOf (updateUser now id updates db)
  | WriteScore op => runScoreOp op db
  | CreateZkProof now insertProof => stateOf (createZkProof now insertProof db)
  | UpdateLeaderboard orderBy clock =>
      stateOf (updateLeaderboard orderBy clock db)
  end.

Definition runStoreOps (ops : list StoreOp) (db : Db) : Db :=
  fold_left (fun d op => runStoreOp op d) ops db.

(** An update that supplies [defiScore] and nothing else. *)
Definition onlyDefiScore (v : option Decimal) : ScoreUpdates.t :=
  ScoreUpdates.mk Absent Absent Absent Absent (Supplied v)
                  Absent Absent Absent Absent Absent.

(** What a partial update may and may not touch in a row it matches. *)
Definition scoreFrame (now : Timestamp) (updates : ScoreUpdates.t)
    (r r' : ReputationScore.t) : Prop :=
  ReputationScore.id r' = ReputationScore.id r
  /\ ReputationScore.createdAt r' = ReputationScore.createdAt r
  /\ ReputationScore.lastCalculated r' = now
  /\ ReputationScore.updatedAt r' = now
  /\ (ScoreUpdates.userId updates = Absent ->
      ReputationScore.userId r' = ReputationScore.userId r)
  /\ (ScoreUpdates.overallScore updates = Absent ->
      ReputationScore.overallScore r' = ReputationScore.overallScore r)
  /\ (ScoreUpdates.reputationLevel updates = Absent ->
      ReputationScore.reputationLevel r' = ReputationScore.reputationLevel r)
  /\ (ScoreUpdates.daoScore updates = Absent ->
      ReputationScore.daoScore r' = ReputationScore.daoScore r)
  /\ (ScoreUpdates.defiScore updates = Absent ->
      ReputationScore.defiScore r' = ReputationScore.defiScore r)
  /\ (ScoreUpdates.nftScore updates = Absent ->
      ReputationScore.nftScore r' = ReputationScore.nftScore r)
  /\ (ScoreUpdates.bridgeScore updates = Absent ->
      ReputationScore.bridgeScore r' = ReputationScore.bridgeScore r)
  /\ (ScoreUpdates.votingScore updates = Absent ->
      ReputationScore.votingScore r' = ReputationScore.votingScore r)
  /\ (ScoreUpdates.scamAvoidanceScore updates = Absent ->
      ReputationScore.scamAvoidanceScore r'
      = ReputationScore.scamAvoidanceScore r)
  /\ (ScoreUpdates.zkProofHash updates = Absent ->
      ReputationScore.zkProofHash r' = ReputationScore.zkProofHash r).

(** What a partial update writes into a row it matches: every column it
    supplies holds the supplied value. *)
Definition scoreWritten (updates : ScoreUpdates.t) (r' : ReputationScore.t)
    : Prop :=
  (forall v, ScoreUpdates.userId updates = Supplied v ->
             ReputationScore.userId r' = v)
  /\ (forall v, ScoreUpdates.overallScore updates = Supplied v ->
                ReputationScore.overallScore r' = v)
  /\ (forall v, ScoreUpdates.reputationLevel updates = Supplied v ->
                ReputationScore.reputationLevel r' = v)
  /\ (forall v, ScoreUpdates.daoScore updates = Supplied v ->
                ReputationScore.daoScore r' = v)
  /\ (forall v, ScoreUpdates.defiScore updates = Supplied v ->
                ReputationScore.defiScore r' = v)
  /\ (forall v, ScoreUpdates.nftScore updates = Supplied v ->
                ReputationScore.nftScore r' = v)
  /\ (forall v, ScoreUpdates.bridgeScore updates = Supplied v ->
                ReputationScore.bridgeScore r' = v)
  /\ (forall v, ScoreUpdates.votingScore updates = Supplied v ->
                ReputationScore.votingScore r' = v)
  /\ (forall v, ScoreUpdates.scamAvoidanceScore updates = Supplied v ->
                ReputationScore.scamAvoidanceScore r' = v)
  /\ (forall v, ScoreUpdates.zkProofHash updates = Supplied v ->
                ReputationScore.zkProofHash r' = v).

(** A leaderboard row read back as the selected row it was built from. *)
Definition scoreRowOf (e : LeaderboardEntry.t) : ScoreRow.t :=
  ScoreRow.mk (Some (LeaderboardEntry.pseudonymousId e))
              (LeaderboardEntry.reputationLevel e)
              (LeaderboardEntry.overallScore e)
              (LeaderboardEntry.chain e).

(** Every selected row carries a pseudonymous id. *)
Definition named (l : list Joined) : Prop :=
  Forall (fun j => User.pseudonymousId (snd j) <> None) l.

(** ** Scenarios *)

Module Scenario.

Definition walletA : InsertUser.t :=
  InsertUser.mk "0xAA" "ethereum" Absent (Supplied (Some "anon_A")).
Definition walletB : InsertUser.t :=
  InsertUser.mk "0xBB" "ethereum" Absent (Supplied (Some "anon_B")).
Definition walletC : InsertUser.t :=
  InsertUser.mk "0xCC" "solana" Absent (Supplied (Some "anon_C")).

(** A registered first (id 1), B second (id 2), C third (id 3). *)
Definition registered : Db :=
  stateOf (createUser 3 walletC
    (stateOf (createUser 2 walletB
      (stateOf (createUser 1 walletA emptyDb))))).

Definition scored (userId : Z) (overallScore : Decimal) (level : string)
    : InsertReputationScore.t :=
  InsertReputationScore.mk userId overallScore level
    Absent Absent Absent Absent Absent Absent Absent.

(** A and B both score 900.00, C scores 850.00; B's record happens to be
    written before A's. *)
Definition tied : Db :=
  runScoreOps [CreateScore 10 (scored 2 90000 "gold");
               CreateScore 11 (scored 1 90000 "gold");
               CreateScore 12 (scored 3 85000 "silver")]
              registered.

(** The same scores with the records written in registration order. *)
Definition tiedInOrder : Db :=
  runScoreOps [CreateScore 10 (scored 1 90000 "gold");
               CreateScore 11 (scored 2 90000 "gold");
               CreateScore 12 (scored 3 85000 "silver")]
              registered.

(** [POST /api/reputation] received twice for identity A. *)
Definition scoredTwice : Db :=
  runScoreOps [CreateScore 10 (scored 1 90000 "gold");
               CreateScore 11 (scored 1 25025 "bronze")]
              registered.

Definition clock (k : nat) : Timestamp := 100 + Z.of_nat k.

(** [tied] with its leaderboard built once. *)
Definition published : Db := stateOf (updateLeaderboard scanOrderBy clock tied).

(** A credential for A that expires at time 1000. *)
Definition credential : InsertZkProof.t :=
  InsertZkProof.mk 1 "0xHASH1" Absent Absent Absent
                   (Supplied (Some true)) (Supplied (Some 1000)).

Definition gated : Db := stateOf (createZkProof 500 credential registered).

(** A credential issued without a validity flag and without an expiry. *)
Definition plainCredential : InsertZkProof.t :=
  InsertZkProof.mk 1 "0xHASH2" Absent Absent Absent Absent Absent.

(** A patch of A's wallet address and pseudonymous id. *)
Definition rebind : UserUpdates.t :=
  UserUpdates.mk (Supplied "0xDD") Absent Absent (Supplied (Some "anon_D")).

Definition defiOnly : ScoreUpdates.t := onlyDefiScore (Some 25025).

End Scenario.

(** ** [DatabaseStorage]: reading the leaderboard *)

(** The store's executor of [ORDER BY <column> DESC] on any result set: as
    for [OrderBy], SQL fixes the result up to the order of rows with equal
    keys. *)
Definition SortDesc : Type := forall A : Type, (A -> Z) -> list A -> list A.

Definition descBy {A} (key : A -> Z) (a b : A) : Prop := key b <= key a.

Definition SortDescOk (sortDesc : SortDesc) : Prop :=
  forall (A : Type) (key : A -> Z) (l : list A),
    Permutation l (sortDesc A key l)
    /\ StronglySorted (descBy key) (sortDesc A key l).

(** [limit: number = 100]: the default of a parameter left out. *)
Definition defaultLimit : nat := 100.

(** JS truthiness of an optional string: [undefined] and the empty string
    are falsy. *)
Definition truthyString (s : option string) : bool :=
  match s with
  | Some EmptyString => false
  | Some (String _ _) => true
  | None => false
  end.

(** [let query = db.select().from(leaderboard);
     if (chain) query = query.where(eq(leaderboard.chain, chain));
     return query.orderBy(desc(leaderboard.overallScore)).limit(limit)] *)
Definition leaderboardOfChain (chain : option string) (db : Db)
    : list LeaderboardEntry.t :=
  match chain with
  | Some c =>
      if truthyString chain
      then filter (fun e => String.eqb (LeaderboardEntry.chain e) c)
                  (leaderboard db)
      else leaderboard db
  | None => leaderboard db
  end.

Definition getLeaderboard (sortDesc : SortDesc) (limit : option nat)
    (chain : option string) (db : Db) : list LeaderboardEntry.t :=
  firstn (match limit with Some n => n | None => defaultLimit end)
         (sortDesc _ LeaderboardEntry.overallScore
                   (leaderboardOfChain chain db)).

(** A [SortDesc] that keeps rows of equal key in the order it is given
    them. *)
Fixpoint insertByKey {A} (key : A -> Z) (a : A) (l : list A) : list A :=
  match l with
  | [] => [a]
  | b :: rest =>
      if key b <=? key a then a :: l else b :: insertByKey key a rest
  end.

Definition stableSortDesc : SortDesc :=
  fun A key => fold_right (insertByKey key) [].

(** ** [minted_nfts] and [activities] *)

Module MintedNft.
Record t : Type := mk {
  id : Z;
  userId : Z;
  tokenId : string;
  contractAddress : string;
  chain : string;
  reputationLevel : string;
  metadata : option string;
  transactionHash : option string;
  mintedAt : Timestamp;
  createdAt : Timestamp
}.
End MintedNft.

(** [InsertMintedNft]: id, createdAt and mintedAt are omitted. *)
Module InsertMintedNft.
Record t : Type := mk {
  userId : Z;
  tokenId : string;
  contractAddress : string;
  chain : string;
  reputationLevel : string;
  metadata : Optional (option string);
  transactionHash : Optional (option string)
}.
End InsertMintedNft.

Module Activity.
Record t : Type := mk {
  id : Z;
  userId : Z;
  activityType : string;
  contractAddress : option string;
  transactionHash : option string;
  value : option Z;
  scoreImpact : Decimal;
  metadata : option string;
  timestamp : Timestamp;
  createdAt : Timestamp
}.
End Activity.

(** [InsertActivity]: id and createdAt are omitted; [timestamp] is the
    [Date] the schema's transform has produced. *)
Module InsertActivity.
Record t : Type := mk {
  userId : Z;
  activityType : string;
  contractAddress : Optional (option string);
  transactionHash : Optional (option string);
  value : Optional (option Z);
  scoreImpact : Decimal;
  metadata : Optional (option string);
  timestamp : Timestamp
}.
End InsertActivity.

(** The two tables beside those of [Db], each with its sequence. Both
    reference [users.id]; the operations on them read [users] from the
    [Db] they are given. *)
Record Ledger : Type := mkLedger {
  mintedNfts : list MintedNft.t;
  activities : list Activity.t;
  mintedNfts_id_seq : Z;
  activities_id_seq : Z
}.

Definition emptyLedger : Ledger := mkLedger [] [] 1 1.

(** A promise of an operation on the ledger. *)
Inductive Posted (A : Type) : Type :=
| Written : A -> Ledger -> Posted A
| Refused : StoreError -> Ledger -> Posted A.
Arguments Refused {A} _ _.

Definition ledgerOf {A} (o : Posted A) : Ledger :=
  match o with
  | Written _ ledger => ledger
  | Refused _ ledger => ledger
  end.

Definition getMintedNfts (userId : Z) (ledger : Ledger) : list MintedNft.t :=
  filter (fun n => MintedNft.userId n =? userId) (mintedNfts ledger).

(** [.from(mintedNfts).innerJoin(users, eq(mintedNfts.userId, users.id))
    .where(eq(users.walletAddress, walletAddress))], the columns of
    [minted_nfts] selected *)
Definition getMintedNftsByWallet (walletAddress : string) (db : Db)
    (ledger : Ledger) : list MintedNft.t :=
  flat_map
    (fun n =>
       map (fun _ => n)
           (filter (fun u => (MintedNft.userId n =? User.id u)
                             && String.eqb (User.walletAddress u)
                                           walletAddress)
                   (users db)))
    (mintedNfts ledger).

(** [db.insert(mintedNfts).values({...insertNft, mintedAt: new Date()})
    .returning()] *)
Definition createMintedNft (now : Timestamp) (insertNft : InsertMintedNft.t)
    (db : Db) (ledger : Ledger) : Posted MintedNft.t :=
  let ledger1 :=
    mkLedger (mintedNfts ledger) (activities ledger)
             (mintedNfts_id_seq ledger + 1) (activities_id_seq ledger) in
  let nft :=
    MintedNft.mk
      (mintedNfts_id_seq ledger)
      (InsertMintedNft.userId insertNft)
      (InsertMintedNft.tokenId insertNft)
      (InsertMintedNft.contractAddress insertNft)
      (InsertMintedNft.chain insertNft)
      (InsertMintedNft.reputationLevel insertNft)
      (orDefault (InsertMintedNft.metadata insertNft) None)
      (orDefault (InsertMintedNft.transactionHash insertNft) None)
      now now in
  if negb (userExists (MintedNft.userId nft) db)
  then Refused ForeignKeyViolation ledger1
  else Written nft
         (mkLedger (mintedNfts ledger ++ [nft]) (activities ledger)
                   (mintedNfts_id_seq ledger + 1) (activities_id_seq ledger)).

(** [where(and(eq(mintedNfts.tokenId, tokenId),
               eq(mintedNfts.contractAddress, contractAddress)))], first row
    or [undefined] *)
Definition getNftByTokenId (tokenId contractAddress : string)
    (ledger : Ledger) : option MintedNft.t :=
  find (fun n => String.eqb (MintedNft.tokenId n) tokenId
                 && String.eqb (MintedNft.contractAddress n) contractAddress)
       (mintedNfts ledger).

(** [.where(eq(activities.userId, userId))
    .orderBy(desc(activities.timestamp)).limit(limit)] *)
Definition getActivities (sortDesc : SortDesc) (userId : Z)
    (limit : option nat) (ledger : Ledger) : list Activity.t :=
  firstn (match limit with Some n => n | None => defaultLimit end)
         (sortDesc _ Activity.timestamp
                   (filter (fun a => Activity.userId a =? userId)
                           (activities ledger))).

(** [.where(and(eq(activities.userId, userId),
                eq(activities.activityType, activityType)))
    .orderBy(desc(activities.timestamp))] *)
Definition getActivitiesByType (sortDesc : SortDesc) (userId : Z)
    (activityType : string) (ledger : Ledger) : list Activity.t :=
  sortDesc _ Activity.timestamp
           (filter (fun a => (Activity.userId a =? userId)
                             && String.eqb (Activity.activityType a)
                                           activityType)
                   (activities ledger)).

(** [db.insert(activities).values(insertActivity).returning()] *)
Definition createActivity (now : Timestamp) (insertActivity : InsertActivity.t)
    (db : Db) (ledger : Ledger) : Posted Activity.t :=
  let ledger1 :=
    mkLedger (mintedNfts ledger) (activities ledger)
             (mintedNfts_id_seq ledger) (activities_id_seq ledger + 1) in
  let activity :=
    Activity.mk
      (activities_id_seq ledger)
      (InsertActivity.userId insertActivity)
      (InsertActivity.activityType insertActivity)
      (orDefault (InsertActivity.contractAddress insertActivity) None)
      (orDefault (InsertActivity.transactionHash insertActivity) None)
      (orDefault (InsertActivity.value insertActivity) None)
      (InsertActivity.scoreImpact insertActivity)
      (orDefault (InsertActivity.metadata insertActivity) None)
      (InsertActivity.timestamp insertActivity)
      now in
  if negb (userExists (Activity.userId activity) db)
  then Refused ForeignKeyViolation ledger1
  else Written activity
         (mkLedger (mintedNfts ledger) (activities ledger ++ [activity])
                   (mintedNfts_id_seq ledger) (activities_id_seq ledger + 1)).

(** [.from(activities).innerJoin(users, eq(activities.userId, users.id))
    .where(eq(users.walletAddress, walletAddress))
    .orderBy(desc(activities.timestamp)).limit(limit)], the columns of
    [activities] selected *)
Definition activitiesOfWallet (walletAddress : string) (db : Db)
    (ledger : Ledger) : list (Activity.t * User.t) :=
  flat_map
    (fun a =>
       map (fun u => (a, u))
           (filter (fun u => (Activity.userId a =? User.id u)
                             && String.eqb (User.walletAddress u)
                                           walletAddress)
                   (users db)))
    (activities ledger).

Definition getActivitiesByWallet (sortDesc : SortDesc)
    (walletAddress : string) (limit : option nat) (db : Db)
    (ledger : Ledger) : list Activity.t :=
  map fst
      (firstn (match limit with Some n => n | None => defaultLimit end)
              (sortDesc _ (fun j => Activity.timestamp (fst j))
                        (activitiesOfWallet walletAddress db ledger))).

(** ** The routes of [routes.ts] over the reputation store *)

(** What [schema.parse(req.body)] gives: the parsed value, or a thrown
    [ZodError]. *)
Inductive Parsed (A : Type) : Type :=
| Valid : A -> Parsed A
| Invalid : Parsed A.
Arguments Invalid {A}.

(** What a handler's [try] block can throw. *)
Inductive Thrown : Type :=
| ZodError
| StoreThrew (e : StoreError).

Inductive Body : Type :=
| UserBody (user : User.t)
| ScoreBody (score : ReputationScore.t)
| ProofBody (proof : ZkProof.t)
| ProofsBody (proofs : list ZkProof.t)
| PositionBody (position : Z)
| IsValidBody (isValid : bool)
| MessageBody (message : string)
| ErrorBody (error : string).

Record Response : Type := mkResponse {
  status : Z;
  body : Body
}.

(** [handleValidationError]: 400 for a [ZodError], 500 for anything
    else. *)
Definition handleValidationError (error : Thrown) : Response :=
  match error with
  | ZodError => mkResponse 400 (ErrorBody "Validation failed")
  | StoreThrew _ => mkResponse 500 (ErrorBody "Internal server error")
  end.

(** [GET /api/users/:walletAddress] *)
Definition getUserRoute (walletAddress : string) (db : Db) : Response :=
  match getUserByWallet walletAddress db with
  | None => mkResponse 404 (ErrorBody "User not found")
  | Some user => mkResponse 200 (UserBody user)
  end.

(** [POST /api/users]: [generated] is the string
    [`anon_${Date.now()}_${Math.random().toString(36).substring(2, 15)}`]
    the handler makes up; it replaces whatever pseudonymous id the body
    carries. *)
Definition postUser (now : Timestamp) (generated : string)
    (parsed : Parsed InsertUser.t) (db : Db) : Response * Db :=
  match parsed with
  | Invalid => (handleValidationError ZodError, db)
  | Valid userData =>
      let userData' :=
        InsertUser.mk (InsertUser.walletAddress userData)
                      (InsertUser.chain userData)
                      (InsertUser.publicKey userData)
                      (Supplied (Some generated)) in
      match createUser now userData' db with
      | Resolved user db' => (mkResponse 201 (UserBody user), db')
      | Rejected e db' => (handleValidationError (StoreThrew e), db')
      end
  end.

(** [GET /api/reputation/:walletAddress] *)
Definition getReputationRoute (walletAddress : string) (db : Db) : Response :=
  match getReputationScoreByWallet walletAddress db with
  | None => mkResponse 404 (ErrorBody "Reputation score not found")
  | Some score => mkResponse 200 (ScoreBody score)
  end.

(** [POST /api/reputation]: create the record, then rebuild the
    leaderboard. *)
Definition postReputation (now : Timestamp) (orderBy : OrderBy)
    (clock : nat -> Timestamp) (parsed : Parsed InsertReputationScore.t)
    (db : Db) : Response * Db :=
  match parsed with
  | Invalid => (handleValidationError ZodError, db)
  | Valid scoreData =>
      match createReputationScore now scoreData db with
      | Rejected e db' => (handleValidationError (StoreThrew e), db')
      | Resolved score db1 =>
          match updateLeaderboard orderBy clock db1 with
          | Resolved _ db2 => (mkResponse 201 (ScoreBody score), db2)
          | Rejected e db2 => (handleValidationError (StoreThrew e), db2)
          end
      end
  end.

(** [PUT /api/reputation/:userId], with [userId] the integer
    [parseInt(req.params.userId)] has read: update, answer 404 when no
    record is matched, otherwise rebuild the leaderboard. *)
Definition putReputation (now : Timestamp) (orderBy : OrderBy)
    (clock : nat -> Timestamp) (userId : Z) (parsed : Parsed ScoreUpdates.t)
    (db : Db) : Response * Db :=
  match parsed with
  | Invalid => (handleValidationError ZodError, db)
  | Valid updates =>
      match updateReputationScore now userId updates db with
      | Rejected e db' => (handleValidationError (StoreThrew e), db')
      | Resolved None db' =>
          (mkResponse 404 (ErrorBody "Reputation score not found"), db')
      | Resolved (Some score) db1 =>
          match updateLeaderboard orderBy clock db1 with
          | Resolved _ db2 => (mkResponse 200 (ScoreBody score), db2)
          | Rejected e db2 => (handleValidationError (StoreThrew e), db2)
          end
      end
  end.

(** [GET /api/leaderboard/position/:pseudonymousId] *)
Definition getPositionRoute (pseudonymousId : string) (db : Db) : Response :=
  match getLeaderboardPosition pseudonymousId db with
  | None => mkResponse 404 (ErrorBody "Position not found")
  | Some position => mkResponse 200 (PositionBody position)
  end.

(** [POST /api/leaderboard/update] *)
Definition postLeaderboardUpdate (orderBy : OrderBy)
    (clock : nat -> Timestamp) (db : Db) : Response * Db :=
  match updateLeaderboard orderBy clock db with
  | Resolved _ db' =>
      (mkResponse 200 (MessageBody "Leaderboard updated successfully"), db')
  | Rejected e db' => (handleValidationError (StoreThrew e), db')
  end.

(** [GET /api/zkproofs/:walletAddress] *)
Definition getZkProofsRoute (walletAddress : string) (db : Db) : Response :=
  match getUserByWallet walletAddress db with
  | None => mkResponse 404 (ErrorBody "User not found")
  | Some user => mkResponse 200 (ProofsBody (getZkProofs (User.id user) db))
  end.

(** [POST /api/zkproofs]. [req.body] is JSON and [insertZkProofSchema]
    does not coerce: a body with an [expiresAt] other than [null] does not
    parse, so the [Valid] body of a request has the expiry absent or
    null. *)
Definition postZkProof (now : Timestamp) (parsed : Parsed InsertZkProof.t)
    (db : Db) : Response * Db :=
  match parsed with
  | Invalid => (handleValidationError ZodError, db)
  | Valid proofData =>
      match createZkProof now proofData db with
      | Resolved proof db' => (mkResponse 201 (ProofBody proof), db')
      | Rejected e db' => (handleValidationError (StoreThrew e), db')
      end
  end.

(** [GET /api/zkproofs/verify/:proofHash] *)
Definition verifyZkProofRoute (now : Timestamp) (proofHash : string)
    (db : Db) : Response :=
  mkResponse 200 (IsValidBody (validateZkProof now proofHash db)).

(** [GET /api/zkproofs/hash/:proofHash] *)
Definition getZkProofRoute (proofHash : string) (db : Db) : Response :=
  match getZkProofByHash proofHash db with
  | None => mkResponse 404 (ErrorBody "ZK proof not found")
  | Some proof => mkResponse 200 (ProofBody proof)
  end.

(** The requests that write to the store. *)
Inductive Request : Type :=
| PostUser : Timestamp -> string -> Parsed InsertUser.t -> Request
| PostReputation :
    Timestamp -> OrderBy -> (nat -> Timestamp) ->
    Parsed InsertReputationScore.t -> Request
| PutReputation :
    Timestamp -> OrderBy -> (nat -> Timestamp) -> Z ->
    Parsed ScoreUpdates.t -> Request
| PostLeaderboardUpdate : OrderBy -> (nat -> Timestamp) -> Request
| PostZkProof : Timestamp -> Parsed InsertZkProof.t -> Request.

Definition serve (request : Request) (db : Db) : Response * Db :=
  match request with
  | PostUser now generated parsed => postUser now generated parsed db
  | PostReputation now orderBy clock parsed =>
      postReputation now orderBy clock parsed db
  | PutReputation now orderBy clock userId parsed =>
      putReputation now orderBy clock userId parsed db
  | PostLeaderboardUpdate orderBy clock =>
      postLeaderboardUpdate orderBy clock db
  | PostZkProof now parsed => postZkProof now parsed db
  end.

Definition serveAll (requests : list Request) (db : Db) : Db :=
  fold_left (fun d request => snd (serve request d)) requests db.

(** The store answers every [ORDER BY] of the request within the
    contract. *)
Definition served (request : Request) : Prop :=
  match request with
  | PostReputation _ orderBy _ _ => OrderByDesc orderBy
  | PutReputation _ orderBy _ _ _ => OrderByDesc orderBy
  | PostLeaderboardUpdate orderBy _ => OrderByDesc orderBy
  | _ => True
  end.

(** The published leaderboard is up to date: a rebuild run now would write
    the snapshot that is already there. *)
Definition inSync (db : Db) : Prop :=
  exists orderBy,
    OrderByDesc orderBy
    /\ snapshot db
       = snapshot (stateOf (updateLeaderboard orderBy (fun _ => 0) db)).

(** [.references(() => users.id)] on [reputation_scores.user_id] and on
    [zk_proofs.user_id]. *)
Definition recordsOwned (db : Db) : Prop :=
  Forall (fun r => userExists (ReputationScore.userId r) db = true)
         (reputationScores db).

Definition proofsOwned (db : Db) : Prop :=
  Forall (fun p => userExists (ZkProof.userId p) db = true) (zkProofs db).

(** [.unique()] on [zk_proofs.proof_hash] *)
Definition hashesUnique (db : Db) : Prop :=
  NoDup (map ZkProof.proofHash (zkProofs db)).

(** The rows of [l] that a query with [ORDER BY key DESC LIMIT n] leaves
    out are none of them ahead of a row it returns. *)
Definition topOf {A} (key : A -> Z) (l res : list A) : Prop :=
  StronglySorted (descBy key) res
  /\ exists rest,
       Permutation l (res ++ rest)
       /\ forall a b, In a res -> In b rest -> key b <= key a.

Module Tour.

Definition limitTwo : option nat := Some 2%nat.

Definition requests : list Request :=
  [PostUser 1 "anon_A" (Valid Scenario.walletA);
   PostUser 2 "anon_B" (Valid Scenario.walletB);
   PostReputation 10 scanOrderBy Scenario.clock
                  (Valid (Scenario.scored 2 90000 "gold"));
   PostReputation 11 scanOrderBy Scenario.clock
                  (Valid (Scenario.scored 1 85000 "silver"));
   PutReputation 12 scanOrderBy Scenario.clock 1
                 (Valid (onlyDefiScore (Some 25025)));
   PostZkProof 13 (Valid Scenario.plainCredential)].

Definition site : Db := serveAll requests emptyDb.

Definition swap : InsertActivity.t :=
  InsertActivity.mk 1 "defi_transaction" Absent Absent Absent 1525 Absent 500.

Definition vote : InsertActivity.t :=
  InsertActivity.mk 1 "dao_vote" Absent Absent Absent 300 Absent 700.

Definition bridge : InsertActivity.t :=
  InsertActivity.mk 1 "bridge" Absent Absent Absent 100 Absent 600.

Definition ledger : Ledger :=
  ledgerOf (createActivity 22 bridge Scenario.registered
    (ledgerOf (createActivity 21 vote Scenario.registered
      (ledgerOf (createActivity 20 swap Scenario.registered emptyLedger))))).

Definition badge : InsertMintedNft.t :=
  InsertMintedNft.mk 1 "2001" "0x123d" "ethereum" "gold" Absent Absent.

End Tour.

(** * Properties *)

Unset Implicit Arguments.

(** ** Lists and lookups *)

Lemma find_app_none {A} (f : A -> bool) (l l' : list A) :
  existsb f l = false -> find f (l ++ l') = find f l'.
Proof.
  induction l as [|x l IH]; simpl; [reflexivity|].
  destruct (f x); simpl; [discriminate|exact IH].
Qed.

Lemma find_map {A B} (f : B -> bool) (g : A -> B) (l : list A) :
  find f (map g l) = option_map g (find (fun a => f (g a)) l).
Proof.
  induction l as [|x l IH]; simpl; [reflexivity|].
  destruct (f (g x)); [reflexivity|exact IH].
Qed.

Lemma filter_length_perm {A} (f : A -> bool) (l l' : list A) :
  Permutation l l' -> length (filter f l) = length (filter f l').
Proof.
  induction 1 as [|x l l' _ IH|x y l|l l' l'' _ IH1 _ IH2]; simpl.
  - reflexivity.
  - destruct (f x); simpl; congruence.
  - destruct (f x), (f y); reflexivity.
  - congruence.
Qed.

(** ** The proof gate *)

Lemma expiredAt_false now expiresAt :
  expiredAt now expiresAt = false <->
  (forall t, expiresAt = Some t -> now <= t).
Proof.
  destruct expiresAt as [t|]; simpl.
  - rewrite Z.ltb_ge. split.
    + intros H t' [= <-]. exact H.
    + intros H. apply H. reflexivity.
  - split; [intros _ t [=]|reflexivity].
Qed.

Lemma truthy_true b : truthy b = true <-> b = Some true.
Proof. destruct b as [[|]|]; simpl; split; congruence. Qed.

(** C3 (as the code has it). [validateZkProof] is a total function to [bool]:
    it answers [true] exactly when the hash is known, the stored validity
    flag is [true] (not [false], not [NULL]) and the expiry is [NULL] or not
    strictly before the current time; in every other case, an unknown hash
    included, it answers [false]. An expiry equal to the current time still
    validates. *)
Theorem validateZkProof_true_iff (now : Timestamp) (proofHash : string)
    (db : Db) :
  validateZkProof now proofHash db = true <->
  exists proof,
    getZkProofByHash proofHash db = Some proof
    /\ ZkProof.isValid proof = Some true
    /\ (forall t, ZkProof.expiresAt proof = Some t -> now <= t).
Proof.
  unfold validateZkProof.
  destruct (getZkProofByHash proofHash db) as [proof|].
  - destruct (truthy (ZkProof.isValid proof)) eqn:Hv; simpl.
    + apply truthy_true in Hv.
      destruct (expiredAt now (ZkProof.expiresAt proof)) eqn:He.
      * split; [discriminate|].
        intros (p & [= <-] & _ & Ht).
        apply expiredAt_false in Ht. congruence.
      * split; [|reflexivity]. intros _.
        exists proof. repeat split; trivial.
        apply expiredAt_false. exact He.
    + split; [discriminate|].
      intros (p & [= <-] & Hp & _).
      apply truthy_true in Hp. congruence.
  - split; [discriminate|]. intros (p & H & _). discriminate.
Qed.

(** C3 as stated fails on the boundary: the credential of the scenario is
    valid and expires at time 1000, and at time 1000 the gate still lets it
    through; one millisecond later it does not. *)
Lemma validateZkProof_expiry_now_passes :
  (exists proof,
     getZkProofByHash "0xHASH1" Scenario.gated = Some proof
     /\ ZkProof.isValid proof = Some true
     /\ ZkProof.expiresAt proof = Some 1000)
  /\ validateZkProof 1000 "0xHASH1" Scenario.gated = true
  /\ validateZkProof 1001 "0xHASH1" Scenario.gated = false.
Proof.
  split; [|split; reflexivity].
  eexists. split; [reflexivity|]. split; reflexivity.
Qed.

Lemma createZkProof_resolved now insertProof db proof db' :
  createZkProof now insertProof db = Resolved proof db' ->
  existsb (fun p => String.eqb (ZkProof.proofHash p)
                               (InsertZkProof.proofHash insertProof))
          (zkProofs db) = false
  /\ ZkProof.proofHash proof = InsertZkProof.proofHash insertProof
  /\ ZkProof.isValid proof
     = orDefault (InsertZkProof.isValid insertProof) (Some true)
  /\ ZkProof.expiresAt proof
     = orDefault (InsertZkProof.expiresAt insertProof) None
  /\ zkProofs db' = zkProofs db ++ [proof].
Proof.
  unfold createZkProof. cbn [ZkProof.proofHash ZkProof.userId].
  destruct (existsb _ (zkProofs db)) eqn:Hdup; [discriminate|].
  destruct (negb (userExists _ db)); [discriminate|].
  intros [= <- <-]. repeat split; reflexivity.
Qed.

(** C10. A credential created without a validity flag is stored with the
    flag [true]; it is the artifact its hash resolves to; and when its expiry
    is left out, [NULL], or strictly after the time of the check,
    [validateZkProof] of its hash answers [true]. *)
Theorem createZkProof_default_validates (now : Timestamp)
    (insertProof : InsertZkProof.t) (db db' : Db) (proof : ZkProof.t) :
  InsertZkProof.isValid insertProof = Absent ->
  createZkProof now insertProof db = Resolved proof db' ->
  ZkProof.isValid proof = Some true
  /\ getZkProofByHash (InsertZkProof.proofHash insertProof) db' = Some proof
  /\ forall checkedAt,
       match orDefault (InsertZkProof.expiresAt insertProof) None with
       | Some t => checkedAt < t
       | None => True
       end ->
       validateZkProof checkedAt (InsertZkProof.proofHash insertProof) db'
       = true.
Proof.
  intros Hflag Hres.
  destruct (createZkProof_resolved _ _ _ _ _ Hres)
    as (Hfresh & Hhash & Hvalid & Hexp & Htable).
  rewrite Hflag in Hvalid. simpl in Hvalid.
  assert (Hget : getZkProofByHash (InsertZkProof.proofHash insertProof) db'
                 = Some proof).
  { unfold getZkProofByHash. rewrite Htable, find_app_none by exact Hfresh.
    simpl. rewrite Hhash, String.eqb_refl. reflexivity. }
  split; [exact Hvalid|]. split; [exact Hget|].
  intros checkedAt Hfuture.
  apply validateZkProof_true_iff. exists proof.
  split; [exact Hget|]. split; [exact Hvalid|].
  intros t Ht. rewrite Hexp in Ht. rewrite Ht in Hfuture. lia.
Qed.

Lemma createZkProof_default_validates_witness :
  exists proof db',
    createZkProof 500 Scenario.plainCredential Scenario.registered
    = Resolved proof db'
    /\ ZkProof.isValid proof = Some true
    /\ validateZkProof 999 "0xHASH2" db' = true.
Proof.
  eexists. eexists. split; [reflexivity|].
  destruct (createZkProof_default_validates 500 Scenario.plainCredential
              Scenario.registered _ _ eq_refl eq_refl) as (Hv & _ & Hok).
  split; [exact Hv|]. apply (Hok 999). exact I.
Defined.

(** ** The reputation store *)

Lemma patchScore_frame now updates r :
  scoreFrame now updates r (patchScore now updates r).
Proof.
  unfold scoreFrame, patchScore; cbn.
  repeat split; intros ->; reflexivity.
Qed.

Lemma updateReputationScore_resolved now userId updates db res db' :
  updateReputationScore now userId updates db = Resolved res db' ->
  users db' = users db
  /\ leaderboard db' = leaderboard db
  /\ zkProofs db' = zkProofs db
  /\ reputationScores db'
     = map (fun r => if ReputationScore.userId r =? userId
                     then patchScore now updates r else r)
           (reputationScores db)
  /\ res = hd_error (map (patchScore now updates) (recordsOf userId db)).
Proof.
  unfold updateReputationScore, recordsOf.
  destruct (existsb _ (reputationScores db)) eqn:Hhit; simpl.
  - destruct (match ScoreUpdates.userId updates with
              | Supplied owner => negb (userExists owner db)
              | Absent => false
              end); [discriminate|].
    intros [= <- <-]. repeat split; reflexivity.
  - intros [= <- <-]. repeat split; try reflexivity.
    + symmetry. erewrite map_ext_in; [apply map_id|].
      intros r Hr. simpl.
      destruct (ReputationScore.userId r =? userId) eqn:E; [|reflexivity].
      assert (existsb (fun r0 => ReputationScore.userId r0 =? userId)
                      (reputationScores db) = true)
        by (apply existsb_exists; exists r; auto).
      congruence.
    + induction (reputationScores db) as [|r l IH]; [reflexivity|].
      simpl in Hhit |- *. apply orb_false_elim in Hhit as [-> Hl].
      apply IH. exact Hl.
Qed.

(** C5. A resolved [updateReputationScore] leaves the other tables and every
    record of another identity as they were; in a record it matches, every
    column the update does not supply keeps its value (id and createdAt
    always do), and lastCalculated is set to the time of the write (as is the
    row's updatedAt). In particular an update that supplies only defiScore
    returns the old row with defiScore and the two timestamps replaced:
    the other category scores, overallScore and reputationLevel are the
    prior ones. *)
Theorem updateReputationScore_frame (now : Timestamp) (userId : Z)
    (updates : ScoreUpdates.t) (db db' : Db)
    (res : option ReputationScore.t) :
  updateReputationScore now userId updates db = Resolved res db' ->
  users db' = users db
  /\ leaderboard db' = leaderboard db
  /\ zkProofs db' = zkProofs db
  /\ Forall2
       (fun r r' =>
          if ReputationScore.userId r =? userId
          then scoreFrame now updates r r'
          else r' = r)
       (reputationScores db) (reputationScores db')
  /\ (forall v, updates = onlyDefiScore v ->
      Forall2
        (fun r r' =>
           if ReputationScore.userId r =? userId
           then r' = ReputationScore.mk
                       (ReputationScore.id r)
                       (ReputationScore.userId r)
                       (ReputationScore.overallScore r)
                       (ReputationScore.reputationLevel r)
                       (ReputationScore.daoScore r)
                       v
                       (ReputationScore.nftScore r)
                       (ReputationScore.bridgeScore r)
                       (ReputationScore.votingScore r)
                       (ReputationScore.scamAvoidanceScore r)
                       (ReputationScore.zkProofHash r)
                       now
                       (ReputationScore.createdAt r)
                       now
           else r' = r)
        (reputationScores db) (reputationScores db')).
Proof.
  intros Hres.
  destruct (updateReputationScore_resolved _ _ _ _ _ _ Hres)
    as (Hu & Hl & Hz & Hr & _).
  repeat (split; [assumption|]). rewrite Hr. clear. split.
  - induction (reputationScores db) as [|r l IH]; simpl; constructor; trivial.
    destruct (ReputationScore.userId r =? userId);
      [apply patchScore_frame|reflexivity].
  - intros v ->.
    induction (reputationScores db) as [|r l IH]; simpl; constructor; trivial.
    destruct (ReputationScore.userId r =? userId); reflexivity.
Qed.

Lemma updateReputationScore_frame_witness :
  exists res db',
    updateReputationScore 20 1 Scenario.defiOnly Scenario.tied
    = Resolved res db'
    /\ Forall2
         (fun r r' =>
            if ReputationScore.userId r =? 1
            then scoreFrame 20 Scenario.defiOnly r r'
            else r' = r)
         (reputationScores Scenario.tied) (reputationScores db').
Proof.
  eexists. eexists. split; [reflexivity|].
  apply (updateReputationScore_frame 20 1 Scenario.defiOnly Scenario.tied
           _ _ eq_refl).
Defined.

Lemma createReputationScore_records now insertScore db userId :
  recordsOf userId (stateOf (createReputationScore now insertScore db))
  = recordsOf userId db
    \/ (InsertReputationScore.userId insertScore = userId
        /\ exists score,
             recordsOf userId
               (stateOf (createReputationScore now insertScore db))
             = recordsOf userId db ++ [score]).
Proof.
  unfold createReputationScore, recordsOf.
  cbn [ReputationScore.userId].
  destruct (negb (userExists _ db)); simpl; [left; reflexivity|].
  rewrite filter_app. simpl.
  destruct (InsertReputationScore.userId insertScore =? userId) eqn:E.
  - right. apply Z.eqb_eq in E. split; [exact E|]. eexists. reflexivity.
  - left. apply app_nil_r.
Qed.

Lemma filter_map_length {A} (f : A -> bool) (g : A -> A) (l : list A) :
  (forall x, f (g x) = f x) ->
  length (filter f (map g l)) = length (filter f l).
Proof.
  intros Hfg. induction l as [|x l IH]; simpl; [reflexivity|].
  rewrite Hfg. destruct (f x); simpl; congruence.
Qed.

Lemma updateReputationScore_records now userId updates db owner :
  ScoreUpdates.userId updates = Absent ->
  length (recordsOf owner
            (stateOf (updateReputationScore now userId updates db)))
  = length (recordsOf owner db).
Proof.
  intros Hkeep. unfold updateReputationScore, recordsOf. rewrite Hkeep.
  destruct (negb (existsb _ (reputationScores db))); simpl; [reflexivity|].
  apply filter_map_length. intros r.
  destruct (ReputationScore.userId r =? userId); [|reflexivity].
  unfold patchScore. cbn. rewrite Hkeep. reflexivity.
Qed.

Lemma firstRecordOnly_preserves op db :
  firstRecordOnly op db = true ->
  oneRecordPerIdentity db ->
  oneRecordPerIdentity (runScoreOp op db).
Proof.
  intros Hop Hone owner. destruct op as [now ins|now uid updates]; simpl in *.
  - destruct (createReputationScore_records now ins db owner)
      as [->|(Heq & score & ->)]; [apply Hone|].
    subst owner.
    destruct (recordsOf (InsertReputationScore.userId ins) db);
      [simpl; lia|discriminate].
  - rewrite updateReputationScore_records; [apply Hone|].
    destruct (ScoreUpdates.userId updates); [reflexivity|discriminate].
Qed.

(** C6 (as the code has it). The schema puts no unique constraint on
    [reputation_scores.user_id] and [createReputationScore] inserts without
    looking for an existing record, so the store keeps "at most one record
    per identity" only along sequences of writes that never ask for a second
    one: from a state with at most one record per identity, any sequence of
    createReputationScore / updateReputationScore calls in which every
    create is for an identity that owns no record at that moment, and no
    update supplies userId, ends in a state with at most one record per
    identity. *)
Theorem oneRecordPerIdentity_kept (ops : list ScoreOp) (db : Db) :
  oneRecordPerIdentity db ->
  allFirstRecordOnly ops db = true ->
  oneRecordPerIdentity (runScoreOps ops db).
Proof.
  revert db. induction ops as [|op ops IH]; intros db Hone Hops; simpl in *.
  - exact Hone.
  - apply andb_prop in Hops as [Hop Hrest].
    apply IH; [|exact Hrest].
    apply firstRecordOnly_preserves; assumption.
Qed.

Lemma oneRecordPerIdentity_no_records db :
  reputationScores db = [] -> oneRecordPerIdentity db.
Proof. intros H owner. unfold recordsOf. rewrite H. simpl. lia. Qed.

Lemma oneRecordPerIdentity_kept_witness :
  oneRecordPerIdentity Scenario.tied.
Proof.
  apply (oneRecordPerIdentity_kept
           [CreateScore 10 (Scenario.scored 2 90000 "gold");
            CreateScore 11 (Scenario.scored 1 90000 "gold");
            CreateScore 12 (Scenario.scored 3 85000 "silver")]
           Scenario.registered).
  - apply oneRecordPerIdentity_no_records. reflexivity.
  - reflexivity.
Defined.

(** C6 as stated fails: two createReputationScore calls for identity A both
    resolve, and the table then holds two records whose owner is A. *)
Lemma createReputationScore_accepts_second_record :
  exists first db1 second db2,
    createReputationScore 10 (Scenario.scored 1 90000 "gold")
                          Scenario.registered
    = Resolved first db1
    /\ createReputationScore 11 (Scenario.scored 1 25025 "bronze") db1
       = Resolved second db2
    /\ db2 = Scenario.scoredTwice
    /\ recordsOf 1 db2 = [first; second]
    /\ ReputationScore.id first <> ReputationScore.id second
    /\ ~ oneRecordPerIdentity db2.
Proof.
  do 4 eexists.
  split; [reflexivity|]. split; [reflexivity|]. split; [reflexivity|].
  split; [reflexivity|]. split; [discriminate|].
  intros H. specialize (H 1). vm_compute in H. lia.
Qed.

(** ** The identity registry *)

Lemma find_hd_filter {A} (f : A -> bool) (l : list A) :
  find f l = hd_error (filter f l).
Proof.
  induction l as [|x l IH]; simpl; [reflexivity|].
  destruct (f x); [reflexivity|exact IH].
Qed.

Lemma filter_none {A} (f : A -> bool) (l : list A) :
  (forall x, In x l -> f x = false) -> filter f l = [].
Proof.
  induction l as [|x l IH]; simpl; intros H; [reflexivity|].
  rewrite (H x) by auto. apply IH. auto.
Qed.

Lemma filter_by_key {A} (key : A -> Z) (l : list A) (a : A) :
  NoDup (map key l) -> In a l ->
  filter (fun x => key x =? key a) l = [a].
Proof.
  induction l as [|x l IH]; simpl; intros Hnd Hin; [contradiction|].
  inversion Hnd as [|? ? Hx Hl]; subst.
  destruct Hin as [->|Hin].
  - rewrite Z.eqb_refl. f_equal. apply filter_none.
    intros y Hy. apply Z.eqb_neq. intros E. apply Hx. rewrite <- E.
    apply in_map. exact Hy.
  - destruct (key x =? key a) eqn:E.
    + apply Z.eqb_eq in E. exfalso. apply Hx. rewrite E.
      apply in_map. exact Hin.
    + apply IH; assumption.
Qed.

Lemma usersPk_lookup db u :
  usersPk db -> In u (users db) ->
  filter (fun x => User.id x =? User.id u) (users db) = [u].
Proof. intros Hpk Hin. apply (filter_by_key User.id); assumption. Qed.

(** C7 (as the code has it). [updateUser] is a plain partial update of an
    existing identity, and no column is immutable: whenever it resolves, it
    resolves with the patched row, in which every supplied column,
    walletAddress and pseudonymousId included, holds the supplied value,
    every other column but updatedAt holds its prior value, and id and
    createdAt are untouched; the other rows and tables are as they were.
    It is rejected when the wallet address or pseudonymous id it writes is
    already held by another identity (the two unique columns), and a
    rejected update leaves the store as it was. *)
Theorem updateUser_applies_patch (now : Timestamp) (updates : UserUpdates.t)
    (db : Db) (u : User.t) :
  usersPk db ->
  In u (users db) ->
  (forall res db',
     updateUser now (User.id u) updates db = Resolved res db' ->
     exists u',
       res = Some u'
       /\ updateUserConflicts (User.id u) updates db = false
       /\ getUser (User.id u) db' = Some u'
       /\ User.id u' = User.id u
       /\ User.createdAt u' = User.createdAt u
       /\ User.updatedAt u' = now
       /\ User.walletAddress u'
          = orKeep (UserUpdates.walletAddress updates) (User.walletAddress u)
       /\ User.pseudonymousId u'
          = orKeep (UserUpdates.pseudonymousId updates)
                   (User.pseudonymousId u)
       /\ User.publicKey u'
          = orKeep (UserUpdates.publicKey updates) (User.publicKey u)
       /\ User.chain u' = orKeep (UserUpdates.chain updates) (User.chain u)
       /\ users db'
          = map (fun x => if User.id x =? User.id u then u' else x)
                (users db)
       /\ reputationScores db' = reputationScores db
       /\ leaderboard db' = leaderboard db
       /\ zkProofs db' = zkProofs db)
  /\ (updateUserConflicts (User.id u) updates db = true ->
      exists e, updateUser now (User.id u) updates db = Rejected e db)
  /\ (forall e db',
        updateUser now (User.id u) updates db = Rejected e db' -> db' = db).
Proof.
  intros Hpk Hin.
  assert (Hhit : existsb (fun x => User.id x =? User.id u) (users db) = true).
  { apply existsb_exists. exists u. split; [exact Hin|apply Z.eqb_refl]. }
  assert (Hmap : map (fun x => if User.id x =? User.id u
                               then patchUser now updates x else x) (users db)
                 = map (fun x => if User.id x =? User.id u
                                 then patchUser now updates u else x)
                       (users db)).
  { apply map_ext_in. intros x Hx.
    destruct (User.id x =? User.id u) eqn:E; [|reflexivity].
    assert (Hxu : In x (filter (fun y => User.id y =? User.id u) (users db)))
      by (apply filter_In; auto).
    rewrite usersPk_lookup in Hxu by assumption.
    destruct Hxu as [->|[]]. reflexivity. }
  unfold updateUser. rewrite Hhit. simpl.
  destruct (updateUserConflicts (User.id u) updates db).
  { split; [discriminate|]. split; [intros _; eexists; reflexivity|].
    intros e db' [= _ <-]. reflexivity. }
  split; [|split; discriminate].
  intros res db' [= <- <-].
  exists (patchUser now updates u).
  split; [rewrite usersPk_lookup by assumption; reflexivity|].
  split; [reflexivity|].
  split.
  { unfold getUser, set_users. cbn [users]. rewrite find_hd_filter.
    rewrite Hmap.
    assert (Hf : forall l,
               filter (fun x => User.id x =? User.id u)
                 (map (fun x => if User.id x =? User.id u
                                then patchUser now updates u else x) l)
               = map (fun _ => patchUser now updates u)
                     (filter (fun x => User.id x =? User.id u) l)).
    { induction l as [|x l IH]; simpl; [reflexivity|].
      destruct (User.id x =? User.id u) eqn:E; cbn [User.id patchUser].
      - rewrite Z.eqb_refl. simpl. f_equal. exact IH.
      - rewrite E. exact IH. }
    rewrite Hf, usersPk_lookup by assumption. reflexivity. }
  repeat (split; [reflexivity|]).
  split; [|repeat split; reflexivity].
  unfold set_users. cbn [users]. exact Hmap.
Qed.

Lemma usersPk_registered : usersPk Scenario.registered.
Proof.
  unfold usersPk. vm_compute.
  repeat constructor; simpl; intuition discriminate.
Qed.

Lemma updateUser_applies_patch_witness :
  exists u' db',
    updateUser 50 1 Scenario.rebind Scenario.registered
    = Resolved (Some u') db'
    /\ User.walletAddress u' = "0xDD"
    /\ User.pseudonymousId u' = Some "anon_D".
Proof.
  destruct (updateUser_applies_patch 50 Scenario.rebind Scenario.registered
              (User.mk 1 "0xAA" "ethereum" None (Some "anon_A") 1 1)
              usersPk_registered (or_introl eq_refl))
    as (Hpatch & _).
  destruct (Hpatch _ _ eq_refl)
    as (u' & Hres & _ & _ & _ & _ & _ & Hw & Hp & _).
  exists u'. eexists. split; [rewrite <- Hres; reflexivity|].
  split; [exact Hw|exact Hp].
Defined.

(** C7 as stated fails: a patch of A's wallet address and pseudonymous id is
    not refused; it resolves, and A is afterwards bound to the new wallet
    address and the new pseudonymous id. *)
Lemma updateUser_rebinds_identity :
  exists before after db',
    getUser 1 Scenario.registered = Some before
    /\ User.walletAddress before = "0xAA"
    /\ User.pseudonymousId before = Some "anon_A"
    /\ updateUser 50 1 Scenario.rebind Scenario.registered
       = Resolved (Some after) db'
    /\ getUser 1 db' = Some after
    /\ User.walletAddress after = "0xDD"
    /\ User.pseudonymousId after = Some "anon_D"
    /\ getUserByWallet "0xAA" db' = None.
Proof.
  do 3 eexists. repeat (split; [reflexivity|]). reflexivity.
Qed.

(** ** The executor that keeps the scan order among equal scores *)

Lemma insertDesc_perm j l : Permutation (j :: l) (insertDesc j l).
Proof.
  induction l as [|k l IH]; simpl; [reflexivity|].
  destruct (joinedScore k <=? joinedScore j); [reflexivity|].
  rewrite perm_swap. apply perm_skip. exact IH.
Qed.

Lemma insertDesc_sorted j l :
  StronglySorted descByScore l -> StronglySorted descByScore (insertDesc j l).
Proof.
  induction l as [|k l IH]; simpl; intros Hs.
  - repeat constructor.
  - apply StronglySorted_inv in Hs as [Hl Hk].
    destruct (joinedScore k <=? joinedScore j) eqn:E.
    + apply Z.leb_le in E. constructor; [constructor; assumption|].
      constructor; [exact E|].
      eapply Forall_impl; [|exact Hk].
      unfold descByScore. intros x Hx. lia.
    + apply Z.leb_gt in E. constructor; [apply IH; exact Hl|].
      eapply Permutation_Forall; [apply insertDesc_perm|].
      constructor; [unfold descByScore; lia|exact Hk].
Qed.

Lemma scanOrderBy_ok : OrderByDesc scanOrderBy.
Proof.
  split; intros l; induction l as [|j l IH]; simpl.
  - reflexivity.
  - rewrite <- insertDesc_perm. apply perm_skip. exact IH.
  - constructor.
  - apply insertDesc_sorted. exact IH.
Qed.

(** ** The insert loop *)

Lemma eligibleRows_named db : named (eligibleRows db).
Proof.
  unfold named, eligibleRows. apply Forall_forall. intros [r u] Hin.
  apply in_flat_map in Hin as (r' & _ & Hin).
  apply in_map_iff in Hin as (u' & [= <- <-] & Hu).
  apply filter_In in Hu as [_ Hu]. apply andb_prop in Hu as [_ Hu].
  simpl. destruct (User.pseudonymousId u'); [discriminate|discriminate].
Qed.

Lemma eligibleRows_In db r u :
  In (r, u) (eligibleRows db) <->
  In r (reputationScores db) /\ In u (users db)
  /\ ReputationScore.userId r = User.id u
  /\ User.pseudonymousId u <> None.
Proof.
  unfold eligibleRows. rewrite in_flat_map. split.
  - intros (r' & Hr & Hin).
    apply in_map_iff in Hin as (u' & [= <- <-] & Hu).
    apply filter_In in Hu as [Hu Hc]. apply andb_prop in Hc as [Hid Hp].
    apply Z.eqb_eq in Hid. repeat split; trivial.
    destruct (User.pseudonymousId u'); [discriminate|discriminate].
  - intros (Hr & Hu & Hid & Hp). exists r. split; [exact Hr|].
    apply in_map. apply filter_In. split; [exact Hu|].
    rewrite Hid, Z.eqb_refl. simpl.
    destruct (User.pseudonymousId u); [reflexivity|contradiction].
Qed.

Lemma leaderboardValues_named i j :
  User.pseudonymousId (snd j) <> None ->
  exists p,
    User.pseudonymousId (snd j) = Some p
    /\ leaderboardValues i (selectScoreRow j)
       = Some (InsertLeaderboardEntry.mk p
                 (ReputationScore.reputationLevel (fst j))
                 (ReputationScore.overallScore (fst j))
                 (User.chain (snd j))
                 (Z.of_nat i + 1)).
Proof.
  intros Hp. unfold leaderboardValues, selectScoreRow. cbn.
  destruct (User.pseudonymousId (snd j)) as [p|]; [|contradiction].
  exists p. split; reflexivity.
Qed.

(** The loop touches nothing but [leaderboard] and its sequence, and what it
    appends is [rankedEntries]. *)
Lemma insertRanked_state clock scores :
  forall i db,
    let db' := stateOf (insertRanked clock i scores db) in
    users db' = users db
    /\ reputationScores db' = reputationScores db
    /\ zkProofs db' = zkProofs db
    /\ leaderboard db'
       = leaderboard db
         ++ rankedEntries clock i (leaderboard_id_seq db) scores.
Proof.
  induction scores as [|score rest IH]; intros i db; simpl.
  - repeat split; trivial. symmetry. apply app_nil_r.
  - destruct (leaderboardValues i score) as [v|]; simpl.
    + destruct (IH (S i) (insertLeaderboard (clock i) v db))
        as (Hu & Hr & Hz & Hl).
      repeat split; trivial.
      rewrite Hl. cbn. rewrite <- app_assoc. reflexivity.
    + repeat split; trivial. symmetry. apply app_nil_r.
Qed.

(** On rows that all carry a pseudonymous id no insert is refused. *)
Lemma insertRanked_resolves clock l :
  named l ->
  forall i db,
    insertRanked clock i (map selectScoreRow l) db
    = Resolved tt (stateOf (insertRanked clock i (map selectScoreRow l) db)).
Proof.
  induction 1 as [|j l Hj _ IH]; intros i db; simpl; [reflexivity|].
  destruct (leaderboardValues_named i j Hj) as (p & _ & ->).
  apply IH.
Qed.

Lemma rankedEntries_scoreRows clock l :
  named l ->
  forall i nextId,
    map scoreRowOf (rankedEntries clock i nextId (map selectScoreRow l))
    = map selectScoreRow l.
Proof.
  induction 1 as [|j l Hj _ IH]; intros i nextId; simpl; [reflexivity|].
  destruct (leaderboardValues_named i j Hj) as (p & Hp & ->).
  simpl. rewrite IH. f_equal.
  unfold scoreRowOf, selectScoreRow. cbn. rewrite Hp. reflexivity.
Qed.

Lemma rankedEntries_ranks clock l :
  named l ->
  forall i nextId,
    map LeaderboardEntry.rank
        (rankedEntries clock i nextId (map selectScoreRow l))
    = map Z.of_nat (seq (S i) (length l)).
Proof.
  induction 1 as [|j l Hj _ IH]; intros i nextId; simpl; [reflexivity|].
  destruct (leaderboardValues_named i j Hj) as (p & _ & ->).
  simpl. rewrite IH. f_equal. lia.
Qed.

(** Where a row of the new leaderboard comes from: the [k]-th selected row,
    and nothing else. *)
Lemma rankedEntries_In clock l e :
  forall i nextId,
    In e (rankedEntries clock i nextId (map selectScoreRow l)) ->
    exists k r u p,
      nth_error l k = Some (r, u)
      /\ User.pseudonymousId u = Some p
      /\ e = LeaderboardEntry.mk
               (nextId + Z.of_nat k) p
               (ReputationScore.reputationLevel r)
               (ReputationScore.overallScore r)
               (User.chain u)
               (Z.of_nat (i + k) + 1)
               (clock (i + k)%nat) (clock (i + k)%nat).
Proof.
  induction l as [|[r u] l IH]; intros i nextId; simpl; [contradiction|].
  unfold leaderboardValues, selectScoreRow at 1. cbn.
  destruct (User.pseudonymousId u) as [p|] eqn:Hp; [|contradiction].
  cbn. intros [<-|Hin].
  - exists 0%nat, r, u, p. rewrite Nat.add_0_r, Z.add_0_r.
    repeat split; trivial.
  - apply IH in Hin as (k & r' & u' & p' & Hk & Hp' & ->).
    exists (S k), r', u', p'. rewrite Nat.add_succ_r.
    repeat split; trivial. f_equal. lia.
Qed.

Lemma StronglySorted_nth_error {A} (R : A -> A -> Prop) (l : list A) :
  StronglySorted R l ->
  forall a b x y,
    nth_error l a = Some x -> nth_error l b = Some y -> (a < b)%nat -> R x y.
Proof.
  induction 1 as [|z l _ IH Hz]; intros a b x y Ha Hb Hab.
  - destruct a; discriminate.
  - destruct b as [|b]; [lia|]. simpl in Hb. destruct a as [|a].
    + injection Ha as <-. rewrite Forall_forall in Hz. apply Hz.
      eapply nth_error_In. exact Hb.
    + simpl in Ha. apply (IH a b); trivial. lia.
Qed.

Lemma StronglySorted_around {A} (R : A -> A -> Prop) (l1 l2 : list A) (x : A) :
  StronglySorted R (l1 ++ x :: l2) ->
  Forall (fun y => R y x) l1 /\ Forall (R x) l2.
Proof.
  induction l1 as [|z l1 IH]; simpl; intros Hs;
    apply StronglySorted_inv in Hs as [Hs Hz].
  - split; [constructor|exact Hz].
  - destruct (IH Hs) as [H1 H2]. split; [|exact H2].
    constructor; [|exact H1].
    rewrite Forall_forall in Hz. apply Hz. apply in_elt.
Qed.

Lemma filter_all {A} (f : A -> bool) (l : list A) :
  Forall (fun x => f x = true) l -> filter f l = l.
Proof.
  induction 1 as [|x l Hx _ IH]; simpl; [reflexivity|].
  rewrite Hx, IH. reflexivity.
Qed.

Lemma eligibleRows_ext db1 db2 :
  users db1 = users db2 ->
  reputationScores db1 = reputationScores db2 ->
  eligibleRows db1 = eligibleRows db2.
Proof. unfold eligibleRows. intros -> ->. reflexivity. Qed.

(** What the loop writes into the five supplied columns depends on the
    selected rows and the start index alone. *)
Lemma rankedEntries_snapshot clock clock' scores :
  forall i nextId nextId',
    map snapshotOf (rankedEntries clock i nextId scores)
    = map snapshotOf (rankedEntries clock' i nextId' scores).
Proof.
  induction scores as [|score rest IH]; intros i nextId nextId'; simpl;
    [reflexivity|].
  destruct (leaderboardValues i score); simpl; [|reflexivity].
  f_equal. apply IH.
Qed.

Lemma getLeaderboardPosition_snapshot p db :
  getLeaderboardPosition p db
  = option_map InsertLeaderboardEntry.rank
      (find (fun v => String.eqb (InsertLeaderboardEntry.pseudonymousId v) p)
            (snapshot db)).
Proof.
  unfold getLeaderboardPosition, snapshot. rewrite find_map. cbn.
  destruct (find _ (leaderboard db)); reflexivity.
Qed.

Lemma rankedEntries_length clock l :
  named l ->
  forall i nextId,
    length (rankedEntries clock i nextId (map selectScoreRow l)) = length l.
Proof.
  intros Hl i nextId.
  rewrite <- (length_map LeaderboardEntry.rank).
  rewrite rankedEntries_ranks by exact Hl.
  rewrite length_map. apply length_seq.
Qed.

Lemma insertRankedStates_length clock l :
  named l ->
  forall i db,
    length (insertRankedStates clock i (map selectScoreRow l) db) = length l.
Proof.
  induction 1 as [|j l Hj _ IH]; intros i db; simpl; [reflexivity|].
  destruct (leaderboardValues_named i j Hj) as (p & _ & ->).
  simpl. rewrite IH. reflexivity.
Qed.

(** The state after the insert at index [i + k] holds the first [k + 1] of
    the rows the loop appends. *)
Lemma insertRankedStates_nth clock l :
  named l ->
  forall i db k s,
    nth_error (insertRankedStates clock i (map selectScoreRow l) db) k
    = Some s ->
    users s = users db
    /\ reputationScores s = reputationScores db
    /\ zkProofs s = zkProofs db
    /\ leaderboard s
       = leaderboard db
         ++ firstn (S k)
              (rankedEntries clock i (leaderboard_id_seq db)
                             (map selectScoreRow l)).
Proof.
  induction 1 as [|j l Hj _ IH]; intros i db k s; simpl.
  - destruct k; discriminate.
  - destruct (leaderboardValues_named i j Hj) as (p & _ & ->).
    destruct k as [|k]; simpl.
    + intros [= <-]. repeat split; reflexivity.
    + intros Hk. apply IH in Hk as (Hu & Hr & Hz & Hl).
      repeat split; trivial. rewrite Hl. cbn.
      rewrite <- app_assoc. reflexivity.
Qed.

Lemma insertRankedStates_last clock l :
  named l ->
  forall i db,
    nth_error (db :: insertRankedStates clock i (map selectScoreRow l) db)
              (length l)
    = Some (stateOf (insertRanked clock i (map selectScoreRow l) db)).
Proof.
  induction 1 as [|j l Hj _ IH]; intros i db; [reflexivity|].
  cbn [map insertRankedStates insertRanked length nth_error].
  destruct (leaderboardValues_named i j Hj) as (p & _ & ->).
  apply IH.
Qed.

(** ** Selected rows and eligible identities *)

Lemma eligibleRows_owners db :
  map snd (eligibleRows db)
  = flat_map
      (fun r =>
         filter (fun u => (ReputationScore.userId r =? User.id u)
                          && isSome (User.pseudonymousId u))
                (users db))
      (reputationScores db).
Proof.
  unfold eligibleRows.
  induction (reputationScores db) as [|r rs IH]; simpl; [reflexivity|].
  rewrite map_app, IH, map_map. simpl. rewrite map_id. reflexivity.
Qed.

Lemma owners_NoDup (us : list User.t) (rs : list ReputationScore.t) :
  NoDup us ->
  (forall userId,
     (length (filter (fun r => (ReputationScore.userId r =? userId)%Z) rs)
      <= 1)%nat) ->
  NoDup
    (flat_map
       (fun r =>
          filter (fun u => (ReputationScore.userId r =? User.id u)
                           && isSome (User.pseudonymousId u))
                 us)
       rs).
Proof.
  intros Hus. induction rs as [|r rs IH]; simpl; intros Hone; [constructor|].
  apply NoDup_app.
  - apply NoDup_filter. exact Hus.
  - apply IH. intros userId. specialize (Hone userId).
    destruct (ReputationScore.userId r =? userId); simpl in Hone; lia.
  - intros u Hu Hrest.
    apply filter_In in Hu as [_ Hu]. apply andb_prop in Hu as [Hid _].
    apply Z.eqb_eq in Hid.
    apply in_flat_map in Hrest as (r' & Hr' & Hu').
    apply filter_In in Hu' as [_ Hu']. apply andb_prop in Hu' as [Hid' _].
    specialize (Hone (User.id u)). rewrite <- Hid, Z.eqb_refl in Hone.
    simpl in Hone.
    assert (Hin : In r' (filter (fun x => ReputationScore.userId x
                                          =? ReputationScore.userId r) rs)).
    { apply filter_In. split; [exact Hr'|]. rewrite Hid. exact Hid'. }
    destruct (filter _ rs); [contradiction|simpl in Hone; lia].
Qed.

Lemma eligibleRows_identities db :
  usersPk db -> oneRecordPerIdentity db ->
  Permutation (map snd (eligibleRows db)) (eligibleIdentities db).
Proof.
  intros Hpk Hone.
  assert (Hus : NoDup (users db)) by (eapply NoDup_map_inv; exact Hpk).
  apply NoDup_Permutation.
  - rewrite eligibleRows_owners. apply owners_NoDup; [exact Hus|exact Hone].
  - apply NoDup_filter. exact Hus.
  - intros u. unfold eligibleIdentities, eligible.
    rewrite filter_In, in_map_iff. split.
    + intros ([r u'] & <- & Hin).
      apply eligibleRows_In in Hin as (Hr & Hu & Hid & Hp). simpl.
      split; [exact Hu|]. apply andb_true_intro. split.
      * destruct (User.pseudonymousId u'); [reflexivity|contradiction].
      * apply existsb_exists. exists r. split; [exact Hr|].
        apply Z.eqb_eq. exact Hid.
    + intros (Hu & Hc). apply andb_prop in Hc as [Hp Hex].
      apply existsb_exists in Hex as (r & Hr & Hid). apply Z.eqb_eq in Hid.
      exists (r, u). split; [reflexivity|].
      apply eligibleRows_In. repeat split; trivial.
      destruct (User.pseudonymousId u); [discriminate|discriminate].
Qed.

Lemma NoDup_map_filter {A B} (f : A -> option B) (g : A -> bool)
    (l : list A) :
  (forall x, g x = true -> isSome (f x) = true) ->
  NoDup (filter isSome (map f l)) ->
  NoDup (map f (filter g l)).
Proof.
  intros Hg. induction l as [|x l IH]; simpl; intros Hnd; [constructor|].
  destruct (g x) eqn:Egx.
  - rewrite (Hg x Egx) in Hnd. inversion Hnd as [|? ? Hx Hl]; subst.
    simpl. constructor; [|apply IH; exact Hl].
    intros Hin. apply Hx.
    apply in_map_iff in Hin as (y & Hy & Hin).
    apply filter_In in Hin as [Hin Hgy].
    apply filter_In. split.
    + rewrite <- Hy. apply in_map. exact Hin.
    + rewrite <- Hy. apply Hg. exact Hgy.
  - apply IH. destruct (isSome (f x)); [|exact Hnd].
    inversion Hnd; assumption.
Qed.

Lemma eligibleIdentities_pseudonyms db :
  pseudonymsUnique db ->
  NoDup (map User.pseudonymousId (eligibleIdentities db)).
Proof.
  intros Hpu. apply NoDup_map_filter; [|exact Hpu].
  intros u Hu. unfold eligible in Hu. apply andb_prop in Hu as [Hp _].
  exact Hp.
Qed.

Lemma oneRecordPerIdentity_of_NoDup db :
  NoDup (map ReputationScore.userId (reputationScores db)) ->
  oneRecordPerIdentity db.
Proof.
  intros Hnd userId. unfold recordsOf.
  induction (reputationScores db) as [|r rs IH]; simpl; [lia|].
  inversion Hnd as [|? ? Hr Hrs]; subst.
  destruct (ReputationScore.userId r =? userId) eqn:E; [|apply IH; exact Hrs].
  apply Z.eqb_eq in E. rewrite filter_none; [simpl; lia|].
  intros x Hx. apply Z.eqb_neq. intros Ex. apply Hr. rewrite E, <- Ex.
  apply in_map. exact Hx.
Qed.

(** Distinctness of the keys of a table given in full. *)
Ltac distinct_keys :=
  vm_compute; repeat constructor; simpl; intuition discriminate.

(** ** The leaderboard rebuild *)

Section Rebuild.

Variable orderBy : OrderBy.
Hypothesis orderBy_ok : OrderByDesc orderBy.

Local Abbreviation sorted db := (sortedRows orderBy db).

Lemma sorted_named db : named (sorted db).
Proof.
  unfold named, sorted.
  eapply Permutation_Forall;
    [apply (orderBy_perm orderBy_ok)|apply eligibleRows_named].
Qed.

(** The rebuild always completes, and the table it leaves is the closed
    form of the loop over the sorted selection. *)
Lemma updateLeaderboard_resolves clock db :
  exists db',
    updateLeaderboard orderBy clock db = Resolved tt db'
    /\ users db' = users db
    /\ reputationScores db' = reputationScores db
    /\ zkProofs db' = zkProofs db
    /\ leaderboard db'
       = rankedEntries clock 0 (leaderboard_id_seq db)
                       (map selectScoreRow (sorted db)).
Proof.
  unfold updateLeaderboard, selectScores.
  change (sorted (deleteLeaderboard db)) with (sorted db).
  rewrite insertRanked_resolves by apply sorted_named.
  eexists. split; [reflexivity|].
  destruct (insertRanked_state clock (map selectScoreRow (sorted db)) 0
                               (deleteLeaderboard db))
    as (Hu & Hr & Hz & Hl).
  repeat split; assumption.
Qed.

Lemma leaderboard_monotone clock nextId l e1 e2 :
  StronglySorted descByScore l ->
  In e1 (rankedEntries clock 0 nextId (map selectScoreRow l)) ->
  In e2 (rankedEntries clock 0 nextId (map selectScoreRow l)) ->
  LeaderboardEntry.overallScore e2 < LeaderboardEntry.overallScore e1 ->
  LeaderboardEntry.rank e1 < LeaderboardEntry.rank e2.
Proof.
  intros Hs H1 H2 Hlt.
  apply rankedEntries_In in H1 as (k1 & r1 & u1 & p1 & Hk1 & _ & ->).
  apply rankedEntries_In in H2 as (k2 & r2 & u2 & p2 & Hk2 & _ & ->).
  cbn in *.
  destruct (Nat.lt_trichotomy k1 k2) as [Hk|[Hk|Hk]]; [lia| |].
  - subst k2. rewrite Hk1 in Hk2. injection Hk2 as <- <-. lia.
  - pose proof (StronglySorted_nth_error _ _ Hs _ _ _ _ Hk2 Hk1 Hk) as Hd.
    unfold descByScore, joinedScore in Hd. simpl in Hd. lia.
Qed.


Lemma rank_bounds l1 l2 j :
  StronglySorted descByScore (l1 ++ j :: l2) ->
  (countAbove (joinedScore j) (l1 ++ j :: l2) <= length l1
   /\ length l1 < countAtLeast (joinedScore j) (l1 ++ j :: l2))%nat.
Proof.
  intros Hs. apply StronglySorted_around in Hs as [H1 H2].
  unfold countAbove, countAtLeast, descByScore in *.
  rewrite !filter_app, !length_app. simpl.
  rewrite Z.ltb_irrefl, Z.leb_refl. simpl. split.
  - rewrite (filter_none (fun x => joinedScore j <? joinedScore x) l2).
    + pose proof (filter_length_le
                    (fun x => joinedScore j <? joinedScore x) l1).
      simpl. lia.
    + intros x Hx. rewrite Forall_forall in H2. apply Z.ltb_ge.
      apply H2. exact Hx.
  - rewrite (filter_all (fun x => joinedScore j <=? joinedScore x) l1).
    + lia.
    + eapply Forall_impl; [|exact H1]. intros x Hx. apply Z.leb_le.
      exact Hx.
Qed.

(** C4 (as the code has it). The rebuild completes and ranks by overall
    score descending, and by nothing else: the rank of a row is greater
    than the number of selected rows that score strictly more, and at most
    the number of selected rows that score at least as much. Rows of
    different scores are therefore ranked by score, a row whose score no
    other selected row shares has rank 1 + (number of rows scoring more),
    and among rows of equal score the ranks follow the order in which the
    store's [ORDER BY] returns them: the query names no second sort
    key. *)
Theorem updateLeaderboard_rank_bounds (clock : nat -> Timestamp) (db : Db) :
  exists db',
    updateLeaderboard orderBy clock db = Resolved tt db'
    /\ forall e,
         In e (leaderboard db') ->
         Z.of_nat (countAbove (LeaderboardEntry.overallScore e)
                              (eligibleRows db))
         < LeaderboardEntry.rank e
         <= Z.of_nat (countAtLeast (LeaderboardEntry.overallScore e)
                                   (eligibleRows db)).
Proof.
  destruct (updateLeaderboard_resolves clock db)
    as (db' & Hres & _ & _ & _ & Hl).
  exists db'. split; [exact Hres|]. intros e He. rewrite Hl in He.
  apply rankedEntries_In in He as (k & r & u & p & Hk & _ & ->). cbn.
  apply nth_error_split in Hk as (l1 & l2 & Hsplit & Hlen).
  pose proof (orderBy_sorted orderBy_ok (eligibleRows db)) as Hs.
  fold (sorted db) in Hs. rewrite Hsplit in Hs.
  pose proof (rank_bounds _ _ _ Hs) as Hb.
  unfold Joined in *. rewrite <- Hsplit in Hb.
  unfold countAbove, countAtLeast in *.
  rewrite !(filter_length_perm _ _ _
              (orderBy_perm orderBy_ok (eligibleRows db))).
  unfold sortedRows in Hb.
  change (joinedScore (r, u)) with (ReputationScore.overallScore r) in Hb.
  lia.
Qed.

(** C8. The rebuild completes, and every row of the leaderboard it leaves
    is assembled from one selected pair (reputation record, owning
    identity) and the position [k] of that pair in the sorted selection:
    the identity's pseudonymous id and chain, the record's level and
    overall score, the rank [k + 1]; beside these five values the row
    holds only what the store generates for it (its own serial id and the
    two timestamps). No wallet address, identity id, public key or any
    other column of [users] or [reputation_scores] goes into it. *)
Theorem updateLeaderboard_rows_anonymous (clock : nat -> Timestamp)
    (db : Db) :
  exists db',
    updateLeaderboard orderBy clock db = Resolved tt db'
    /\ forall e,
         In e (leaderboard db') ->
         exists k r u p,
           nth_error (orderBy (eligibleRows db)) k = Some (r, u)
           /\ In r (reputationScores db)
           /\ In u (users db)
           /\ ReputationScore.userId r = User.id u
           /\ User.pseudonymousId u = Some p
           /\ e = LeaderboardEntry.mk
                    (leaderboard_id_seq db + Z.of_nat k)
                    p
                    (ReputationScore.reputationLevel r)
                    (ReputationScore.overallScore r)
                    (User.chain u)
                    (Z.of_nat k + 1)
                    (clock k) (clock k).
Proof.
  destruct (updateLeaderboard_resolves clock db)
    as (db' & Hres & _ & _ & _ & Hl).
  exists db'. split; [exact Hres|]. intros e He. rewrite Hl in He.
  apply rankedEntries_In in He as (k & r & u & p & Hk & Hp & ->).
  exists k, r, u, p. split; [exact Hk|].
  assert (Hin : In (r, u) (eligibleRows db)).
  { eapply Permutation_in;
      [symmetry; apply (orderBy_perm orderBy_ok)|].
    eapply nth_error_In. exact Hk. }
  apply eligibleRows_In in Hin as (Hr & Hu & Hid & _).
  repeat split; trivial.
Qed.

(** C2 (as the code has it). The replacement is statement by statement,
    not all-or-nothing. With N the number of rows of the new snapshot,
    [updateLeaderboard] passes through N + 1 committed states after the
    old snapshot: the state after the delete, in which the table is empty,
    and the state after each insert; the table in the [k]-th of them holds
    exactly the first [k] rows of the new snapshot, and the last of them is
    the state the rebuild ends in. A concurrent reader therefore sees the
    old snapshot, an empty table, a proper prefix of the new snapshot or
    the whole of it, but never old and new rows together; the other tables
    are the same in all of these states. *)
Theorem updateLeaderboard_observable_states (clock : nat -> Timestamp)
    (db : Db) :
  exists db',
    updateLeaderboard orderBy clock db = Resolved tt db'
    /\ length (updateLeaderboardStates orderBy clock db)
       = S (length (leaderboard db'))
    /\ nth_error (updateLeaderboardStates orderBy clock db)
                 (length (leaderboard db'))
       = Some db'
    /\ forall k s,
         nth_error (updateLeaderboardStates orderBy clock db) k = Some s ->
         leaderboard s = firstn k (leaderboard db')
         /\ users s = users db
         /\ reputationScores s = reputationScores db
         /\ zkProofs s = zkProofs db.
Proof.
  destruct (updateLeaderboard_resolves clock db)
    as (db' & Hres & _ & _ & _ & Hl).
  exists db'. split; [exact Hres|].
  pose proof (sorted_named db) as Hn.
  assert (Hlen : length (leaderboard db') = length (sorted db))
    by (rewrite Hl; apply rankedEntries_length; exact Hn).
  unfold updateLeaderboardStates, selectScores.
  change (sorted (deleteLeaderboard db)) with (sorted db).
  split; [|split].
  - simpl. rewrite insertRankedStates_length by exact Hn. congruence.
  - rewrite Hlen, insertRankedStates_last by exact Hn.
    unfold updateLeaderboard, selectScores in Hres.
    change (sorted (deleteLeaderboard db)) with (sorted db) in Hres.
    rewrite insertRanked_resolves in Hres by exact Hn.
    injection Hres as <-. reflexivity.
  - intros [|k] s; simpl.
    + intros [= <-]. repeat split; reflexivity.
    + intros Hk. apply insertRankedStates_nth in Hk; [|exact Hn].
      destruct Hk as (Hu & Hr & Hz & Hs). rewrite Hs, Hl.
      repeat split; trivial.
Qed.

(** C1 (as the code has it). The rebuild completes and leaves exactly one
    row per selected pair, that is per reputation record whose owning
    identity has a pseudonymous id; the ranks in table order are
    1, 2, ..., N for N the number of these pairs (1-based, contiguous, no
    rank shared); and a row with a greater overall score has a smaller
    rank. In a store where every identity owns at most one reputation
    record this is exactly one row per eligible identity, with N the
    number of eligible identities. *)
Theorem updateLeaderboard_ranks (clock : nat -> Timestamp) (db : Db) :
  exists db',
    updateLeaderboard orderBy clock db = Resolved tt db'
    /\ Permutation (map scoreRowOf (leaderboard db'))
                   (map selectScoreRow (eligibleRows db))
    /\ map LeaderboardEntry.rank (leaderboard db')
       = ranksUpTo (length (eligibleRows db))
    /\ (forall e1 e2,
          In e1 (leaderboard db') -> In e2 (leaderboard db') ->
          LeaderboardEntry.overallScore e2 < LeaderboardEntry.overallScore e1 ->
          LeaderboardEntry.rank e1 < LeaderboardEntry.rank e2)
    /\ (usersPk db -> pseudonymsUnique db -> oneRecordPerIdentity db ->
        length (leaderboard db') = length (eligibleIdentities db)
        /\ NoDup (map User.pseudonymousId (eligibleIdentities db))
        /\ Permutation
             (map (fun e => Some (LeaderboardEntry.pseudonymousId e))
                  (leaderboard db'))
             (map User.pseudonymousId (eligibleIdentities db))).
Proof.
  destruct (updateLeaderboard_resolves clock db)
    as (db' & Hres & _ & _ & _ & Hl).
  pose proof (sorted_named db) as Hn.
  pose proof (orderBy_perm orderBy_ok (eligibleRows db)) as Hperm.
  fold (sorted db) in Hperm.
  assert (Hrows : map scoreRowOf (leaderboard db')
                  = map selectScoreRow (sorted db))
    by (rewrite Hl; apply rankedEntries_scoreRows; exact Hn).
  exists db'. split; [exact Hres|]. split; [|split; [|split]].
  - rewrite Hrows. apply Permutation_map. symmetry. exact Hperm.
  - rewrite Hl, rankedEntries_ranks by exact Hn. unfold ranksUpTo.
    rewrite (Permutation_length Hperm). reflexivity.
  - intros e1 e2 H1 H2. rewrite Hl in H1, H2.
    apply (leaderboard_monotone clock (leaderboard_id_seq db) (sorted db));
      trivial.
    apply (orderBy_sorted orderBy_ok).
  - intros Hpk Hpu Hone.
    assert (Hids : Permutation
                     (map (fun e => Some (LeaderboardEntry.pseudonymousId e))
                          (leaderboard db'))
                     (map User.pseudonymousId (eligibleIdentities db))).
    { change (fun e => Some (LeaderboardEntry.pseudonymousId e))
        with (fun e => ScoreRow.pseudonymousId (scoreRowOf e)).
      rewrite <- (map_map scoreRowOf ScoreRow.pseudonymousId), Hrows.
      rewrite map_map.
      change (fun x => ScoreRow.pseudonymousId (selectScoreRow x))
        with (fun x : Joined => User.pseudonymousId (snd x)).
      rewrite <- (@map_map Joined _ _ snd User.pseudonymousId).
      apply Permutation_map. rewrite <- Hperm.
      apply eligibleRows_identities; assumption. }
    split; [|split; [apply eligibleIdentities_pseudonyms; exact Hpu|
                     exact Hids]].
    apply Permutation_length in Hids. rewrite !length_map in Hids.
    exact Hids.
Qed.

End Rebuild.

(** ** The scenarios, rebuilt *)

Lemma usersPk_tied : usersPk Scenario.tied.
Proof. distinct_keys. Qed.

Lemma pseudonymsUnique_tied : pseudonymsUnique Scenario.tied.
Proof. distinct_keys. Qed.

Lemma oneRecordPerIdentity_tied : oneRecordPerIdentity Scenario.tied.
Proof. apply oneRecordPerIdentity_of_NoDup. distinct_keys. Qed.

Lemma updateLeaderboard_ranks_witness :
  exists db',
    updateLeaderboard scanOrderBy Scenario.clock Scenario.tied
    = Resolved tt db'
    /\ map LeaderboardEntry.rank (leaderboard db') = [1; 2; 3]
    /\ length (leaderboard db') = length (eligibleIdentities Scenario.tied).
Proof.
  destruct (updateLeaderboard_ranks scanOrderBy scanOrderBy_ok
              Scenario.clock Scenario.tied)
    as (db' & Hres & _ & Hranks & _ & Hids).
  exists db'. split; [exact Hres|]. split; [exact Hranks|].
  apply Hids.
  - exact usersPk_tied.
  - exact pseudonymsUnique_tied.
  - exact oneRecordPerIdentity_tied.
Defined.

(** C1 as stated fails where an identity owns two reputation records, which
    the store accepts: A is the only eligible identity of the scenario, and
    the rebuilt leaderboard holds two rows for A, with ranks 1 and 2. *)
Lemma updateLeaderboard_two_rows_for_one_identity :
  OrderByDesc scanOrderBy
  /\ usersPk Scenario.scoredTwice
  /\ pseudonymsUnique Scenario.scoredTwice
  /\ map User.pseudonymousId (eligibleIdentities Scenario.scoredTwice)
     = [Some "anon_A"]
  /\ exists db',
       updateLeaderboard scanOrderBy Scenario.clock Scenario.scoredTwice
       = Resolved tt db'
       /\ map LeaderboardEntry.pseudonymousId (leaderboard db')
          = ["anon_A"; "anon_A"]
       /\ map LeaderboardEntry.rank (leaderboard db') = [1; 2]
       /\ length (leaderboard db')
          <> length (eligibleIdentities Scenario.scoredTwice).
Proof.
  split; [exact scanOrderBy_ok|].
  split; [distinct_keys|]. split; [distinct_keys|].
  split; [reflexivity|].
  eexists. split; [reflexivity|].
  split; [reflexivity|]. split; [reflexivity|]. vm_compute. discriminate.
Qed.

Lemma updateLeaderboard_rank_bounds_witness :
  exists db',
    updateLeaderboard scanOrderBy Scenario.clock Scenario.tied
    = Resolved tt db'
    /\ forall e,
         In e (leaderboard db') ->
         Z.of_nat (countAbove (LeaderboardEntry.overallScore e)
                              (eligibleRows Scenario.tied))
         < LeaderboardEntry.rank e
         <= Z.of_nat (countAtLeast (LeaderboardEntry.overallScore e)
                                   (eligibleRows Scenario.tied)).
Proof.
  exact (updateLeaderboard_rank_bounds scanOrderBy scanOrderBy_ok
           Scenario.clock Scenario.tied).
Defined.

(** C4 as stated fails on ties. A registered before B and both score 900.00;
    B's reputation record precedes A's in [reputation_scores]. With an
    executor that meets the contract of [ORDER BY overall_score DESC] and
    returns equal scores in scan order, the rebuild ranks B first and A
    second. *)
Lemma updateLeaderboard_tie_against_registration_order :
  OrderByDesc scanOrderBy
  /\ (exists a b,
        getUserByPseudonymousId "anon_A" Scenario.tied = Some a
        /\ getUserByPseudonymousId "anon_B" Scenario.tied = Some b
        /\ User.id a < User.id b
        /\ User.createdAt a < User.createdAt b
        /\ option_map ReputationScore.overallScore
             (getReputationScore (User.id a) Scenario.tied) = Some 90000
        /\ option_map ReputationScore.overallScore
             (getReputationScore (User.id b) Scenario.tied) = Some 90000)
  /\ exists db',
       updateLeaderboard scanOrderBy Scenario.clock Scenario.tied
       = Resolved tt db'
       /\ getLeaderboardPosition "anon_A" db' = Some 2
       /\ getLeaderboardPosition "anon_B" db' = Some 1
       /\ getLeaderboardPosition "anon_C" db' = Some 3.
Proof.
  split; [exact scanOrderBy_ok|]. split.
  - do 2 eexists. split; [reflexivity|]. split; [reflexivity|].
    repeat split; reflexivity.
  - eexists. split; [reflexivity|]. repeat split; reflexivity.
Qed.

Lemma updateLeaderboard_rows_anonymous_witness :
  exists db',
    updateLeaderboard scanOrderBy Scenario.clock Scenario.tied
    = Resolved tt db'
    /\ forall e,
         In e (leaderboard db') ->
         exists k r u p,
           nth_error (sortedRows scanOrderBy Scenario.tied) k = Some (r, u)
           /\ In r (reputationScores Scenario.tied)
           /\ In u (users Scenario.tied)
           /\ ReputationScore.userId r = User.id u
           /\ User.pseudonymousId u = Some p
           /\ e = LeaderboardEntry.mk
                    (leaderboard_id_seq Scenario.tied + Z.of_nat k)
                    p
                    (ReputationScore.reputationLevel r)
                    (ReputationScore.overallScore r)
                    (User.chain u)
                    (Z.of_nat k + 1)
                    (Scenario.clock k) (Scenario.clock k).
Proof.
  exact (updateLeaderboard_rows_anonymous scanOrderBy scanOrderBy_ok
           Scenario.clock Scenario.tied).
Defined.

Lemma updateLeaderboard_observable_states_witness :
  exists db',
    updateLeaderboard scanOrderBy Scenario.clock Scenario.published
    = Resolved tt db'
    /\ forall k s,
         nth_error
           (updateLeaderboardStates scanOrderBy Scenario.clock
                                    Scenario.published) k
         = Some s ->
         leaderboard s = firstn k (leaderboard db').
Proof.
  destruct (updateLeaderboard_observable_states scanOrderBy scanOrderBy_ok
              Scenario.clock Scenario.published)
    as (db' & Hres & _ & _ & Hstates).
  exists db'. split; [exact Hres|].
  intros k s Hk. apply (Hstates k s Hk).
Defined.

(** C2 as stated fails: the leaderboard of the scenario is published with
    three rows and is rebuilt with nothing else changed. The first state the
    rebuild commits has an empty table, in which a reader finds no position
    for A although A is ranked both before and after the rebuild; the next
    state holds one of the three rows. *)
Lemma updateLeaderboard_reader_sees_gap :
  exists afterDelete afterFirstInsert afterSecondInsert db',
    updateLeaderboardStates scanOrderBy Scenario.clock Scenario.published
    = [afterDelete; afterFirstInsert; afterSecondInsert; db']
    /\ updateLeaderboard scanOrderBy Scenario.clock Scenario.published
       = Resolved tt db'
    /\ length (leaderboard Scenario.published) = 3%nat
    /\ length (leaderboard db') = 3%nat
    /\ leaderboard afterDelete = []
    /\ length (leaderboard afterFirstInsert) = 1%nat
    /\ getLeaderboardPosition "anon_A" Scenario.published = Some 2
    /\ getLeaderboardPosition "anon_A" afterDelete = None
    /\ getLeaderboardPosition "anon_A" afterFirstInsert = None
    /\ getLeaderboardPosition "anon_A" db' = Some 2.
Proof.
  do 4 eexists. split; [reflexivity|]. repeat split; reflexivity.
Qed.

(** With the records written in registration order the same executor
    returns A before B: the ranks of tied identities follow the scan, not a
    rule of the rebuild. *)
Lemma updateLeaderboard_tie_in_scan_order :
  exists db',
    updateLeaderboard scanOrderBy Scenario.clock Scenario.tiedInOrder
    = Resolved tt db'
    /\ getLeaderboardPosition "anon_A" db' = Some 1
    /\ getLeaderboardPosition "anon_B" db' = Some 2
    /\ getLeaderboardPosition "anon_C" db' = Some 3.
Proof.
  eexists. split; [reflexivity|]. repeat split; reflexivity.
Qed.

(** ** Two rebuilds in a row *)

Lemma scanOrderByBackward_ok : OrderByDesc scanOrderByBackward.
Proof.
  split; intros l; unfold scanOrderByBackward.
  - rewrite <- (orderBy_perm scanOrderBy_ok (rev l)). apply Permutation_rev.
  - apply (orderBy_sorted scanOrderBy_ok).
Qed.

Lemma scores_sorted (l : list Joined) :
  StronglySorted descByScore l ->
  StronglySorted (fun a b : Z => b <= a) (map joinedScore l).
Proof.
  induction 1 as [|j l _ IH Hj]; simpl; constructor; [exact IH|].
  apply Forall_forall. intros s Hs.
  apply in_map_iff in Hs as (x & <- & Hx).
  rewrite Forall_forall in Hj. apply (Hj x Hx).
Qed.

Lemma desc_keys_unique (k1 k2 : list Z) :
  StronglySorted (fun a b : Z => b <= a) k1 ->
  StronglySorted (fun a b : Z => b <= a) k2 ->
  Permutation k1 k2 -> k1 = k2.
Proof.
  intros H1. revert k2.
  induction H1 as [|x k1 _ IH Hx]; intros k2 H2 Hperm.
  - apply Permutation_nil in Hperm. symmetry. exact Hperm.
  - destruct H2 as [|y k2 H2 Hy].
    + symmetry in Hperm. apply Permutation_nil in Hperm. discriminate.
    + assert (Hxy : x = y).
      { rewrite Forall_forall in Hx, Hy.
        assert (Hyin : In y (x :: k1))
          by (eapply Permutation_in;
              [symmetry; exact Hperm|left; reflexivity]).
        assert (Hxin : In x (y :: k2))
          by (eapply Permutation_in; [exact Hperm|left; reflexivity]).
        destruct Hyin as [E|Hyin]; [exact E|].
        destruct Hxin as [E|Hxin]; [symmetry; exact E|].
        pose proof (Hx y Hyin). pose proof (Hy x Hxin). lia. }
      subst y. f_equal. apply IH; [exact H2|].
      apply Permutation_cons_inv in Hperm. exact Hperm.
Qed.

(** Two results of [ORDER BY overall_score DESC] on the same rows carry
    the same score at every position. *)
Lemma sorted_scores_agree (l1 l2 : list Joined) :
  StronglySorted descByScore l1 -> StronglySorted descByScore l2 ->
  Permutation l1 l2 ->
  map joinedScore l1 = map joinedScore l2.
Proof.
  intros H1 H2 Hperm. apply desc_keys_unique.
  - apply scores_sorted. exact H1.
  - apply scores_sorted. exact H2.
  - apply Permutation_map. exact Hperm.
Qed.

(** They are the same list when no two rows share a score. *)
Lemma sorted_rows_agree (l1 l2 : list Joined) :
  NoDup (map joinedScore l1) ->
  StronglySorted descByScore l1 -> StronglySorted descByScore l2 ->
  Permutation l1 l2 ->
  l1 = l2.
Proof.
  intros Hnd H1 H2 Hperm.
  pose proof (sorted_scores_agree l1 l2 H1 H2 Hperm) as Hkeys.
  clear H1 H2. revert l2 Hperm Hkeys.
  induction l1 as [|x l1 IH]; intros l2 Hperm Hkeys.
  - apply Permutation_nil in Hperm. symmetry. exact Hperm.
  - destruct l2 as [|y l2]; [discriminate|].
    simpl in Hkeys. injection Hkeys as Hxy Hrest.
    assert (Hy : In y (x :: l1))
      by (eapply Permutation_in; [symmetry; exact Hperm|left; reflexivity]).
    assert (E : x = y).
    { destruct Hy as [Hy|Hy]; [exact Hy|]. exfalso.
      simpl in Hnd. inversion Hnd as [|? ? Hx _]. apply Hx.
      rewrite Hxy. apply in_map. exact Hy. }
    subst y. f_equal. apply IH.
    + simpl in Hnd. inversion Hnd; assumption.
    + apply Permutation_cons_inv in Hperm. exact Hperm.
    + exact Hrest.
Qed.

(** The row the loop writes at position [k]. *)
Lemma rankedEntries_nth clock l :
  named l ->
  forall k r u i nextId,
    nth_error l k = Some (r, u) ->
    exists p,
      User.pseudonymousId u = Some p
      /\ nth_error (rankedEntries clock i nextId (map selectScoreRow l)) k
         = Some (LeaderboardEntry.mk
                   (nextId + Z.of_nat k) p
                   (ReputationScore.reputationLevel r)
                   (ReputationScore.overallScore r)
                   (User.chain u)
                   (Z.of_nat (i + k) + 1)
                   (clock (i + k)%nat) (clock (i + k)%nat)).
Proof.
  induction 1 as [|j l Hj _ IH]; intros k r u i nextId Hk.
  - destruct k; discriminate.
  - simpl. destruct (leaderboardValues_named i j Hj) as (p & Hp & ->).
    destruct k as [|k]; simpl in Hk |- *.
    + injection Hk as ->. exists p. split; [exact Hp|].
      rewrite Nat.add_0_r, Z.add_0_r. reflexivity.
    + destruct (IH k r u (S i) (nextId + 1) Hk) as (q & Hq & ->).
      exists q. split; [exact Hq|]. rewrite Nat.add_succ_r.
      do 2 f_equal. lia.
Qed.

Lemma rankedEntries_overallScores clock l :
  named l ->
  forall i nextId,
    map LeaderboardEntry.overallScore
        (rankedEntries clock i nextId (map selectScoreRow l))
    = map joinedScore l.
Proof.
  intros Hn i nextId.
  change LeaderboardEntry.overallScore
    with (fun e => ScoreRow.overallScore (scoreRowOf e)).
  rewrite <- (map_map scoreRowOf ScoreRow.overallScore).
  rewrite (rankedEntries_scoreRows clock l Hn i nextId).
  rewrite map_map. reflexivity.
Qed.

(** Two rebuilds of the same rows, each by an executor of its own. *)
Lemma rebuilds_agree orderBy1 orderBy2 clock1 clock2 nextId1 nextId2
    (rows : list Joined) :
  OrderByDesc orderBy1 -> OrderByDesc orderBy2 ->
  named rows ->
  let first :=
    rankedEntries clock1 0 nextId1 (map selectScoreRow (orderBy1 rows)) in
  let second :=
    rankedEntries clock2 0 nextId2 (map selectScoreRow (orderBy2 rows)) in
  Permutation (map scoreRowOf second) (map scoreRowOf first)
  /\ map LeaderboardEntry.rank second = map LeaderboardEntry.rank first
  /\ map LeaderboardEntry.overallScore second
     = map LeaderboardEntry.overallScore first
  /\ (forall e1,
        In e1 first ->
        (forall e, In e first ->
                   LeaderboardEntry.overallScore e
                   = LeaderboardEntry.overallScore e1 ->
                   e = e1) ->
        In (snapshotOf e1) (map snapshotOf second))
  /\ (orderBy2 rows = orderBy1 rows \/ NoDup (map joinedScore rows) ->
      map snapshotOf second = map snapshotOf first).
Proof.
  intros H1 H2 Hrows first second.
  pose proof (orderBy_perm H1 rows) as Hp1.
  pose proof (orderBy_perm H2 rows) as Hp2.
  pose proof (orderBy_sorted H1 rows) as Hs1.
  pose proof (orderBy_sorted H2 rows) as Hs2.
  assert (Hn1 : named (orderBy1 rows))
    by (unfold named; eapply Permutation_Forall; [exact Hp1|exact Hrows]).
  assert (Hn2 : named (orderBy2 rows))
    by (unfold named; eapply Permutation_Forall; [exact Hp2|exact Hrows]).
  assert (Hperm : Permutation (orderBy1 rows) (orderBy2 rows))
    by (rewrite <- Hp1; exact Hp2).
  assert (Hkeys : map joinedScore (orderBy2 rows)
                  = map joinedScore (orderBy1 rows))
    by (symmetry; apply sorted_scores_agree; assumption).
  subst first second.
  split.
  { rewrite !rankedEntries_scoreRows by assumption.
    apply Permutation_map. symmetry. exact Hperm. }
  split.
  { rewrite !rankedEntries_ranks by assumption.
    rewrite (Permutation_length Hperm). reflexivity. }
  split.
  { rewrite !rankedEntries_overallScores by assumption. exact Hkeys. }
  split.
  - intros e1 He1 Huntied.
    pose proof He1 as Hin1.
    apply rankedEntries_In in Hin1 as (k & r & u & p & Hk & Hp & He).
    assert (Hlt : (k < length (orderBy2 rows))%nat).
    { rewrite <- (Permutation_length Hperm).
      apply nth_error_Some. rewrite Hk. discriminate. }
    destruct (nth_error (orderBy2 rows) k) as [[r2 u2]|] eqn:Hk2;
      [|apply nth_error_None in Hk2; lia].
    assert (Hscore : joinedScore (r2, u2) = joinedScore (r, u)).
    { pose proof (f_equal (fun l => nth_error l k) Hkeys) as Hnth.
      cbn beta in Hnth. rewrite !nth_error_map, Hk, Hk2 in Hnth.
      injection Hnth as Hnth. exact Hnth. }
    assert (Hin2 : In (r2, u2) (orderBy1 rows)).
    { eapply Permutation_in; [symmetry; exact Hperm|].
      eapply nth_error_In. exact Hk2. }
    apply In_nth_error in Hin2 as (k' & Hk').
    destruct (rankedEntries_nth clock1 (orderBy1 rows) Hn1 k' r2 u2 0%nat
                nextId1 Hk') as (p' & Hp' & He').
    apply nth_error_In in He'.
    apply Huntied in He'; [|rewrite He; exact Hscore].
    rewrite He in He'. injection He' as _ _ _ _ _ Hrank.
    assert (k' = k) by lia. subst k'.
    pose proof (eq_trans (eq_sym Hk') Hk) as Hsame.
    injection Hsame as -> ->.
    destruct (rankedEntries_nth clock2 (orderBy2 rows) Hn2 k r u 0%nat
                nextId2 Hk2) as (q & Hq & He2).
    apply nth_error_In in He2.
    apply (in_map snapshotOf) in He2.
    rewrite Hp in Hq. injection Hq as <-.
    rewrite He. exact He2.
  - intros Hsame.
    assert (Heq : orderBy2 rows = orderBy1 rows).
    { destruct Hsame as [Heq|Hnd]; [exact Heq|].
      symmetry. apply sorted_rows_agree; trivial.
      eapply Permutation_NoDup; [|exact Hnd].
      apply Permutation_map. exact Hp1. }
    rewrite Heq. apply rankedEntries_snapshot.
Qed.

(** C9 (as the code has it). Two rebuilds in a row with nothing else
    written in between both complete, whatever order the store returns
    equal scores in each time, and the second leaves the same rows
    (pseudonymous id, level, overall score, chain), the same ranks 1..N and
    the same overall score at every rank as the first; a row whose overall
    score no other row shares is there with the same rank. The two
    snapshots are identical, and every pseudonymous id has the same
    position, when the store returns the selected rows in the same order
    both times or no two selected rows have equal overall scores. Rows of
    equal overall score may exchange ranks between the two runs: the query
    names no second sort key. *)
Theorem updateLeaderboard_repeated (orderBy1 orderBy2 : OrderBy)
    (clock1 clock2 : nat -> Timestamp) (db : Db) :
  OrderByDesc orderBy1 -> OrderByDesc orderBy2 ->
  exists db1 db2,
    updateLeaderboard orderBy1 clock1 db = Resolved tt db1
    /\ updateLeaderboard orderBy2 clock2 db1 = Resolved tt db2
    /\ Permutation (map scoreRowOf (leaderboard db2))
                   (map scoreRowOf (leaderboard db1))
    /\ map LeaderboardEntry.rank (leaderboard db2)
       = map LeaderboardEntry.rank (leaderboard db1)
    /\ map LeaderboardEntry.overallScore (leaderboard db2)
       = map LeaderboardEntry.overallScore (leaderboard db1)
    /\ (forall e1,
          In e1 (leaderboard db1) ->
          (forall e, In e (leaderboard db1) ->
                     LeaderboardEntry.overallScore e
                     = LeaderboardEntry.overallScore e1 ->
                     e = e1) ->
          In (snapshotOf e1) (snapshot db2))
    /\ (orderBy2 (eligibleRows db) = orderBy1 (eligibleRows db)
        \/ NoDup (map joinedScore (eligibleRows db)) ->
        snapshot db2 = snapshot db1
        /\ forall pseudonymousId,
             getLeaderboardPosition pseudonymousId db2
             = getLeaderboardPosition pseudonymousId db1).
Proof.
  intros H1 H2.
  destruct (updateLeaderboard_resolves orderBy1 H1 clock1 db)
    as (db1 & Hres1 & Hu1 & Hr1 & _ & Hl1).
  destruct (updateLeaderboard_resolves orderBy2 H2 clock2 db1)
    as (db2 & Hres2 & _ & _ & _ & Hl2).
  exists db1, db2. split; [exact Hres1|]. split; [exact Hres2|].
  unfold sortedRows in Hl1, Hl2.
  rewrite (eligibleRows_ext db1 db Hu1 Hr1) in Hl2.
  destruct (rebuilds_agree orderBy1 orderBy2 clock1 clock2
              (leaderboard_id_seq db) (leaderboard_id_seq db1)
              (eligibleRows db) H1 H2 (eligibleRows_named db))
    as (Hrows & Hranks & Hscores & Huntied & Hsame).
  unfold snapshot. rewrite Hl1, Hl2.
  repeat (split; [assumption|]).
  intros Hcase. pose proof (Hsame Hcase) as Hsnap.
  split; [exact Hsnap|]. intros p.
  rewrite !getLeaderboardPosition_snapshot. unfold snapshot.
  rewrite Hl1, Hl2, Hsnap. reflexivity.
Qed.

Lemma updateLeaderboard_repeated_witness :
  exists db1 db2,
    updateLeaderboard scanOrderBy Scenario.clock Scenario.tied
    = Resolved tt db1
    /\ updateLeaderboard scanOrderByBackward (fun k => 200 + Z.of_nat k) db1
       = Resolved tt db2
    /\ map LeaderboardEntry.rank (leaderboard db2)
       = map LeaderboardEntry.rank (leaderboard db1)
    /\ map LeaderboardEntry.overallScore (leaderboard db2)
       = map LeaderboardEntry.overallScore (leaderboard db1).
Proof.
  destruct (updateLeaderboard_repeated scanOrderBy scanOrderByBackward
              Scenario.clock (fun k => 200 + Z.of_nat k) Scenario.tied
              scanOrderBy_ok scanOrderByBackward_ok)
    as (db1 & db2 & Hres1 & Hres2 & _ & Hranks & Hscores & _).
  exists db1, db2. repeat (split; [assumption|]). exact Hscores.
Defined.

(** C9 as stated fails: A and B both score 900.00. The leaderboard is
    rebuilt twice with nothing written in between; the store returns the
    two tied rows in one order the first time and in the other order the
    second time, as [ORDER BY overall_score DESC] allows. A is second after
    the first rebuild and first after the second. *)
Lemma updateLeaderboard_repeated_swaps_tie :
  exists db1 db2,
    updateLeaderboard scanOrderBy Scenario.clock Scenario.tied
    = Resolved tt db1
    /\ updateLeaderboard scanOrderByBackward Scenario.clock db1
       = Resolved tt db2
    /\ users db2 = users db1
    /\ reputationScores db2 = reputationScores db1
    /\ getLeaderboardPosition "anon_A" db1 = Some 2
    /\ getLeaderboardPosition "anon_B" db1 = Some 1
    /\ getLeaderboardPosition "anon_A" db2 = Some 1
    /\ getLeaderboardPosition "anon_B" db2 = Some 2
    /\ snapshot db2 <> snapshot db1.
Proof.
  exists (stateOf (updateLeaderboard scanOrderBy Scenario.clock
                                    Scenario.tied)),
         (stateOf (updateLeaderboard scanOrderByBackward Scenario.clock
                     (stateOf (updateLeaderboard scanOrderBy Scenario.clock
                                                 Scenario.tied)))).
  repeat (split; [vm_compute; reflexivity|]).
  vm_compute. discriminate.
Qed.

(** ** The constraints on [users] in reachable states *)

Lemma uniqueOn_tail {A K} (key : A -> option K) (x : A) (l : list A) :
  uniqueOn key (x :: l) -> uniqueOn key l.
Proof.
  unfold uniqueOn. simpl. destruct (isSome (key x)); [|trivial].
  intros H. inversion H; assumption.
Qed.

Lemma uniqueOn_head {A K} (key : A -> option K) (x y : A) (l : list A) :
  uniqueOn key (x :: l) -> In y l -> key y = key x -> key x = None.
Proof.
  unfold uniqueOn. simpl. intros Hu Hy Hk.
  destruct (key x) as [v|] eqn:Ex; [|reflexivity]. simpl in Hu.
  inversion Hu as [|? ? Hx _]; subst. exfalso. apply Hx.
  apply filter_In. split; [|reflexivity].
  rewrite <- Hk. apply in_map. exact Hy.
Qed.

Lemma uniqueOn_cons {A K} (key : A -> option K) (x : A) (l : list A) :
  uniqueOn key l ->
  (forall y, In y l -> key y = key x -> key x = None) ->
  uniqueOn key (x :: l).
Proof.
  unfold uniqueOn. simpl. intros Hl Hx.
  destruct (key x) as [v|] eqn:Ex; simpl; [|exact Hl].
  constructor; [|exact Hl]. intros Hin.
  apply filter_In in Hin as [Hin _].
  apply in_map_iff in Hin as (y & Hy & Hin).
  specialize (Hx y Hin Hy). discriminate.
Qed.

(** Two rows that agree on a unique column, on a value that is not null,
    are one row. *)
Lemma uniqueOn_inj {A K} (key : A -> option K) (l : list A) (x y : A) :
  uniqueOn key l -> In x l -> In y l ->
  key x = key y -> key x <> None -> x = y.
Proof.
  induction l as [|z l IH]; simpl; intros Hu Hx Hy Hk Hsome; [contradiction|].
  destruct Hx as [->|Hx], Hy as [->|Hy]; trivial.
  - exfalso. apply Hsome. apply (uniqueOn_head key x y l Hu Hy).
    symmetry. exact Hk.
  - exfalso. apply Hsome. rewrite Hk.
    apply (uniqueOn_head key y x l Hu Hx Hk).
  - apply IH; trivial. apply (uniqueOn_tail key z l Hu).
Qed.

Lemma uniqueOn_snoc {A K} (key : A -> option K) (x : A) (l : list A) :
  uniqueOn key l ->
  (forall y, In y l -> key y = key x -> key x = None) ->
  uniqueOn key (l ++ [x]).
Proof.
  induction l as [|z l IH]; simpl; intros Hl Hx.
  - apply uniqueOn_cons; [exact Hl|]. intros y [].
  - apply uniqueOn_cons.
    + apply IH; [apply (uniqueOn_tail key z l Hl)|]. intros y Hy. apply Hx.
      right. exact Hy.
    + intros y Hy Hk. apply in_app_or in Hy as [Hy|[->|[]]].
      * apply (uniqueOn_head key z y l Hl Hy Hk).
      * destruct (key z) eqn:Ez; [|reflexivity].
        assert (Hnone : key y = None)
          by (apply (Hx z); [left; reflexivity|congruence]).
        congruence.
Qed.

(** A unique column stays unique when the one row an update matches gets a
    value no other row holds. *)
Lemma uniqueOn_patch {A K} (key : A -> option K) (hit : A -> bool)
    (patch : A -> A) (l : list A) :
  NoDup l ->
  (forall x y, In x l -> In y l -> hit x = true -> hit y = true -> x = y) ->
  (forall x y, In x l -> In y l -> hit x = true -> hit y = false ->
               key (patch x) = key y -> key y = None) ->
  uniqueOn key l ->
  uniqueOn key (map (fun x => if hit x then patch x else x) l).
Proof.
  induction l as [|z l IH]; simpl; intros Hnd Hone Hfree Hu; [exact Hu|].
  inversion Hnd as [|? ? Hz Hl]; subst.
  assert (IH' : uniqueOn key (map (fun x => if hit x then patch x else x) l)).
  { apply IH; trivial.
    - intros x y Hx Hy. apply Hone; right; assumption.
    - intros x y Hx Hy. apply Hfree; right; assumption.
    - apply (uniqueOn_tail key z l Hu). }
  apply uniqueOn_cons; [exact IH'|].
  intros y' Hy' Hk. apply in_map_iff in Hy' as (y & <- & Hy).
  destruct (hit z) eqn:Ez, (hit y) eqn:Ey.
  - exfalso. apply Hz.
    rewrite (Hone z y (or_introl eq_refl) (or_intror Hy) Ez Ey). exact Hy.
  - rewrite <- Hk.
    apply (Hfree z y (or_introl eq_refl) (or_intror Hy) Ez Ey).
    symmetry. exact Hk.
  - apply (Hfree y z (or_intror Hy) (or_introl eq_refl) Ey Ez). exact Hk.
  - apply (uniqueOn_head key z y l Hu Hy Hk).
Qed.

Lemma NoDup_map_eq {A B} (f : A -> B) (l : list A) (x y : A) :
  NoDup (map f l) -> In x l -> In y l -> f x = f y -> x = y.
Proof.
  induction l as [|z l IH]; simpl; intros Hnd Hx Hy Hf; [contradiction|].
  inversion Hnd as [|? ? Hz Hl]; subst.
  destruct Hx as [->|Hx], Hy as [->|Hy]; trivial.
  - exfalso. apply Hz. rewrite Hf. apply in_map. exact Hy.
  - exfalso. apply Hz. rewrite <- Hf. apply in_map. exact Hx.
  - apply IH; assumption.
Qed.

Lemma schemaOk_emptyDb : schemaOk emptyDb.
Proof. repeat split; constructor. Qed.

(** A write that leaves [users] and its sequence alone keeps the
    constraints. *)
Lemma schemaOk_same_users db db' :
  users db' = users db -> users_id_seq db' = users_id_seq db ->
  schemaOk db -> schemaOk db'.
Proof.
  unfold schemaOk, usersPk, walletsUnique, pseudonymsUnique.
  intros -> ->. trivial.
Qed.

Lemma createUser_schemaOk now insertUser db :
  schemaOk db -> schemaOk (stateOf (createUser now insertUser db)).
Proof.
  intros (Hpk & Hw & Hp & Hseq).
  assert (Hbump : schemaOk (bump_users_id_seq db)).
  { repeat split; trivial. cbn.
    eapply Forall_impl; [|exact Hseq]. cbn. intros u Hu. lia. }
  unfold createUser. cbn [User.walletAddress User.pseudonymousId].
  destruct (existsb _ (users db)) eqn:Ewallet; [exact Hbump|].
  destruct (match orDefault (InsertUser.pseudonymousId insertUser) None with
            | Some p => existsb (fun u => eqNullable (User.pseudonymousId u) p)
                                (users db)
            | None => false
            end) eqn:Epseud; [exact Hbump|].
  unfold schemaOk, usersPk, walletsUnique, pseudonymsUnique. cbn.
  rewrite Forall_forall in Hseq. repeat split.
  - rewrite map_app. apply NoDup_app; [exact Hpk|repeat constructor; simpl; tauto|].
    intros a Ha [<-|[]]. apply in_map_iff in Ha as (u & Hid & Hu).
    specialize (Hseq u Hu). cbn in Hid. lia.
  - apply uniqueOn_snoc; [exact Hw|]. cbn. intros y Hy [= Heq]. exfalso.
    assert (Hex : existsb (fun u => String.eqb (User.walletAddress u)
                                      (InsertUser.walletAddress insertUser))
                          (users db) = true).
    { apply existsb_exists. exists y. split; [exact Hy|].
      apply String.eqb_eq. exact Heq. }
    congruence.
  - apply uniqueOn_snoc; [exact Hp|]. cbn. intros y Hy Heq.
    destruct (orDefault (InsertUser.pseudonymousId insertUser) None)
      as [p|]; [|reflexivity].
    exfalso.
    assert (Hex : existsb (fun u => eqNullable (User.pseudonymousId u) p)
                          (users db) = true).
    { apply existsb_exists. exists y. split; [exact Hy|].
      rewrite Heq. simpl. apply String.eqb_refl. }
    congruence.
  - apply Forall_app. split.
    + apply Forall_forall. intros u Hu. specialize (Hseq u Hu). lia.
    + repeat constructor. cbn. lia.
Qed.

Lemma insertRanked_users_id_seq clock scores :
  forall i db,
    users_id_seq (stateOf (insertRanked clock i scores db)) = users_id_seq db.
Proof.
  induction scores as [|score rest IH]; intros i db; simpl; [reflexivity|].
  destruct (leaderboardValues i score) as [v|]; simpl; [|reflexivity].
  rewrite IH. reflexivity.
Qed.

Lemma updateUser_schemaOk now id updates db :
  schemaOk db -> schemaOk (stateOf (updateUser now id updates db)).
Proof.
  intros Hok. pose proof Hok as (Hpk & Hw & Hp & Hseq). unfold updateUser.
  destruct (negb (existsb _ (users db))); [exact Hok|].
  destruct (updateUserConflicts id updates db) eqn:Econf; [exact Hok|].
  apply orb_false_elim in Econf as [Ewallet Epseud].
  set (hit := fun u => User.id u =? id).
  set (g := fun u => if hit u then patchUser now updates u else u).
  assert (Hg : forall u, User.id (g u) = User.id u)
    by (intros u; unfold g; destruct (hit u); reflexivity).
  assert (Hnd : NoDup (users db)) by (eapply NoDup_map_inv; exact Hpk).
  assert (Hone : forall x y, In x (users db) -> In y (users db) ->
                             hit x = true -> hit y = true -> x = y).
  { intros x y Hx Hy Ex Ey. apply (NoDup_map_eq User.id (users db)); trivial.
    apply Z.eqb_eq in Ex, Ey. congruence. }
  unfold schemaOk, usersPk, walletsUnique, pseudonymsUnique.
  cbn [stateOf users users_id_seq set_users]. fold hit. fold g.
  repeat split.
  - rewrite map_map. erewrite map_ext; [exact Hpk|]. exact Hg.
  - apply uniqueOn_patch; trivial.
    intros x y Hx Hy Ex Ey Hk. exfalso. injection Hk as Hk.
    unfold patchUser in Hk. cbn in Hk.
    destruct (UserUpdates.walletAddress updates) as [|w]; simpl in Hk.
    + assert (x = y).
      { apply (uniqueOn_inj (fun u => Some (User.walletAddress u))
                            (users db)); trivial;
          [f_equal; exact Hk|discriminate]. }
      subst y. congruence.
    + assert (Hex : existsb
                      (fun u => negb (User.id u =? id)
                                && String.eqb (User.walletAddress u) w)
                      (users db) = true).
      { apply existsb_exists. exists y. split; [exact Hy|].
        unfold hit in Ey. cbn beta. rewrite Ey, <- Hk. simpl.
        apply String.eqb_refl. }
      congruence.
  - apply uniqueOn_patch; trivial.
    intros x y Hx Hy Ex Ey Hk.
    unfold patchUser in Hk. cbn in Hk.
    destruct (User.pseudonymousId y) as [q|] eqn:Eq; [exfalso|reflexivity].
    destruct (UserUpdates.pseudonymousId updates) as [|[p|]]; simpl in Hk.
    + assert (x = y).
      { apply (uniqueOn_inj User.pseudonymousId (users db)); trivial;
          congruence. }
      subst y. congruence.
    + injection Hk as ->.
      assert (Hex : existsb
                      (fun u => negb (User.id u =? id)
                                && eqNullable (User.pseudonymousId u) q)
                      (users db) = true).
      { apply existsb_exists. exists y. split; [exact Hy|].
        unfold hit in Ey. cbn beta. rewrite Ey, Eq. simpl.
        apply String.eqb_refl. }
      congruence.
    + discriminate.
  - rewrite Forall_forall in *. intros u' Hu'.
    apply in_map_iff in Hu' as (u & <- & Hu).
    specialize (Hg u). unfold g, hit in Hg. rewrite Hg. apply Hseq.
    exact Hu.
Qed.

Lemma schemaOk_runStoreOp op db : schemaOk db -> schemaOk (runStoreOp op db).
Proof.
  intros Hok. destruct op as [now ins|now id upd|[now ins|now uid upd]
                              |now ins|orderBy clock]; simpl.
  - apply createUser_schemaOk. exact Hok.
  - apply updateUser_schemaOk. exact Hok.
  - apply (schemaOk_same_users db); trivial;
      unfold createReputationScore;
      destruct (negb (userExists _ db)); reflexivity.
  - apply (schemaOk_same_users db); trivial;
      unfold updateReputationScore;
      destruct (negb (existsb _ (reputationScores db))); trivial;
      destruct (ScoreUpdates.userId upd) as [|owner]; trivial;
      destruct (negb (userExists owner db)); reflexivity.
  - apply (schemaOk_same_users db); trivial;
      unfold createZkProof;
      destruct (existsb _ (zkProofs db)); trivial;
      destruct (negb (userExists _ db)); reflexivity.
  - apply (schemaOk_same_users db); trivial; unfold updateLeaderboard.
    + apply (insertRanked_state clock
               (selectScores orderBy (deleteLeaderboard db)) 0
               (deleteLeaderboard db)).
    + apply (insertRanked_users_id_seq clock
               (selectScores orderBy (deleteLeaderboard db)) 0
               (deleteLeaderboard db)).
Qed.

(** The constraints the schema puts on [users] hold in every state the
    storage operations reach from the empty store: the hypotheses [usersPk]
    and [pseudonymsUnique] of the properties above cost nothing there. *)
Lemma schemaOk_reachable (ops : list StoreOp) :
  schemaOk (runStoreOps ops emptyDb).
Proof.
  unfold runStoreOps. generalize schemaOk_emptyDb. generalize emptyDb.
  induction ops as [|op ops IH]; intros db Hok; simpl; [exact Hok|].
  apply IH. apply schemaOk_runStoreOp. exact Hok.
Qed.

(** * Further properties of the storage layer and the routes *)

(** ** Sorting and limits *)

Lemma insertByKey_perm {A} (key : A -> Z) (a : A) (l : list A) :
  Permutation (a :: l) (insertByKey key a l).
Proof.
  induction l as [|b l IH]; simpl; [reflexivity|].
  destruct (key b <=? key a); [reflexivity|].
  rewrite perm_swap. apply perm_skip. exact IH.
Qed.

Lemma insertByKey_sorted {A} (key : A -> Z) (a : A) (l : list A) :
  StronglySorted (descBy key) l ->
  StronglySorted (descBy key) (insertByKey key a l).
Proof.
  induction l as [|b l IH]; simpl; intros Hs; [repeat constructor|].
  apply StronglySorted_inv in Hs as [Hl Hb].
  destruct (key b <=? key a) eqn:E.
  - apply Z.leb_le in E. constructor; [constructor; assumption|].
    constructor; [exact E|].
    eapply Forall_impl; [|exact Hb]. unfold descBy. intros x Hx. lia.
  - apply Z.leb_gt in E. constructor; [apply IH; exact Hl|].
    eapply Permutation_Forall; [apply insertByKey_perm|].
    constructor; [unfold descBy; lia|exact Hb].
Qed.

Lemma stableSortDesc_ok : SortDescOk stableSortDesc.
Proof.
  intros A key l. unfold stableSortDesc.
  induction l as [|a l [IHp IHs]]; simpl.
  - split; [reflexivity|constructor].
  - split; [|apply insertByKey_sorted; exact IHs].
    rewrite <- insertByKey_perm. apply perm_skip. exact IHp.
Qed.

Lemma StronglySorted_app_inv {A} (R : A -> A -> Prop) (l1 l2 : list A) :
  StronglySorted R (l1 ++ l2) ->
  StronglySorted R l1
  /\ StronglySorted R l2
  /\ forall a b, In a l1 -> In b l2 -> R a b.
Proof.
  induction l1 as [|x l1 IH]; simpl; intros Hs.
  - split; [constructor|]. split; [exact Hs|]. intros a b [].
  - apply StronglySorted_inv in Hs as [Hs Hx].
    destruct (IH Hs) as (H1 & H2 & H12).
    apply Forall_app in Hx as [Hx1 Hx2].
    split; [constructor; assumption|]. split; [exact H2|].
    intros a b [<-|Ha] Hb.
    + rewrite Forall_forall in Hx2. apply Hx2. exact Hb.
    + apply H12; assumption.
Qed.

(** [ORDER BY key DESC LIMIT n] returns [min n (length l)] rows, sorted, and
    leaves out no row that is ahead of one it returns. *)
Lemma limit_topOf (sortDesc : SortDesc) {A} (key : A -> Z) (n : nat)
    (l : list A) :
  SortDescOk sortDesc ->
  topOf key l (firstn n (sortDesc A key l))
  /\ length (firstn n (sortDesc A key l)) = Nat.min n (length l).
Proof.
  intros Hok. destruct (Hok A key l) as [Hperm Hsorted].
  rewrite <- (firstn_skipn n (sortDesc A key l)) in Hsorted.
  apply StronglySorted_app_inv in Hsorted as (H1 & _ & H12).
  split.
  - split; [exact H1|]. exists (skipn n (sortDesc A key l)).
    split; [rewrite firstn_skipn; exact Hperm|].
    intros a b Ha Hb. apply (H12 a b Ha Hb).
  - rewrite length_firstn, (Permutation_length Hperm). reflexivity.
Qed.

Lemma find_app {A} (f : A -> bool) (l l' : list A) :
  find f (l ++ l')
  = match find f l with
    | Some x => Some x
    | None => find f l'
    end.
Proof.
  induction l as [|x l IH]; simpl; [reflexivity|].
  destruct (f x); [reflexivity|exact IH].
Qed.

Lemma find_none_existsb {A} (f : A -> bool) (l : list A) :
  find f l = None <-> existsb f l = false.
Proof.
  induction l as [|x l IH]; simpl; [tauto|].
  destruct (f x); simpl; [split; discriminate|exact IH].
Qed.

Lemma filter_andb {A} (f g : A -> bool) (l : list A) :
  filter (fun x => f x && g x) l = filter f (filter g l).
Proof.
  induction l as [|x l IH]; simpl; [reflexivity|].
  destruct (g x); simpl; [|rewrite andb_false_r; exact IH].
  rewrite andb_true_r. destruct (f x); rewrite IH; reflexivity.
Qed.

(** ** Lookups by wallet address *)

Lemma walletsUnique_NoDup db :
  walletsUnique db -> NoDup (map User.walletAddress (users db)).
Proof.
  unfold walletsUnique, uniqueOn. intros H.
  rewrite filter_all in H.
  - rewrite <- (map_map User.walletAddress Some) in H.
    eapply NoDup_map_inv. exact H.
  - apply Forall_forall. intros x Hx.
    apply in_map_iff in Hx as (u & <- & _). reflexivity.
Qed.

(** Under the unique constraint the lookup by wallet address decides which
    rows carry the address: the user found and no other, or none. *)
Lemma wallet_rows db walletAddress :
  walletsUnique db ->
  filter (fun u => String.eqb (User.walletAddress u) walletAddress) (users db)
  = match getUserByWallet walletAddress db with
    | Some u => [u]
    | None => []
    end.
Proof.
  intros Hw. apply walletsUnique_NoDup in Hw. unfold getUserByWallet.
  induction (users db) as [|x l IH]; simpl; [reflexivity|].
  inversion Hw as [|? ? Hx Hl]; subst.
  destruct (String.eqb (User.walletAddress x) walletAddress) eqn:E.
  - f_equal. apply filter_none. intros y Hy.
    apply String.eqb_eq in E. apply String.eqb_neq. intros Ey.
    apply Hx. rewrite E, <- Ey. apply in_map. exact Hy.
  - apply IH. exact Hl.
Qed.

(** The rows an inner join with [users] on an id, restricted to a wallet
    address, pairs a row of owner [owner] with. *)
Lemma wallet_join db walletAddress owner :
  walletsUnique db ->
  filter (fun u => (owner =? User.id u)
                   && String.eqb (User.walletAddress u) walletAddress)
         (users db)
  = match getUserByWallet walletAddress db with
    | Some u => if owner =? User.id u then [u] else []
    | None => []
    end.
Proof.
  intros Hw. rewrite filter_andb, (wallet_rows db walletAddress Hw).
  destruct (getUserByWallet walletAddress db); reflexivity.
Qed.

Lemma join_by_wallet {A B} (owner : A -> Z) (pair : A -> User.t -> B)
    (rows : list A) db walletAddress :
  walletsUnique db ->
  flat_map
    (fun a =>
       map (pair a)
           (filter (fun u => (owner a =? User.id u)
                             && String.eqb (User.walletAddress u)
                                           walletAddress)
                   (users db)))
    rows
  = match getUserByWallet walletAddress db with
    | Some u => map (fun a => pair a u)
                    (filter (fun a => owner a =? User.id u) rows)
    | None => []
    end.
Proof.
  intros Hw. induction rows as [|a rows IH]; simpl.
  - destruct (getUserByWallet walletAddress db); reflexivity.
  - rewrite IH, (wallet_join db walletAddress (owner a) Hw).
    destruct (getUserByWallet walletAddress db) as [u|]; [|reflexivity].
    destruct (owner a =? User.id u); reflexivity.
Qed.

(** X1. [getReputationScoreByWallet] is the lookup of the identity by its
    wallet address followed by [getReputationScore] of that identity's id:
    the two agree on every store whose wallet addresses are unique, and an
    unregistered wallet has no score. *)
Theorem getReputationScoreByWallet_composes (walletAddress : string)
    (db : Db) :
  walletsUnique db ->
  getReputationScoreByWallet walletAddress db
  = match getUserByWallet walletAddress db with
    | Some user => getReputationScore (User.id user) db
    | None => None
    end.
Proof.
  intros Hw. unfold getReputationScoreByWallet, getReputationScore.
  rewrite (join_by_wallet ReputationScore.userId (fun r _ => r)
             (reputationScores db) db walletAddress Hw).
  destruct (getUserByWallet walletAddress db) as [u|]; [|reflexivity].
  rewrite map_id, find_hd_filter. reflexivity.
Qed.

(** X2. [getMintedNftsByWallet] returns the NFTs [getMintedNfts] returns for
    the identity registered under the wallet address, and none for a wallet
    address that is not registered. *)
Theorem getMintedNftsByWallet_composes (walletAddress : string) (db : Db)
    (ledger : Ledger) :
  walletsUnique db ->
  getMintedNftsByWallet walletAddress db ledger
  = match getUserByWallet walletAddress db with
    | Some user => getMintedNfts (User.id user) ledger
    | None => []
    end.
Proof.
  intros Hw. unfold getMintedNftsByWallet, getMintedNfts.
  rewrite (join_by_wallet MintedNft.userId (fun n _ => n)
             (mintedNfts ledger) db walletAddress Hw).
  destruct (getUserByWallet walletAddress db) as [u|]; [|reflexivity].
  apply map_id.
Qed.

(** X3. [getLeaderboard] returns [min limit n] of the [n] rows of the
    requested chain (of all rows when no chain, or the empty string, is
    given; 100 when no limit is given), in descending order of overall
    score, and every row it leaves out scores no more than every row it
    returns. *)
Theorem getLeaderboard_top (sortDesc : SortDesc) (limit : option nat)
    (chain : option string) (db : Db) :
  SortDescOk sortDesc ->
  let rows := leaderboardOfChain chain db in
  let n := match limit with Some n => n | None => 100%nat end in
  topOf LeaderboardEntry.overallScore rows
        (getLeaderboard sortDesc limit chain db)
  /\ length (getLeaderboard sortDesc limit chain db)
     = Nat.min n (length rows)
  /\ (forall e, In e rows <->
                In e (leaderboard db)
                /\ forall c, chain = Some c -> c <> "" ->
                             LeaderboardEntry.chain e = c).
Proof.
  intros Hok rows n.
  destruct (limit_topOf sortDesc LeaderboardEntry.overallScore n rows Hok)
    as [Htop Hlen].
  split; [destruct limit; exact Htop|].
  split; [destruct limit; exact Hlen|].
  intros e. unfold rows, leaderboardOfChain.
  destruct chain as [[|a c]|]; simpl.
  - split; [intros H; split; [exact H|]|tauto].
    intros c [= <-] Hc. contradiction.
  - rewrite filter_In, String.eqb_eq. split.
    + intros [He Hc]. split; [exact He|]. intros c' [= <-] _. exact Hc.
    + intros [He Hc]. split; [exact He|]. apply Hc; [reflexivity|discriminate].
  - split; [intros H; split; [exact H|]|tauto]. intros c [=].
Qed.

Lemma getLeaderboard_top_witness :
  topOf LeaderboardEntry.overallScore
        (leaderboardOfChain (Some "ethereum") Scenario.published)
        (getLeaderboard stableSortDesc (Some 1%nat) (Some "ethereum")
                        Scenario.published)
  /\ length (getLeaderboard stableSortDesc (Some 1%nat) (Some "ethereum")
                            Scenario.published) = 1%nat.
Proof.
  destruct (getLeaderboard_top stableSortDesc (Some 1%nat) (Some "ethereum")
              Scenario.published stableSortDesc_ok) as (Htop & Hlen & _).
  split; [exact Htop|exact Hlen].
Defined.

Lemma walletsUnique_registered : walletsUnique Scenario.registered.
Proof. distinct_keys. Qed.

Lemma getReputationScoreByWallet_composes_witness :
  getReputationScoreByWallet "0xAA" Scenario.tied
  = getReputationScore 1 Scenario.tied.
Proof.
  apply (getReputationScoreByWallet_composes "0xAA" Scenario.tied).
  distinct_keys.
Defined.

Lemma getMintedNftsByWallet_composes_witness :
  getMintedNftsByWallet "0xAA" Scenario.registered
    (ledgerOf (createMintedNft 30 Tour.badge Scenario.registered emptyLedger))
  = getMintedNfts 1
      (ledgerOf (createMintedNft 30 Tour.badge Scenario.registered
                                 emptyLedger)).
Proof.
  apply (getMintedNftsByWallet_composes "0xAA" Scenario.registered).
  exact walletsUnique_registered.
Defined.

(** ** The activity ledger *)

Lemma StronglySorted_map {A B} (f : A -> B) (key : B -> Z) (l : list A) :
  StronglySorted (descBy (fun a => key (f a))) l ->
  StronglySorted (descBy key) (map f l).
Proof.
  induction 1 as [|a l _ IH Ha]; simpl; constructor; [exact IH|].
  apply Forall_forall. intros b Hb. apply in_map_iff in Hb as (x & <- & Hx).
  rewrite Forall_forall in Ha. apply (Ha x Hx).
Qed.

Lemma topOf_map {A B} (f : A -> B) (key : B -> Z) (l res : list A) :
  topOf (fun a => key (f a)) l res -> topOf key (map f l) (map f res).
Proof.
  intros (Hs & rest & Hperm & Hle). split; [apply StronglySorted_map; exact Hs|].
  exists (map f rest). split.
  - rewrite <- map_app. apply Permutation_map. exact Hperm.
  - intros a b Ha Hb.
    apply in_map_iff in Ha as (x & <- & Hx).
    apply in_map_iff in Hb as (y & <- & Hy).
    apply (Hle x y Hx Hy).
Qed.

Lemma topOf_In {A} (key : A -> Z) (l res : list A) (a : A) :
  topOf key l res -> In a res -> In a l.
Proof.
  intros (_ & rest & Hperm & _) Ha.
  eapply Permutation_in; [symmetry; exact Hperm|].
  apply in_or_app. left. exact Ha.
Qed.

(** X4. [getActivities] returns [min limit n] of the identity's [n]
    activities (100 when no limit is given), most recent first by event
    timestamp, and none of the activities it leaves out is more recent than
    one it returns; every activity returned belongs to the identity. *)
Theorem getActivities_top (sortDesc : SortDesc) (userId : Z)
    (limit : option nat) (ledger : Ledger) :
  SortDescOk sortDesc ->
  let own := filter (fun a => Activity.userId a =? userId)
                    (activities ledger) in
  let n := match limit with Some n => n | None => 100%nat end in
  topOf Activity.timestamp own (getActivities sortDesc userId limit ledger)
  /\ length (getActivities sortDesc userId limit ledger)
     = Nat.min n (length own)
  /\ forall a, In a (getActivities sortDesc userId limit ledger) ->
               In a (activities ledger) /\ Activity.userId a = userId.
Proof.
  intros Hok own n.
  destruct (limit_topOf sortDesc Activity.timestamp n own Hok)
    as [Htop Hlen].
  assert (Htop' : topOf Activity.timestamp own
                        (getActivities sortDesc userId limit ledger))
    by (destruct limit; exact Htop).
  split; [exact Htop'|]. split; [destruct limit; exact Hlen|].
  intros a Ha. apply (topOf_In _ _ _ _ Htop') in Ha.
  apply filter_In in Ha as [Hin Hid]. apply Z.eqb_eq in Hid.
  split; assumption.
Qed.

Lemma getActivities_top_witness :
  topOf Activity.timestamp
        (filter (fun a => Activity.userId a =? 1) (activities Tour.ledger))
        (getActivities stableSortDesc 1 Tour.limitTwo Tour.ledger)
  /\ length (getActivities stableSortDesc 1 Tour.limitTwo Tour.ledger)
     = 2%nat.
Proof.
  destruct (getActivities_top stableSortDesc 1 Tour.limitTwo Tour.ledger
              stableSortDesc_ok) as (Htop & Hlen & _).
  split; [exact Htop|exact Hlen].
Defined.

(** X5. For a registered wallet address [getActivitiesByWallet] returns
    [min limit n] of the [n] activities of the identity registered under
    it, most recent first, leaving out none that is more recent than one it
    returns; for a wallet address that is not registered it returns
    nothing. *)
Theorem getActivitiesByWallet_top (sortDesc : SortDesc)
    (walletAddress : string) (limit : option nat) (db : Db)
    (ledger : Ledger) :
  SortDescOk sortDesc ->
  walletsUnique db ->
  match getUserByWallet walletAddress db with
  | Some user =>
      let own := filter (fun a => Activity.userId a =? User.id user)
                        (activities ledger) in
      let n := match limit with Some n => n | None => 100%nat end in
      topOf Activity.timestamp own
            (getActivitiesByWallet sortDesc walletAddress limit db ledger)
      /\ length (getActivitiesByWallet sortDesc walletAddress limit db ledger)
         = Nat.min n (length own)
  | None => getActivitiesByWallet sortDesc walletAddress limit db ledger = []
  end.
Proof.
  intros Hok Hw. unfold getActivitiesByWallet.
  set (n := match limit with Some n => n | None => defaultLimit end).
  assert (Hjoin : activitiesOfWallet walletAddress db ledger
                  = match getUserByWallet walletAddress db with
                    | Some u =>
                        map (fun a => (a, u))
                            (filter (fun a => Activity.userId a =? User.id u)
                                    (activities ledger))
                    | None => []
                    end)
    by (apply (join_by_wallet Activity.userId (fun a u => (a, u))); exact Hw).
  destruct (limit_topOf sortDesc
              (fun j : Activity.t * User.t => Activity.timestamp (fst j)) n
              (activitiesOfWallet walletAddress db ledger) Hok)
    as [Htop Hlen].
  rewrite Hjoin in Htop, Hlen |- *.
  destruct (getUserByWallet walletAddress db) as [u|].
  - split.
    + apply (topOf_map fst Activity.timestamp) in Htop.
      rewrite map_map, map_id in Htop. exact Htop.
    + rewrite length_map, Hlen, length_map. destruct limit; reflexivity.
  - destruct (Hok _ (fun j : Activity.t * User.t => Activity.timestamp (fst j))
                  []) as [Hperm _].
    apply Permutation_nil in Hperm. rewrite Hperm.
    rewrite firstn_nil. reflexivity.
Qed.

Lemma getActivitiesByWallet_top_witness :
  length (getActivitiesByWallet stableSortDesc "0xAA" Tour.limitTwo
                                Scenario.registered Tour.ledger) = 2%nat
  /\ getActivitiesByWallet stableSortDesc "0xEE" Tour.limitTwo
                           Scenario.registered Tour.ledger = [].
Proof.
  split.
  - apply (getActivitiesByWallet_top stableSortDesc "0xAA" Tour.limitTwo
             Scenario.registered Tour.ledger stableSortDesc_ok
             walletsUnique_registered).
  - apply (getActivitiesByWallet_top stableSortDesc "0xEE" Tour.limitTwo
             Scenario.registered Tour.ledger stableSortDesc_ok
             walletsUnique_registered).
Defined.

(** ** Registration *)

Lemma createUser_resolved now insertUser db user db' :
  createUser now insertUser db = Resolved user db' ->
  existsb (fun u => String.eqb (User.walletAddress u)
                               (InsertUser.walletAddress insertUser))
          (users db) = false
  /\ (forall p, User.pseudonymousId user = Some p ->
                existsb (fun u => eqNullable (User.pseudonymousId u) p)
                        (users db) = false)
  /\ user = User.mk (users_id_seq db)
                    (InsertUser.walletAddress insertUser)
                    (InsertUser.chain insertUser)
                    (orDefault (InsertUser.publicKey insertUser) None)
                    (orDefault (InsertUser.pseudonymousId insertUser) None)
                    now now
  /\ users db' = users db ++ [user]
  /\ reputationScores db' = reputationScores db
  /\ leaderboard db' = leaderboard db
  /\ zkProofs db' = zkProofs db.
Proof.
  unfold createUser. cbn [User.walletAddress User.pseudonymousId].
  destruct (existsb _ (users db)) eqn:Ewallet; [discriminate|].
  destruct (match orDefault (InsertUser.pseudonymousId insertUser) None with
            | Some p => existsb (fun u => eqNullable (User.pseudonymousId u) p)
                                (users db)
            | None => false
            end) eqn:Epseud; [discriminate|].
  intros [= <- <-]. split; [reflexivity|]. split; [|repeat split].
  cbn. intros p Hp. rewrite Hp in Epseud. exact Epseud.
Qed.

(** X6. After a resolved [createUser] the new identity is what its id, its
    wallet address and (when it has one) its pseudonymous id look up, its id
    was in use by no identity before, and the lookups of every other id and
    wallet address answer as they did. *)
Theorem createUser_then_lookup (now : Timestamp) (insertUser : InsertUser.t)
    (db db' : Db) (user : User.t) :
  schemaOk db ->
  createUser now insertUser db = Resolved user db' ->
  getUser (User.id user) db = None
  /\ getUser (User.id user) db' = Some user
  /\ getUserByWallet (InsertUser.walletAddress insertUser) db' = Some user
  /\ (forall p, User.pseudonymousId user = Some p ->
                getUserByPseudonymousId p db' = Some user)
  /\ (forall id, id <> User.id user -> getUser id db' = getUser id db)
  /\ (forall w, w <> InsertUser.walletAddress insertUser ->
                getUserByWallet w db' = getUserByWallet w db).
Proof.
  intros (_ & _ & _ & Hseq) Hres.
  destruct (createUser_resolved _ _ _ _ _ Hres)
    as (Hwallet & Hpseud & Huser & Husers & _).
  assert (Hfresh : existsb (fun u => User.id u =? User.id user) (users db)
                   = false).
  { destruct (existsb (fun u => User.id u =? User.id user) (users db))
      eqn:E; [|reflexivity].
    apply existsb_exists in E as (u & Hu & Hid). apply Z.eqb_eq in Hid.
    rewrite Forall_forall in Hseq. specialize (Hseq u Hu).
    rewrite Huser in Hid. cbn in Hid. lia. }
  unfold getUser, getUserByWallet, getUserByPseudonymousId. rewrite Husers.
  split; [apply find_none_existsb; exact Hfresh|].
  split; [rewrite find_app_none by exact Hfresh; simpl;
          rewrite Z.eqb_refl; reflexivity|].
  split; [rewrite find_app_none by exact Hwallet; simpl; rewrite Huser; cbn;
          rewrite String.eqb_refl; reflexivity|].
  split; [|split].
  - intros p Hp. rewrite find_app_none by (apply Hpseud; exact Hp).
    simpl. rewrite Hp. simpl. rewrite String.eqb_refl. reflexivity.
  - intros id Hid. rewrite find_app. simpl.
    apply Z.eqb_neq in Hid. rewrite Z.eqb_sym, Hid.
    destruct (find _ (users db)); reflexivity.
  - intros w Hw. rewrite find_app. simpl.
    replace (User.walletAddress user)
      with (InsertUser.walletAddress insertUser) by (rewrite Huser; reflexivity).
    apply String.eqb_neq in Hw. rewrite String.eqb_sym, Hw.
    destruct (find _ (users db)); reflexivity.
Qed.

Lemma schemaOk_registered : schemaOk Scenario.registered.
Proof.
  repeat split; distinct_keys.
Qed.

Lemma createUser_then_lookup_witness :
  exists user db',
    createUser 4 (InsertUser.mk "0xEE" "solana" Absent Absent)
               Scenario.registered
    = Resolved user db'
    /\ getUser 4 db' = Some user
    /\ getUserByWallet "0xEE" db' = Some user.
Proof.
  do 2 eexists. split; [reflexivity|].
  destruct (createUser_then_lookup 4
              (InsertUser.mk "0xEE" "solana" Absent Absent)
              Scenario.registered _ _ schemaOk_registered eq_refl)
    as (_ & Hid & Hw & _).
  split; [exact Hid|exact Hw].
Defined.

(** X7. [createUser] is refused for a wallet address, or a pseudonymous id
    other than null, that a registered identity already holds: the promise
    is rejected. A unique violation is raised in that case only, and a
    rejected [createUser] stores nothing: every table is as it was. *)
Theorem createUser_refuses_duplicates (now : Timestamp)
    (insertUser : InsertUser.t) (db : Db) :
  let taken :=
    (exists u, In u (users db)
               /\ User.walletAddress u = InsertUser.walletAddress insertUser)
    \/ (exists u p, In u (users db)
                    /\ InsertUser.pseudonymousId insertUser
                       = Supplied (Some p)
                    /\ User.pseudonymousId u = Some p) in
  (taken -> exists e db', createUser now insertUser db = Rejected e db')
  /\ (forall db',
        createUser now insertUser db = Rejected UniqueViolation db' -> taken)
  /\ (forall e db',
        createUser now insertUser db = Rejected e db' ->
        users db' = users db
        /\ reputationScores db' = reputationScores db
        /\ leaderboard db' = leaderboard db
        /\ zkProofs db' = zkProofs db).
Proof.
  intros taken.
  assert (Hwallet :
            existsb (fun u => String.eqb (User.walletAddress u)
                                (InsertUser.walletAddress insertUser))
                    (users db) = true
            <-> exists u, In u (users db)
                          /\ User.walletAddress u
                             = InsertUser.walletAddress insertUser).
  { rewrite existsb_exists. split; intros (u & Hu & Hw); exists u;
      (split; [exact Hu|]); apply String.eqb_eq; exact Hw. }
  assert (Hpseud :
            forall p,
              existsb (fun u => eqNullable (User.pseudonymousId u) p)
                      (users db) = true
              <-> exists u, In u (users db)
                            /\ User.pseudonymousId u = Some p).
  { intros p. rewrite existsb_exists.
    split; intros (u & Hu & Hp); exists u; (split; [exact Hu|]).
    - destruct (User.pseudonymousId u) as [q|]; [|discriminate].
      apply String.eqb_eq in Hp. congruence.
    - rewrite Hp. simpl. apply String.eqb_refl. }
  unfold createUser. cbn [User.walletAddress User.pseudonymousId].
  destruct (existsb _ (users db)) eqn:Ewallet.
  { split; [intros _; do 2 eexists; reflexivity|].
    split; [intros db' _; left; apply Hwallet; reflexivity|].
    intros e db' [= _ <-]. repeat split; reflexivity. }
  assert (Hfree : ~ exists u, In u (users db)
                              /\ User.walletAddress u
                                 = InsertUser.walletAddress insertUser).
  { intros H. apply Hwallet in H. discriminate. }
  destruct (InsertUser.pseudonymousId insertUser) as [|[p|]] eqn:Ep; cbn.
  - split; [|split; discriminate].
    intros [H|(u & p & _ & [=] & _)]. contradiction.
  - destruct (existsb (fun u => eqNullable (User.pseudonymousId u) p)
                      (users db)) eqn:Epseud.
    + split; [intros _; do 2 eexists; reflexivity|].
      split.
      * intros db' _. right. apply Hpseud in Epseud as (u & Hu & Hp).
        exists u, p. repeat split; trivial.
      * intros e db' [= _ <-]. repeat split; reflexivity.
    + split; [|split; discriminate].
      intros [H|(u & q & Hu & [= <-] & Hq)]; [contradiction|].
      assert (H : existsb (fun u => eqNullable (User.pseudonymousId u) p)
                          (users db) = true)
        by (apply Hpseud; exists u; split; assumption).
      congruence.
  - split; [|split; discriminate].
    intros [H|(u & p & _ & [=] & _)]. contradiction.
Qed.

Lemma createUser_refuses_duplicates_witness :
  exists e db',
    createUser 4 Scenario.walletA Scenario.registered = Rejected e db'
    /\ users db' = users Scenario.registered.
Proof.
  destruct (createUser_refuses_duplicates 4 Scenario.walletA
              Scenario.registered) as (Hdup & _ & Hkept).
  destruct Hdup as (e & db' & Hres).
  - left. eexists. split; [left; reflexivity|reflexivity].
  - exists e, db'. split; [exact Hres|].
    apply (Hkept e db' Hres).
Defined.

(** ** What each write leaves of the tables *)

Lemma createUser_tables now insertUser db :
  let db' := stateOf (createUser now insertUser db) in
  reputationScores db' = reputationScores db
  /\ leaderboard db' = leaderboard db
  /\ zkProofs db' = zkProofs db
  /\ (users db' = users db
      \/ users db' = users db
                     ++ [User.mk (users_id_seq db)
                           (InsertUser.walletAddress insertUser)
                           (InsertUser.chain insertUser)
                           (orDefault (InsertUser.publicKey insertUser) None)
                           (orDefault (InsertUser.pseudonymousId insertUser)
                                      None)
                           now now]).
Proof.
  unfold createUser. cbn [User.walletAddress User.pseudonymousId].
  destruct (existsb _ (users db)); [repeat split; left; reflexivity|].
  destruct (match orDefault (InsertUser.pseudonymousId insertUser) None with
            | Some p => existsb (fun u => eqNullable (User.pseudonymousId u) p)
                                (users db)
            | None => false
            end); repeat split; (left; reflexivity) || (right; reflexivity).
Qed.

Lemma updateUser_tables now id updates db :
  let db' := stateOf (updateUser now id updates db) in
  reputationScores db' = reputationScores db
  /\ leaderboard db' = leaderboard db
  /\ zkProofs db' = zkProofs db
  /\ map User.id (users db') = map User.id (users db).
Proof.
  unfold updateUser.
  destruct (negb (existsb _ (users db))); [repeat split|].
  destruct (updateUserConflicts id updates db); [repeat split|].
  repeat split. cbn. rewrite map_map. apply map_ext. intros u.
  destruct (User.id u =? id); reflexivity.
Qed.

Lemma createReputationScore_tables now insertScore db :
  let db' := stateOf (createReputationScore now insertScore db) in
  users db' = users db
  /\ leaderboard db' = leaderboard db
  /\ zkProofs db' = zkProofs db
  /\ (reputationScores db' = reputationScores db
      \/ exists score,
           createReputationScore now insertScore db = Resolved score db'
           /\ reputationScores db' = reputationScores db ++ [score]
           /\ ReputationScore.userId score
              = InsertReputationScore.userId insertScore
           /\ userExists (InsertReputationScore.userId insertScore) db
              = true).
Proof.
  unfold createReputationScore. cbn [ReputationScore.userId].
  destruct (userExists _ db) eqn:E; simpl; repeat split;
    [right|left; reflexivity].
  eexists. repeat split; reflexivity.
Qed.

Lemma updateReputationScore_tables now userId updates db :
  let db' := stateOf (updateReputationScore now userId updates db) in
  users db' = users db
  /\ leaderboard db' = leaderboard db
  /\ zkProofs db' = zkProofs db
  /\ (reputationScores db' = reputationScores db
      \/ (reputationScores db'
          = map (fun r => if ReputationScore.userId r =? userId
                          then patchScore now updates r else r)
                (reputationScores db)
          /\ forall owner, ScoreUpdates.userId updates = Supplied owner ->
                           userExists owner db = true)).
Proof.
  unfold updateReputationScore.
  destruct (negb (existsb _ (reputationScores db)));
    [repeat split; left; reflexivity|].
  destruct (ScoreUpdates.userId updates) as [|owner] eqn:Eo.
  - repeat split. right. split; [reflexivity|]. intros owner [=].
  - destruct (userExists owner db) eqn:E; simpl;
      repeat split; [right|left; reflexivity].
    split; [reflexivity|]. intros o [= <-]. exact E.
Qed.

Lemma createZkProof_tables now insertProof db :
  let db' := stateOf (createZkProof now insertProof db) in
  users db' = users db
  /\ reputationScores db' = reputationScores db
  /\ leaderboard db' = leaderboard db
  /\ (zkProofs db' = zkProofs db
      \/ exists proof,
           createZkProof now insertProof db = Resolved proof db'
           /\ zkProofs db' = zkProofs db ++ [proof]
           /\ ZkProof.proofHash proof = InsertZkProof.proofHash insertProof
           /\ ZkProof.userId proof = InsertZkProof.userId insertProof
           /\ existsb (fun p => String.eqb (ZkProof.proofHash p)
                                  (InsertZkProof.proofHash insertProof))
                      (zkProofs db) = false
           /\ userExists (InsertZkProof.userId insertProof) db = true).
Proof.
  unfold createZkProof. cbn [ZkProof.proofHash ZkProof.userId].
  destruct (existsb _ (zkProofs db)) eqn:Eh;
    [repeat split; left; reflexivity|].
  destruct (userExists _ db) eqn:E; simpl; repeat split;
    [right|left; reflexivity].
  eexists. repeat split; reflexivity.
Qed.

Lemma updateLeaderboard_tables orderBy clock db :
  let db' := stateOf (updateLeaderboard orderBy clock db) in
  users db' = users db
  /\ reputationScores db' = reputationScores db
  /\ zkProofs db' = zkProofs db.
Proof.
  unfold updateLeaderboard.
  destruct (insertRanked_state clock
              (selectScores orderBy (deleteLeaderboard db)) 0
              (deleteLeaderboard db)) as (Hu & Hr & Hz & _).
  repeat split; assumption.
Qed.

Lemma userExists_ids db db' :
  map User.id (users db') = map User.id (users db) ->
  forall id, userExists id db' = userExists id db.
Proof.
  intros H id. unfold userExists.
  assert (G : forall l, existsb (fun u => User.id u =? id) l
                        = existsb (fun i => i =? id) (map User.id l)).
  { induction l as [|u l IH]; simpl; [reflexivity|]. rewrite IH.
    reflexivity. }
  rewrite !G, H. reflexivity.
Qed.

(** No write unregisters an identity. *)
Lemma userExists_kept op db id :
  userExists id db = true -> userExists id (runStoreOp op db) = true.
Proof.
  intros H. destruct op as [now ins|now uid upd|[now ins|now uid upd]
                            |now ins|orderBy clock]; simpl.
  - destruct (createUser_tables now ins db) as (_ & _ & _ & [Hu|Hu]);
      unfold userExists; rewrite Hu; [exact H|].
    rewrite existsb_app. unfold userExists in H. rewrite H. reflexivity.
  - destruct (updateUser_tables now uid upd db) as (_ & _ & _ & Hu).
    rewrite (userExists_ids _ _ Hu). exact H.
  - destruct (createReputationScore_tables now ins db) as (Hu & _).
    unfold userExists. rewrite Hu. exact H.
  - destruct (updateReputationScore_tables now uid upd db) as (Hu & _).
    unfold userExists. rewrite Hu. exact H.
  - destruct (createZkProof_tables now ins db) as (Hu & _).
    unfold userExists. rewrite Hu. exact H.
  - destruct (updateLeaderboard_tables orderBy clock db) as (Hu & _).
    unfold userExists. rewrite Hu. exact H.
Qed.

(** ** References and proof hashes in reachable states *)

Lemma references_kept op db :
  recordsOwned db /\ proofsOwned db /\ hashesUnique db ->
  recordsOwned (runStoreOp op db)
  /\ proofsOwned (runStoreOp op db)
  /\ hashesUnique (runStoreOp op db).
Proof.
  intros (Hr & Hp & Hh).
  assert (Hr' : Forall (fun r => userExists (ReputationScore.userId r)
                                   (runStoreOp op db) = true)
                       (reputationScores db)).
  { eapply Forall_impl; [|exact Hr]. intros r. apply userExists_kept. }
  assert (Hp' : Forall (fun p => userExists (ZkProof.userId p)
                                   (runStoreOp op db) = true)
                       (zkProofs db)).
  { eapply Forall_impl; [|exact Hp]. intros p. apply userExists_kept. }
  unfold recordsOwned, proofsOwned, hashesUnique.
  destruct op as [now ins|now uid upd|[now ins|now uid upd]
                  |now ins|orderBy clock]; simpl in *.
  - destruct (createUser_tables now ins db) as (-> & _ & -> & _).
    repeat split; assumption.
  - destruct (updateUser_tables now uid upd db) as (-> & _ & -> & _).
    repeat split; assumption.
  - destruct (createReputationScore_tables now ins db)
      as (Hu & _ & -> & [->|(score & _ & -> & Hid & Hex)]);
      repeat split; trivial.
    apply Forall_app. split; [exact Hr'|]. repeat constructor.
    unfold userExists. rewrite Hu, Hid. exact Hex.
  - destruct (updateReputationScore_tables now uid upd db)
      as (Hu & _ & -> & [->|[-> Hown]]); repeat split; trivial.
    apply Forall_forall. intros r' Hr''.
    apply in_map_iff in Hr'' as (r & <- & Hin).
    rewrite Forall_forall in Hr'.
    destruct (ReputationScore.userId r =? uid); [|apply Hr'; exact Hin].
    unfold patchScore. cbn.
    destruct (ScoreUpdates.userId upd) as [|owner] eqn:Eo; simpl.
    + apply Hr'. exact Hin.
    + unfold userExists. rewrite Hu. apply Hown. reflexivity.
  - destruct (createZkProof_tables now ins db)
      as (Hu & -> & _ & [->|(proof & _ & -> & Hhash & Hid & Hfresh & Hex)]);
      repeat split; trivial.
    + apply Forall_app. split; [exact Hp'|]. repeat constructor.
      unfold userExists. rewrite Hu, Hid. exact Hex.
    + rewrite map_app. apply NoDup_app; [exact Hh|repeat constructor; simpl; tauto|].
      intros h Hin [<-|[]]. apply in_map_iff in Hin as (p & Hph & Hin).
      assert (existsb (fun p => String.eqb (ZkProof.proofHash p)
                                  (InsertZkProof.proofHash ins))
                      (zkProofs db) = true).
      { apply existsb_exists. exists p. split; [exact Hin|].
        apply String.eqb_eq. congruence. }
      congruence.
  - destruct (updateLeaderboard_tables orderBy clock db) as (_ & -> & ->).
    repeat split; assumption.
Qed.

(** X9. In every state the storage operations reach from the empty store,
    every reputation record and every proof is owned by a registered
    identity, and no two proofs carry the same hash. *)
Theorem references_reachable (ops : list StoreOp) :
  recordsOwned (runStoreOps ops emptyDb)
  /\ proofsOwned (runStoreOps ops emptyDb)
  /\ hashesUnique (runStoreOps ops emptyDb).
Proof.
  unfold runStoreOps.
  assert (H0 : recordsOwned emptyDb /\ proofsOwned emptyDb
               /\ hashesUnique emptyDb) by (repeat split; constructor).
  revert H0. generalize emptyDb.
  induction ops as [|op ops IH]; intros db Hok; simpl; [exact Hok|].
  apply IH. apply references_kept. exact Hok.
Qed.

(** ** Writing and reading back *)

Lemma filter_ne_unchanged {A} (key : A -> Z) (f : A -> A) (k k' : Z)
    (l : list A) :
  k' <> k ->
  (forall x, key x = k -> key (f x) <> k') ->
  find (fun x => key x =? k')
       (map (fun x => if key x =? k then f x else x) l)
  = find (fun x => key x =? k') l.
Proof.
  intros Hne Hmoved. induction l as [|x l IH]; simpl; [reflexivity|].
  destruct (key x =? k) eqn:E.
  - apply Z.eqb_eq in E.
    destruct (key (f x) =? k') eqn:E'.
    + apply Z.eqb_eq in E'. exfalso. apply (Hmoved x E E').
    + assert ((key x =? k') = false) by (apply Z.eqb_neq; congruence).
      rewrite H. exact IH.
  - destruct (key x =? k'); [reflexivity|exact IH].
Qed.

(** X10. A [createReputationScore] that resolves was for a registered
    identity and stores one record more, the one it resolves with: the
    record carries the supplied owner, overall score and level, every
    category score the insert leaves out is 0, and its three timestamps are
    the time of the insert. When the identity owned no record before,
    [getReputationScore] then returns this record for the identity; the
    records the other identities look up are the ones they looked up
    before. *)
Theorem createReputationScore_then_lookup (now : Timestamp)
    (insertScore : InsertReputationScore.t) (db db' : Db)
    (score : ReputationScore.t) :
  createReputationScore now insertScore db = Resolved score db' ->
  userExists (InsertReputationScore.userId insertScore) db = true
  /\ reputationScores db' = reputationScores db ++ [score]
  /\ (recordsOf (InsertReputationScore.userId insertScore) db = [] ->
      getReputationScore (InsertReputationScore.userId insertScore) db'
      = Some score)
  /\ ReputationScore.userId score = InsertReputationScore.userId insertScore
  /\ ReputationScore.overallScore score
     = InsertReputationScore.overallScore insertScore
  /\ ReputationScore.reputationLevel score
     = InsertReputationScore.reputationLevel insertScore
  /\ (InsertReputationScore.daoScore insertScore = Absent ->
      ReputationScore.daoScore score = Some 0)
  /\ (InsertReputationScore.defiScore insertScore = Absent ->
      ReputationScore.defiScore score = Some 0)
  /\ (InsertReputationScore.nftScore insertScore = Absent ->
      ReputationScore.nftScore score = Some 0)
  /\ (InsertReputationScore.bridgeScore insertScore = Absent ->
      ReputationScore.bridgeScore score = Some 0)
  /\ (InsertReputationScore.votingScore insertScore = Absent ->
      ReputationScore.votingScore score = Some 0)
  /\ (InsertReputationScore.scamAvoidanceScore insertScore = Absent ->
      ReputationScore.scamAvoidanceScore score = Some 0)
  /\ ReputationScore.lastCalculated score = now
  /\ ReputationScore.createdAt score = now
  /\ ReputationScore.updatedAt score = now
  /\ forall other,
       other <> InsertReputationScore.userId insertScore ->
       getReputationScore other db' = getReputationScore other db.
Proof.
  unfold createReputationScore. cbn [ReputationScore.userId].
  destruct (userExists (InsertReputationScore.userId insertScore) db)
    eqn:Hex; cbn [negb]; [|discriminate].
  intros [= <- <-]. split; [reflexivity|]. split; [reflexivity|].
  unfold getReputationScore. cbn [reputationScores set_reputationScores
                                  bump_reputationScores_id_seq].
  split.
  { intros Hnone. rewrite find_app. unfold recordsOf in Hnone.
    rewrite find_hd_filter, Hnone. simpl. rewrite Z.eqb_refl. reflexivity. }
  cbn. repeat (split; [try reflexivity; intros ->; reflexivity|]).
  intros other Hother. rewrite find_app. simpl.
  apply Z.eqb_neq in Hother. rewrite Z.eqb_sym, Hother.
  destruct (find _ (reputationScores db)); reflexivity.
Qed.

Lemma createReputationScore_then_lookup_witness :
  exists score db',
    createReputationScore 10 (Scenario.scored 1 90000 "gold")
                          Scenario.registered
    = Resolved score db'
    /\ getReputationScore 1 db' = Some score
    /\ ReputationScore.defiScore score = Some 0.
Proof.
  do 2 eexists. split; [reflexivity|].
  destruct (createReputationScore_then_lookup 10
              (Scenario.scored 1 90000 "gold") Scenario.registered _ _
              eq_refl)
    as (_ & _ & Hget & _ & _ & _ & _ & Hdefi & _).
  split; [apply Hget; reflexivity|apply Hdefi; reflexivity].
Defined.

Lemma patchScore_written now updates r :
  scoreWritten updates (patchScore now updates r).
Proof.
  unfold scoreWritten, patchScore. cbn.
  repeat split; intros v ->; reflexivity.
Qed.

(** X11. An [updateReputationScore] that resolves for an identity that owns
    no record resolves with [undefined] and leaves the store as it was. For
    an identity that owns one record it resolves with that record patched:
    every column the update supplies holds the supplied value, every other
    column but the two timestamps holds its prior value, and lastCalculated
    and updatedAt are the time of the write. When the update leaves
    [userId] out, [getReputationScore] then returns the patched record for
    the identity, and the records the other identities look up are the
    ones they looked up before. *)
Theorem updateReputationScore_then_lookup (now : Timestamp) (userId : Z)
    (updates : ScoreUpdates.t) (db db' : Db)
    (res : option ReputationScore.t) :
  updateReputationScore now userId updates db = Resolved res db' ->
  match recordsOf userId db with
  | [] => res = None /\ db' = db
  | [r] =>
      exists r',
        res = Some r'
        /\ scoreFrame now updates r r'
        /\ scoreWritten updates r'
        /\ (ScoreUpdates.userId updates = Absent ->
            getReputationScore userId db' = Some r'
            /\ forall other,
                 other <> userId ->
                 getReputationScore other db' = getReputationScore other db)
  | _ => True
  end.
Proof.
  unfold recordsOf, updateReputationScore.
  destruct (filter _ (reputationScores db)) as [|r [|r2 rest]] eqn:Ef;
    [| |intros _; exact I].
  - assert (Hex : existsb (fun r => ReputationScore.userId r =? userId)
                          (reputationScores db) = false).
    { apply find_none_existsb. rewrite find_hd_filter, Ef. reflexivity. }
    rewrite Hex. cbn [negb]. intros [= <- <-]. split; reflexivity.
  - assert (Hr : In r (filter (fun r => ReputationScore.userId r =? userId)
                              (reputationScores db)))
      by (rewrite Ef; left; reflexivity).
    apply filter_In in Hr as [Hin Hid].
    assert (Hex : existsb (fun r => ReputationScore.userId r =? userId)
                          (reputationScores db) = true)
      by (apply existsb_exists; exists r; auto).
    rewrite Hex. cbn [negb map hd_error].
    destruct (match ScoreUpdates.userId updates with
              | Supplied owner => negb (userExists owner db)
              | Absent => false
              end); [discriminate|].
    intros [= <- <-].
    exists (patchScore now updates r). split; [reflexivity|].
    split; [apply patchScore_frame|]. split; [apply patchScore_written|].
    intros Hkeep. apply Z.eqb_eq in Hid.
    unfold getReputationScore. cbn [reputationScores set_reputationScores].
    split.
    { rewrite find_hd_filter.
      assert (Hf : forall l,
                 filter (fun x => ReputationScore.userId x =? userId)
                   (map (fun x => if ReputationScore.userId x =? userId
                                  then patchScore now updates x else x) l)
                 = map (patchScore now updates)
                       (filter (fun x => ReputationScore.userId x =? userId)
                               l)).
      { induction l as [|x l IH]; simpl; [reflexivity|].
        destruct (ReputationScore.userId x =? userId) eqn:E.
        - assert (Hx : (ReputationScore.userId (patchScore now updates x)
                        =? userId) = true)
            by (unfold patchScore; cbn; rewrite Hkeep; exact E).
          rewrite Hx. simpl. f_equal. exact IH.
        - rewrite E. exact IH. }
      rewrite Hf, Ef. reflexivity. }
    intros other Hother.
    apply (filter_ne_unchanged ReputationScore.userId
             (patchScore now updates) userId other); trivial.
    intros x Hx. unfold patchScore. cbn. rewrite Hkeep. simpl. congruence.
Qed.

Lemma updateReputationScore_then_lookup_witness :
  exists r' db',
    updateReputationScore 20 1 Scenario.defiOnly Scenario.tied
    = Resolved (Some r') db'
    /\ getReputationScore 1 db' = Some r'
    /\ ReputationScore.defiScore r' = Some 25025.
Proof.
  pose proof (updateReputationScore_then_lookup 20 1 Scenario.defiOnly
                Scenario.tied _ _ eq_refl) as Hupdate.
  cbn [recordsOf] in Hupdate.
  destruct Hupdate as (r' & Hres & _ & Hwritten & Hget).
  exists r'. eexists. split; [rewrite <- Hres; reflexivity|].
  split; [apply (Hget eq_refl)|].
  destruct Hwritten as (_ & _ & _ & _ & Hdefi & _).
  apply Hdefi. reflexivity.
Defined.

(** X12. A reputation record, a proof, an NFT or an activity for an
    identity that is not registered is refused with a foreign-key violation
    and nothing is stored: every table is as it was. *)
Theorem unknown_owner_refused (now : Timestamp) (db : Db) (ledger : Ledger)
    (insertScore : InsertReputationScore.t) (insertProof : InsertZkProof.t)
    (insertNft : InsertMintedNft.t) (insertActivity : InsertActivity.t) :
  (userExists (InsertReputationScore.userId insertScore) db = false ->
   exists db',
     createReputationScore now insertScore db
     = Rejected ForeignKeyViolation db'
     /\ reputationScores db' = reputationScores db
     /\ users db' = users db /\ leaderboard db' = leaderboard db
     /\ zkProofs db' = zkProofs db)
  /\ (userExists (InsertZkProof.userId insertProof) db = false ->
      getZkProofByHash (InsertZkProof.proofHash insertProof) db = None ->
      exists db',
        createZkProof now insertProof db = Rejected ForeignKeyViolation db'
        /\ zkProofs db' = zkProofs db
        /\ users db' = users db /\ leaderboard db' = leaderboard db
        /\ reputationScores db' = reputationScores db)
  /\ (userExists (InsertMintedNft.userId insertNft) db = false ->
      exists ledger',
        createMintedNft now insertNft db ledger
        = Refused ForeignKeyViolation ledger'
        /\ mintedNfts ledger' = mintedNfts ledger
        /\ activities ledger' = activities ledger)
  /\ (userExists (InsertActivity.userId insertActivity) db = false ->
      exists ledger',
        createActivity now insertActivity db ledger
        = Refused ForeignKeyViolation ledger'
        /\ mintedNfts ledger' = mintedNfts ledger
        /\ activities ledger' = activities ledger).
Proof.
  repeat split.
  - intros H. unfold createReputationScore. cbn [ReputationScore.userId].
    rewrite H. eexists. repeat split; reflexivity.
  - intros H Hfresh. unfold createZkProof.
    cbn [ZkProof.proofHash ZkProof.userId].
    apply find_none_existsb in Hfresh. rewrite Hfresh, H.
    eexists. repeat split; reflexivity.
  - intros H. unfold createMintedNft. cbn [MintedNft.userId].
    rewrite H. eexists. repeat split; reflexivity.
  - intros H. unfold createActivity. cbn [Activity.userId].
    rewrite H. eexists. repeat split; reflexivity.
Qed.

Lemma unknown_owner_refused_witness :
  (exists db',
     createReputationScore 10 (Scenario.scored 9 90000 "gold")
                           Scenario.registered
     = Rejected ForeignKeyViolation db'
     /\ reputationScores db' = reputationScores Scenario.registered)
  /\ (exists ledger',
        createActivity 20
          (InsertActivity.mk 9 "dao_vote" Absent Absent Absent 300 Absent 700)
          Scenario.registered emptyLedger
        = Refused ForeignKeyViolation ledger'
        /\ activities ledger' = []).
Proof.
  destruct (unknown_owner_refused 10 Scenario.registered emptyLedger
              (Scenario.scored 9 90000 "gold")
              (InsertZkProof.mk 9 "0xHASH9" Absent Absent Absent Absent Absent)
              (InsertMintedNft.mk 9 "1" "0x1" "ethereum" "gold" Absent Absent)
              (InsertActivity.mk 9 "dao_vote" Absent Absent Absent 300
                                 Absent 700))
    as (Hscore & Hproof & Hnft & Hact).
  split.
  - destruct (Hscore eq_refl) as (db' & Hres & Hr & _).
    exists db'. split; [exact Hres|exact Hr].
  - destruct (Hact eq_refl) as (ledger' & Hres & _ & Ha).
    exists ledger'. split; [exact Hres|exact Ha].
Defined.

(** ** Credentials *)

Lemma getZkProofByHash_kept op db proofHash proof :
  getZkProofByHash proofHash db = Some proof ->
  getZkProofByHash proofHash (runStoreOp op db) = Some proof.
Proof.
  intros H. unfold getZkProofByHash in *.
  destruct op as [now ins|now uid upd|[now ins|now uid upd]
                  |now ins|orderBy clock]; simpl.
  - destruct (createUser_tables now ins db) as (_ & _ & -> & _). exact H.
  - destruct (updateUser_tables now uid upd db) as (_ & _ & -> & _). exact H.
  - destruct (createReputationScore_tables now ins db) as (_ & _ & -> & _).
    exact H.
  - destruct (updateReputationScore_tables now uid upd db)
      as (_ & _ & -> & _).
    exact H.
  - destruct (createZkProof_tables now ins db)
      as (_ & _ & _ & [->|(p & _ & -> & _)]); [exact H|].
    rewrite find_app, H. reflexivity.
  - destruct (updateLeaderboard_tables orderBy clock db) as (_ & _ & ->).
    exact H.
Qed.

(** X13. Nothing in the storage layer alters or revokes a stored
    credential: whatever operations run afterwards, its hash resolves to the
    same artifact, so at any given time [validateZkProof] answers for it
    what it would have answered before them. *)
Theorem credential_never_altered (ops : list StoreOp) (db : Db)
    (proofHash : string) (proof : ZkProof.t) :
  getZkProofByHash proofHash db = Some proof ->
  getZkProofByHash proofHash (runStoreOps ops db) = Some proof
  /\ forall now,
       validateZkProof now proofHash (runStoreOps ops db)
       = validateZkProof now proofHash db.
Proof.
  intros H.
  assert (Hkept : getZkProofByHash proofHash (runStoreOps ops db) = Some proof).
  { unfold runStoreOps. revert db H.
    induction ops as [|op ops IH]; intros db H; simpl; [exact H|].
    apply IH. apply getZkProofByHash_kept. exact H. }
  split; [exact Hkept|]. intros now. unfold validateZkProof.
  rewrite Hkept, H. reflexivity.
Qed.

Lemma credential_never_altered_witness :
  validateZkProof 900 "0xHASH1"
    (runStoreOps [UpdateUser 600 1 Scenario.rebind;
                  CreateZkProof 700 Scenario.plainCredential]
                 Scenario.gated)
  = validateZkProof 900 "0xHASH1" Scenario.gated.
Proof.
  apply (credential_never_altered
           [UpdateUser 600 1 Scenario.rebind;
            CreateZkProof 700 Scenario.plainCredential]
           Scenario.gated "0xHASH1"
           (ZkProof.mk 1 1 "0xHASH1" None None None (Some true) (Some 1000)
                       500)
           eq_refl).
Defined.

(** X14. Time only takes validity away: a credential that [validateZkProof]
    accepts at some time is accepted at every earlier time on the same
    store, and one it refuses is refused at every later time. *)
Theorem validateZkProof_earlier (now later : Timestamp) (proofHash : string)
    (db : Db) :
  now <= later ->
  validateZkProof later proofHash db = true ->
  validateZkProof now proofHash db = true.
Proof.
  unfold validateZkProof. intros Hle.
  destruct (getZkProofByHash proofHash db) as [proof|]; [|discriminate].
  destruct (negb (truthy (ZkProof.isValid proof))); [discriminate|].
  unfold expiredAt. destruct (ZkProof.expiresAt proof) as [t|]; [|trivial].
  destruct (t <? later) eqn:El; [discriminate|]. intros _.
  apply Z.ltb_ge in El.
  assert (E : (t <? now) = false) by (apply Z.ltb_ge; lia).
  rewrite E. reflexivity.
Qed.

Lemma validateZkProof_earlier_witness :
  validateZkProof 400 "0xHASH1" Scenario.gated = true.
Proof.
  apply (validateZkProof_earlier 400 1000 "0xHASH1" Scenario.gated).
  - lia.
  - reflexivity.
Defined.

(** ** Minted NFTs *)

(** X15. A [createMintedNft] that resolves was for a registered identity
    and stores one NFT more, the one it resolves with, carrying the
    supplied owner, token id and contract address and minted at the time
    of the insert; [getMintedNfts] lists it for the identity after the
    NFTs listed before. When no NFT with that token id and contract
    address was stored before, [getNftByTokenId] then returns it for the
    pair; what the other pairs look up is unchanged. The store puts no
    unique constraint on the pair. *)
Theorem createMintedNft_then_lookup (now : Timestamp)
    (insertNft : InsertMintedNft.t) (db : Db) (ledger ledger' : Ledger)
    (nft : MintedNft.t) :
  createMintedNft now insertNft db ledger = Written nft ledger' ->
  userExists (InsertMintedNft.userId insertNft) db = true
  /\ mintedNfts ledger' = mintedNfts ledger ++ [nft]
  /\ activities ledger' = activities ledger
  /\ MintedNft.userId nft = InsertMintedNft.userId insertNft
  /\ MintedNft.tokenId nft = InsertMintedNft.tokenId insertNft
  /\ MintedNft.contractAddress nft = InsertMintedNft.contractAddress insertNft
  /\ MintedNft.mintedAt nft = now
  /\ getMintedNfts (InsertMintedNft.userId insertNft) ledger'
     = getMintedNfts (InsertMintedNft.userId insertNft) ledger ++ [nft]
  /\ (getNftByTokenId (InsertMintedNft.tokenId insertNft)
                      (InsertMintedNft.contractAddress insertNft) ledger
      = None ->
      getNftByTokenId (InsertMintedNft.tokenId insertNft)
                      (InsertMintedNft.contractAddress insertNft) ledger'
      = Some nft)
  /\ forall tokenId contractAddress,
       (tokenId, contractAddress)
       <> (InsertMintedNft.tokenId insertNft,
           InsertMintedNft.contractAddress insertNft) ->
       getNftByTokenId tokenId contractAddress ledger'
       = getNftByTokenId tokenId contractAddress ledger.
Proof.
  unfold createMintedNft. cbn [MintedNft.userId].
  destruct (userExists (InsertMintedNft.userId insertNft) db) eqn:Hex;
    cbn [negb]; [|discriminate].
  intros [= <- <-].
  unfold getNftByTokenId, getMintedNfts. cbn [mintedNfts activities].
  repeat (split; [reflexivity|]).
  split; [rewrite filter_app; simpl; rewrite Z.eqb_refl; reflexivity|].
  split.
  { intros Hfresh. rewrite find_app, Hfresh. simpl.
    rewrite !String.eqb_refl. reflexivity. }
  intros tokenId contractAddress Hne. rewrite find_app. simpl.
  destruct (String.eqb (InsertMintedNft.tokenId insertNft) tokenId) eqn:Et,
           (String.eqb (InsertMintedNft.contractAddress insertNft)
                       contractAddress) eqn:Ec; simpl;
    try (match goal with
         | |- match ?x with _ => _ end = _ => destruct x; reflexivity
         end).
  apply String.eqb_eq in Et, Ec. subst. contradiction Hne. reflexivity.
Qed.

Lemma createMintedNft_then_lookup_witness :
  exists nft ledger',
    createMintedNft 30 Tour.badge Scenario.registered emptyLedger
    = Written nft ledger'
    /\ getNftByTokenId "2001" "0x123d" ledger' = Some nft.
Proof.
  do 2 eexists. split; [reflexivity|].
  destruct (createMintedNft_then_lookup 30 Tour.badge Scenario.registered
              emptyLedger _ _ eq_refl)
    as (_ & _ & _ & _ & _ & _ & _ & _ & Hget & _).
  apply Hget. reflexivity.
Defined.

(** ** The routes and the published leaderboard *)

Lemma rebuild_snapshot orderBy clock db :
  snapshot (stateOf (updateLeaderboard orderBy clock db))
  = map snapshotOf
        (rankedEntries (fun _ => 0) 0 0
                       (map selectScoreRow (orderBy (eligibleRows db)))).
Proof.
  unfold snapshot, updateLeaderboard.
  destruct (insertRanked_state clock
              (selectScores orderBy (deleteLeaderboard db)) 0
              (deleteLeaderboard db)) as (_ & _ & _ & ->).
  simpl. apply rankedEntries_snapshot.
Qed.

Lemma inSync_ext db db' :
  eligibleRows db' = eligibleRows db ->
  leaderboard db' = leaderboard db ->
  inSync db -> inSync db'.
Proof.
  intros Hrows Hlb (orderBy & Hok & Hsnap). exists orderBy.
  split; [exact Hok|].
  rewrite (rebuild_snapshot orderBy (fun _ => 0) db'), Hrows,
          <- (rebuild_snapshot orderBy (fun _ => 0) db), <- Hsnap.
  unfold snapshot. rewrite Hlb. reflexivity.
Qed.

Lemma inSync_rebuilt orderBy clock db :
  OrderByDesc orderBy ->
  inSync (stateOf (updateLeaderboard orderBy clock db)).
Proof.
  intros Hok. exists orderBy. split; [exact Hok|].
  destruct (updateLeaderboard_tables orderBy clock db) as (Hu & Hr & _).
  rewrite (rebuild_snapshot orderBy (fun _ => 0)),
          (eligibleRows_ext _ _ Hu Hr).
  apply rebuild_snapshot.
Qed.

Lemma inSync_emptyDb : inSync emptyDb.
Proof.
  exists scanOrderBy. split; [exact scanOrderBy_ok|reflexivity].
Qed.

(** A new identity owns no record yet, so registering it changes nothing
    the leaderboard is built from. *)
Lemma createUser_eligibleRows now insertUser db :
  schemaOk db -> recordsOwned db ->
  eligibleRows (stateOf (createUser now insertUser db)) = eligibleRows db.
Proof.
  intros (_ & _ & _ & Hseq) Hown.
  destruct (createUser_tables now insertUser db) as (Hr & _ & _ & [Hu|Hu]).
  - apply eligibleRows_ext; assumption.
  - unfold eligibleRows. rewrite Hr, Hu. clear Hr Hu.
    unfold recordsOwned in Hown.
    induction (reputationScores db) as [|r rs IH]; simpl; [reflexivity|].
    inversion Hown as [|? ? Hex Hrs]; subst.
    rewrite (IH Hrs), filter_app. simpl.
    assert (Hne : (ReputationScore.userId r =? users_id_seq db) = false).
    { apply Z.eqb_neq. intros E.
      apply existsb_exists in Hex as (u & Hu & Hid). apply Z.eqb_eq in Hid.
      rewrite Forall_forall in Hseq. specialize (Hseq u Hu). lia. }
    rewrite Hne. simpl. rewrite app_nil_r. reflexivity.
Qed.

Lemma updateReputationScore_unmatched now userId updates db db' :
  updateReputationScore now userId updates db = Resolved None db' ->
  db' = db /\ recordsOf userId db = [].
Proof.
  unfold updateReputationScore, recordsOf.
  destruct (existsb _ (reputationScores db)) eqn:Ehit; simpl.
  - destruct (match ScoreUpdates.userId updates with
              | Supplied owner => negb (userExists owner db)
              | Absent => false
              end); [discriminate|].
    apply existsb_exists in Ehit as (r & Hr & Hid).
    assert (Hin : In r (filter (fun r => ReputationScore.userId r =? userId)
                               (reputationScores db)))
      by (apply filter_In; auto).
    destruct (filter _ (reputationScores db)); [contradiction|discriminate].
  - intros [= <-]. split; [reflexivity|].
    apply filter_none. intros r Hr.
    destruct (ReputationScore.userId r =? userId) eqn:E; [|reflexivity].
    assert (existsb (fun r => ReputationScore.userId r =? userId)
                    (reputationScores db) = true)
      by (apply existsb_exists; exists r; auto).
    congruence.
Qed.

Lemma updateReputationScore_rejected now userId updates db e db' :
  updateReputationScore now userId updates db = Rejected e db' ->
  db' = db /\ e = ForeignKeyViolation
  /\ exists owner, ScoreUpdates.userId updates = Supplied owner
                   /\ userExists owner db = false.
Proof.
  unfold updateReputationScore.
  destruct (negb (existsb _ (reputationScores db))); [discriminate|].
  destruct (ScoreUpdates.userId updates) as [|owner]; [discriminate|].
  destruct (userExists owner db) eqn:E; simpl; [discriminate|].
  intros [= <- <-]. repeat split. exists owner. split; reflexivity || exact E.
Qed.

Lemma schemaOk_runStoreOps ops db :
  schemaOk db -> schemaOk (runStoreOps ops db).
Proof.
  unfold runStoreOps. revert db.
  induction ops as [|op ops IH]; intros db Hok; simpl; [exact Hok|].
  apply IH. apply schemaOk_runStoreOp. exact Hok.
Qed.

Lemma references_runStoreOps ops db :
  recordsOwned db /\ proofsOwned db /\ hashesUnique db ->
  recordsOwned (runStoreOps ops db)
  /\ proofsOwned (runStoreOps ops db)
  /\ hashesUnique (runStoreOps ops db).
Proof.
  unfold runStoreOps. revert db.
  induction ops as [|op ops IH]; intros db Hok; simpl; [exact Hok|].
  apply IH. apply references_kept. exact Hok.
Qed.

(** What a request does to the store is what the storage operations it
    calls do, one after the other. *)
Lemma serve_ops request db :
  exists ops, snd (serve request db) = runStoreOps ops db.
Proof.
  destruct request as [now generated [userData|]
                      |now orderBy clock [scoreData|]
                      |now orderBy clock userId [updates|]
                      |orderBy clock
                      |now [proofData|]];
    unfold serve, postUser, postReputation, putReputation,
           postLeaderboardUpdate, postZkProof; simpl;
    try (exists []; reflexivity).
  - exists [CreateUser now
              (InsertUser.mk (InsertUser.walletAddress userData)
                             (InsertUser.chain userData)
                             (InsertUser.publicKey userData)
                             (Supplied (Some generated)))].
    simpl. destruct (createUser now _ db); reflexivity.
  - destruct (createReputationScore now scoreData db) as [score db1|e db1]
      eqn:E.
    + exists [WriteScore (CreateScore now scoreData);
              UpdateLeaderboard orderBy clock].
      simpl. rewrite E. simpl.
      destruct (updateLeaderboard orderBy clock db1); reflexivity.
    + exists [WriteScore (CreateScore now scoreData)]. simpl. rewrite E.
      reflexivity.
  - destruct (updateReputationScore now userId updates db)
      as [[score|] db1|e db1] eqn:E.
    + exists [WriteScore (UpdateScore now userId updates);
              UpdateLeaderboard orderBy clock].
      simpl. rewrite E. simpl.
      destruct (updateLeaderboard orderBy clock db1); reflexivity.
    + exists [WriteScore (UpdateScore now userId updates)]. simpl. rewrite E.
      reflexivity.
    + exists [WriteScore (UpdateScore now userId updates)]. simpl. rewrite E.
      reflexivity.
  - exists [UpdateLeaderboard orderBy clock]. simpl.
    destruct (updateLeaderboard orderBy clock db); reflexivity.
  - exists [CreateZkProof now proofData]. simpl.
    destruct (createZkProof now proofData db); reflexivity.
Qed.

Lemma serve_inSync request db :
  served request ->
  schemaOk db -> recordsOwned db -> inSync db ->
  inSync (snd (serve request db)).
Proof.
  intros Hserved Hschema Hown Hsync.
  destruct request as [now generated [userData|]
                      |now orderBy clock [scoreData|]
                      |now orderBy clock userId [updates|]
                      |orderBy clock
                      |now [proofData|]];
    unfold serve, postUser, postReputation, putReputation,
           postLeaderboardUpdate, postZkProof; simpl in *; trivial.
  - set (userData' := InsertUser.mk _ _ _ _).
    assert (H : inSync (stateOf (createUser now userData' db))).
    { apply (inSync_ext db); trivial.
      - apply createUser_eligibleRows; assumption.
      - apply (createUser_tables now userData' db). }
    destruct (createUser now userData' db); exact H.
  - destruct (createReputationScore now scoreData db) as [score db1|e db1]
      eqn:E.
    + pose proof (inSync_rebuilt orderBy clock db1 Hserved) as H.
      destruct (updateLeaderboard orderBy clock db1); exact H.
    + destruct (createReputationScore_tables now scoreData db)
        as (Hu & Hl & _ & [Hr|(score & Hres & _)]);
        rewrite E in *; simpl in *; [|discriminate].
      apply (inSync_ext db); trivial. apply eligibleRows_ext; assumption.
  - destruct (updateReputationScore now userId updates db)
      as [[score|] db1|e db1] eqn:E; simpl.
    + pose proof (inSync_rebuilt orderBy clock db1 Hserved) as H.
      destruct (updateLeaderboard orderBy clock db1); exact H.
    + apply updateReputationScore_unmatched in E as [-> _]. exact Hsync.
    + apply updateReputationScore_rejected in E as [-> _]. exact Hsync.
  - pose proof (inSync_rebuilt orderBy clock db Hserved) as H.
    destruct (updateLeaderboard orderBy clock db); exact H.
  - assert (H : inSync (stateOf (createZkProof now proofData db))).
    { destruct (createZkProof_tables now proofData db) as (Hu & Hr & Hl & _).
      apply (inSync_ext db); trivial. apply eligibleRows_ext; assumption. }
    destruct (createZkProof now proofData db); exact H.
Qed.

Lemma serveAll_invariant requests :
  Forall served requests ->
  schemaOk (serveAll requests emptyDb)
  /\ (recordsOwned (serveAll requests emptyDb)
      /\ proofsOwned (serveAll requests emptyDb)
      /\ hashesUnique (serveAll requests emptyDb))
  /\ inSync (serveAll requests emptyDb).
Proof.
  intros Hserved.
  assert (H0 : schemaOk emptyDb
               /\ (recordsOwned emptyDb /\ proofsOwned emptyDb
                   /\ hashesUnique emptyDb)
               /\ inSync emptyDb).
  { split; [exact schemaOk_emptyDb|].
    split; [repeat split; constructor|exact inSync_emptyDb]. }
  unfold serveAll. revert H0. generalize emptyDb.
  induction Hserved as [|request requests Hreq _ IH]; intros db Hinv; simpl.
  - exact Hinv.
  - destruct Hinv as (Hschema & Hrefs & Hsync). apply IH.
    destruct (serve_ops request db) as (ops & Hops).
    split; [rewrite Hops; apply schemaOk_runStoreOps; exact Hschema|].
    split; [rewrite Hops; apply references_runStoreOps; exact Hrefs|].
    apply serve_inSync; trivial. apply Hrefs.
Qed.

(** What an up-to-date leaderboard holds: the rows of the current
    selection, ranked 1 to N. *)
Lemma inSync_rows db :
  inSync db ->
  exists l,
    Permutation (eligibleRows db) l
    /\ StronglySorted descByScore l
    /\ snapshot db
       = map snapshotOf
             (rankedEntries (fun _ => 0) 0 0 (map selectScoreRow l))
    /\ map scoreRowOf (leaderboard db) = map selectScoreRow l
    /\ map LeaderboardEntry.rank (leaderboard db)
       = ranksUpTo (length (eligibleRows db)).
Proof.
  intros (orderBy & Hok & Hsnap).
  rewrite rebuild_snapshot in Hsnap.
  pose proof (orderBy_perm Hok (eligibleRows db)) as Hperm.
  assert (Hn : named (orderBy (eligibleRows db))).
  { unfold named. eapply Permutation_Forall; [exact Hperm|].
    apply eligibleRows_named. }
  exists (orderBy (eligibleRows db)).
  split; [exact Hperm|]. split; [apply (orderBy_sorted Hok)|].
  split; [exact Hsnap|]. unfold snapshot in Hsnap. split.
  - rewrite <- (rankedEntries_scoreRows (fun _ => 0) _ Hn 0%nat 0).
    change scoreRowOf
      with (fun e => ScoreRow.mk
                       (Some (InsertLeaderboardEntry.pseudonymousId
                                (snapshotOf e)))
                       (InsertLeaderboardEntry.reputationLevel (snapshotOf e))
                       (InsertLeaderboardEntry.overallScore (snapshotOf e))
                       (InsertLeaderboardEntry.chain (snapshotOf e))).
    rewrite <- !(map_map snapshotOf
                   (fun v => ScoreRow.mk
                               (Some (InsertLeaderboardEntry.pseudonymousId v))
                               (InsertLeaderboardEntry.reputationLevel v)
                               (InsertLeaderboardEntry.overallScore v)
                               (InsertLeaderboardEntry.chain v))).
    rewrite Hsnap. reflexivity.
  - change LeaderboardEntry.rank
      with (fun e => InsertLeaderboardEntry.rank (snapshotOf e)).
    rewrite <- (map_map snapshotOf InsertLeaderboardEntry.rank), Hsnap,
            map_map.
    change (fun e => InsertLeaderboardEntry.rank (snapshotOf e))
      with LeaderboardEntry.rank.
    rewrite (rankedEntries_ranks (fun _ => 0) _ Hn).
    unfold ranksUpTo. rewrite (Permutation_length Hperm). reflexivity.
Qed.

Lemma snapshot_views (l1 l2 : list LeaderboardEntry.t) :
  map snapshotOf l1 = map snapshotOf l2 ->
  map scoreRowOf l1 = map scoreRowOf l2
  /\ map LeaderboardEntry.rank l1 = map LeaderboardEntry.rank l2
  /\ map LeaderboardEntry.overallScore l1
     = map LeaderboardEntry.overallScore l2.
Proof.
  intros Hsnap.
  change scoreRowOf
    with (fun e => ScoreRow.mk
                     (Some (InsertLeaderboardEntry.pseudonymousId
                              (snapshotOf e)))
                     (InsertLeaderboardEntry.reputationLevel (snapshotOf e))
                     (InsertLeaderboardEntry.overallScore (snapshotOf e))
                     (InsertLeaderboardEntry.chain (snapshotOf e))).
  change LeaderboardEntry.rank
    with (fun e => InsertLeaderboardEntry.rank (snapshotOf e)).
  change LeaderboardEntry.overallScore
    with (fun e => InsertLeaderboardEntry.overallScore (snapshotOf e)).
  rewrite <- !(map_map snapshotOf
                 (fun v => ScoreRow.mk
                             (Some (InsertLeaderboardEntry.pseudonymousId v))
                             (InsertLeaderboardEntry.reputationLevel v)
                             (InsertLeaderboardEntry.overallScore v)
                             (InsertLeaderboardEntry.chain v))).
  rewrite <- !(map_map snapshotOf InsertLeaderboardEntry.rank).
  rewrite <- !(map_map snapshotOf InsertLeaderboardEntry.overallScore).
  rewrite Hsnap. repeat split; reflexivity.
Qed.

(** What any rebuild would write over a leaderboard that is in step with
    the records. *)
Lemma inSync_any_rebuild db orderBy clock :
  inSync db -> OrderByDesc orderBy ->
  let rebuilt := stateOf (updateLeaderboard orderBy clock db) in
  Permutation (map scoreRowOf (leaderboard rebuilt))
              (map scoreRowOf (leaderboard db))
  /\ map LeaderboardEntry.rank (leaderboard rebuilt)
     = map LeaderboardEntry.rank (leaderboard db)
  /\ map LeaderboardEntry.overallScore (leaderboard rebuilt)
     = map LeaderboardEntry.overallScore (leaderboard db)
  /\ (NoDup (map joinedScore (eligibleRows db)) ->
      snapshot rebuilt = snapshot db).
Proof.
  intros (orderBy0 & Hok0 & Hsnap) Hok rebuilt. subst rebuilt.
  destruct (updateLeaderboard_resolves orderBy0 Hok0 (fun _ => 0) db)
    as (db0 & Hres0 & _ & _ & _ & Hl0).
  destruct (updateLeaderboard_resolves orderBy Hok clock db)
    as (db1 & Hres1 & _ & _ & _ & Hl1).
  rewrite Hres0 in Hsnap. rewrite Hres1. cbn [stateOf] in *.
  unfold snapshot in *. unfold sortedRows in Hl0, Hl1.
  destruct (snapshot_views _ _ Hsnap) as (Hrows & Hranks & Hscores).
  rewrite Hrows, Hranks, Hscores, Hsnap, Hl0, Hl1.
  destruct (rebuilds_agree orderBy0 orderBy (fun _ => 0) clock
              (leaderboard_id_seq db) (leaderboard_id_seq db)
              (eligibleRows db) Hok0 Hok (eligibleRows_named db))
    as (H1 & H2 & H3 & _ & H4).
  repeat (split; [assumption|]).
  intros Hnd. apply H4. right. exact Hnd.
Qed.

(** X16. However the routes that write to [users], [reputation_scores],
    [leaderboard] and [zk_proofs] are called (the NFT and activity routes
    write to tables of their own), starting from the empty store, the
    published leaderboard is never stale once a request has been answered:
    every reputation write that goes through is followed by a rebuild, and
    nothing else these routes do changes what the leaderboard is built
    from. After the last request the leaderboard holds exactly one row per
    reputation record of an identity with a pseudonymous id, with that
    identity's pseudonymous id and chain and the record's current level
    and overall score, ranked 1 to N. A rebuild run at that moment,
    whatever order the store returns equal scores in, writes the same
    rows, the same ranks and the same overall score at every rank; it
    writes the very snapshot that is there when no two selected records
    have the same overall score. *)
Theorem routes_keep_leaderboard_in_sync (requests : list Request) :
  Forall served requests ->
  let db := serveAll requests emptyDb in
  Permutation (map scoreRowOf (leaderboard db))
              (map selectScoreRow (eligibleRows db))
  /\ map LeaderboardEntry.rank (leaderboard db)
     = ranksUpTo (length (eligibleRows db))
  /\ forall orderBy clock,
       OrderByDesc orderBy ->
       let rebuilt := stateOf (updateLeaderboard orderBy clock db) in
       Permutation (map scoreRowOf (leaderboard rebuilt))
                   (map scoreRowOf (leaderboard db))
       /\ map LeaderboardEntry.rank (leaderboard rebuilt)
          = map LeaderboardEntry.rank (leaderboard db)
       /\ map LeaderboardEntry.overallScore (leaderboard rebuilt)
          = map LeaderboardEntry.overallScore (leaderboard db)
       /\ (NoDup (map joinedScore (eligibleRows db)) ->
           snapshot rebuilt = snapshot db).
Proof.
  intros Hserved db.
  destruct (serveAll_invariant requests Hserved) as (_ & _ & Hsync).
  fold db in Hsync.
  destruct (inSync_rows db Hsync) as (l & Hperm & _ & _ & Hrows & Hranks).
  split; [rewrite Hrows; apply Permutation_map; symmetry; exact Hperm|].
  split; [exact Hranks|].
  intros orderBy clock Hok. apply inSync_any_rebuild; assumption.
Qed.

Lemma served_tour : Forall served Tour.requests.
Proof.
  repeat (apply Forall_cons; [first [exact I|exact scanOrderBy_ok]|]).
  apply Forall_nil.
Qed.

Lemma routes_keep_leaderboard_in_sync_witness :
  map LeaderboardEntry.rank (leaderboard Tour.site) = [1; 2]
  /\ Permutation (map scoreRowOf (leaderboard Tour.site))
                 (map selectScoreRow (eligibleRows Tour.site))
  /\ snapshot (stateOf (updateLeaderboard scanOrderByBackward Scenario.clock
                                          Tour.site))
     = snapshot Tour.site.
Proof.
  destruct (routes_keep_leaderboard_in_sync Tour.requests served_tour)
    as (Hrows & Hranks & Hrebuild).
  split; [exact Hranks|]. split; [exact Hrows|].
  destruct (Hrebuild scanOrderByBackward Scenario.clock
                     scanOrderByBackward_ok) as (_ & _ & _ & Hsame).
  apply Hsame. vm_compute. repeat constructor; simpl; intuition discriminate.
Defined.

Lemma position_in_sync db pseudonymousId :
  inSync db ->
  ((forall r u, In (r, u) (eligibleRows db) ->
                User.pseudonymousId u <> Some pseudonymousId) ->
   getLeaderboardPosition pseudonymousId db = None)
  /\ ((exists r u, In (r, u) (eligibleRows db)
                   /\ User.pseudonymousId u = Some pseudonymousId) ->
      exists k, getLeaderboardPosition pseudonymousId db = Some k
                /\ 1 <= k <= Z.of_nat (length (eligibleRows db))).
Proof.
  intros Hsync.
  destruct (inSync_rows db Hsync) as (l & Hperm & _ & Hsnap & _).
  assert (Hn : named l).
  { unfold named. eapply Permutation_Forall; [exact Hperm|].
    apply eligibleRows_named. }
  rewrite getLeaderboardPosition_snapshot, Hsnap.
  set (E := rankedEntries (fun _ => 0) 0 0 (map selectScoreRow l)).
  assert (Hfrom : forall v,
             In v (map snapshotOf E) ->
             exists k r u,
               nth_error l k = Some (r, u)
               /\ User.pseudonymousId u
                  = Some (InsertLeaderboardEntry.pseudonymousId v)
               /\ InsertLeaderboardEntry.rank v = Z.of_nat k + 1).
  { intros v Hv. apply in_map_iff in Hv as (e & <- & He).
    apply rankedEntries_In in He as (k & r & u & p & Hk & Hp & ->).
    exists k, r, u. repeat split; trivial. }
  split.
  - intros Hnone.
    destruct (find _ (map snapshotOf E)) as [v|] eqn:Ef; [|reflexivity].
    apply find_some in Ef as [Hv Hp]. apply String.eqb_eq in Hp.
    destruct (Hfrom v Hv) as (k & r & u & Hk & Hu & _).
    exfalso. apply (Hnone r u).
    + eapply Permutation_in; [symmetry; exact Hperm|].
      eapply nth_error_In. exact Hk.
    + rewrite Hu, Hp. reflexivity.
  - intros (r & u & Hin & Hp).
    assert (Hex : existsb (fun v => String.eqb
                                      (InsertLeaderboardEntry.pseudonymousId v)
                                      pseudonymousId)
                          (map snapshotOf E) = true).
    { apply existsb_exists.
      assert (Hrow : In (selectScoreRow (r, u)) (map scoreRowOf E)).
      { unfold E. rewrite rankedEntries_scoreRows by exact Hn.
        apply in_map. eapply Permutation_in; [exact Hperm|exact Hin]. }
      apply in_map_iff in Hrow as (e & He & HeE).
      exists (snapshotOf e). split; [apply in_map; exact HeE|].
      apply String.eqb_eq. unfold scoreRowOf, selectScoreRow in He.
      cbn in *. injection He as He _ _ _. congruence. }
    destruct (find _ (map snapshotOf E)) as [v|] eqn:Ef.
    + apply find_some in Ef as [Hv _].
      destruct (Hfrom v Hv) as (k & r' & u' & Hk & _ & Hrank).
      exists (InsertLeaderboardEntry.rank v). split; [reflexivity|].
      assert (k < length l)%nat
        by (apply nth_error_Some; rewrite Hk; discriminate).
      rewrite (Permutation_length Hperm). lia.
    + apply find_none_existsb in Ef. congruence.
Qed.

(** X17. After any sequence of write requests from the empty store,
    [GET /api/leaderboard/position/:pseudonymousId] answers 404 when no
    identity with that pseudonymous id owns a reputation record, and
    otherwise 200 with a position between 1 and the number of rows of the
    leaderboard. *)
Theorem getPositionRoute_after_requests (requests : list Request)
    (pseudonymousId : string) :
  Forall served requests ->
  let db := serveAll requests emptyDb in
  ((forall r u, In r (reputationScores db) -> In u (users db) ->
                ReputationScore.userId r = User.id u ->
                User.pseudonymousId u <> Some pseudonymousId) ->
   getPositionRoute pseudonymousId db
   = mkResponse 404 (ErrorBody "Position not found"))
  /\ ((exists r u, In r (reputationScores db) /\ In u (users db)
                   /\ ReputationScore.userId r = User.id u
                   /\ User.pseudonymousId u = Some pseudonymousId) ->
      exists position,
        getPositionRoute pseudonymousId db
        = mkResponse 200 (PositionBody position)
        /\ 1 <= position <= Z.of_nat (length (leaderboard db))).
Proof.
  intros Hserved db.
  destruct (serveAll_invariant requests Hserved) as (_ & _ & Hsync).
  fold db in Hsync.
  destruct (position_in_sync db pseudonymousId Hsync) as [Hnone Hsome].
  unfold getPositionRoute. split.
  - intros Hno. rewrite Hnone; [reflexivity|].
    intros r u Hin. apply eligibleRows_In in Hin as (Hr & Hu & Hid & _).
    apply (Hno r u Hr Hu Hid).
  - intros (r & u & Hr & Hu & Hid & Hp).
    destruct Hsome as (k & -> & Hk).
    + exists r, u. split; [|exact Hp]. apply eligibleRows_In.
      repeat split; trivial. rewrite Hp. discriminate.
    + exists k. split; [reflexivity|].
      destruct (inSync_rows db Hsync) as (l & _ & _ & _ & _ & Hranks).
      apply (f_equal (@length Z)) in Hranks.
      unfold ranksUpTo in Hranks.
      rewrite !length_map, length_seq in Hranks. rewrite Hranks. exact Hk.
Qed.

Lemma getPositionRoute_after_requests_witness :
  getPositionRoute "anon_Z" Tour.site
  = mkResponse 404 (ErrorBody "Position not found")
  /\ exists position,
       getPositionRoute "anon_A" Tour.site
       = mkResponse 200 (PositionBody position).
Proof.
  split.
  - apply (getPositionRoute_after_requests Tour.requests "anon_Z"
             served_tour).
    intros r u Hr Hu _. vm_compute in Hu.
    destruct Hu as [<-|[<-|[]]]; discriminate.
  - destruct (getPositionRoute_after_requests Tour.requests "anon_A"
                served_tour) as [_ Hsome].
    destruct Hsome as (position & Hres & _).
    + eexists. eexists. vm_compute.
      split; [right; left; reflexivity|].
      split; [left; reflexivity|]. split; reflexivity.
    + exists position. exact Hres.
Defined.

(** X18. [POST /api/reputation] with a body that parses: when
    [createReputationScore] resolves, the answer is 201 with the new
    record, the record is stored and the leaderboard is rebuilt from the
    records including it (one row per record of an identity with a
    pseudonymous id, ranked 1 to N); when it is rejected, as it is for an
    owner that is not registered, the answer is 500 "Internal server
    error" and users, records, proofs and leaderboard are as they were
    (the leaderboard is not even cleared). A body that does not parse is
    answered 400 with the store untouched. *)
Theorem postReputation_answers (now : Timestamp) (orderBy : OrderBy)
    (clock : nat -> Timestamp) (scoreData : InsertReputationScore.t)
    (db : Db) :
  OrderByDesc orderBy ->
  (forall score db1,
     createReputationScore now scoreData db = Resolved score db1 ->
     exists db',
       postReputation now orderBy clock (Valid scoreData) db
       = (mkResponse 201 (ScoreBody score), db')
       /\ users db' = users db
       /\ reputationScores db' = reputationScores db ++ [score]
       /\ zkProofs db' = zkProofs db
       /\ Permutation (map scoreRowOf (leaderboard db'))
                      (map selectScoreRow (eligibleRows db'))
       /\ map LeaderboardEntry.rank (leaderboard db')
          = ranksUpTo (length (eligibleRows db')))
  /\ (forall e db1,
        createReputationScore now scoreData db = Rejected e db1 ->
        exists db',
          postReputation now orderBy clock (Valid scoreData) db
          = (mkResponse 500 (ErrorBody "Internal server error"), db')
          /\ users db' = users db
          /\ reputationScores db' = reputationScores db
          /\ leaderboard db' = leaderboard db
          /\ zkProofs db' = zkProofs db)
  /\ (userExists (InsertReputationScore.userId scoreData) db = false ->
      exists e db1,
        createReputationScore now scoreData db = Rejected e db1)
  /\ postReputation now orderBy clock Invalid db
     = (mkResponse 400 (ErrorBody "Validation failed"), db).
Proof.
  intros Hok. unfold postReputation.
  split; [|split; [|split; [|reflexivity]]].
  - intros score db1 Hcreate. rewrite Hcreate.
    destruct (createReputationScore_tables now scoreData db)
      as (Hu & _ & Hz & Hr).
    rewrite Hcreate in Hu, Hz, Hr. cbn [stateOf] in Hu, Hz, Hr.
    destruct Hr as [Hr|(score' & [= <-] & Hr & _)].
    { exfalso. unfold createReputationScore in Hcreate.
      destruct (negb (userExists _ db)); [discriminate|].
      injection Hcreate as <- <-.
      cbn [reputationScores set_reputationScores
           bump_reputationScores_id_seq] in Hr.
      apply (f_equal (@length _)) in Hr.
      rewrite length_app in Hr. simpl in Hr. lia. }
    destruct (updateLeaderboard_resolves orderBy Hok clock db1)
      as (db2 & Hres & Hu2 & Hr2 & Hz2 & _).
    pose proof (inSync_rebuilt orderBy clock db1 Hok) as Hsync.
    rewrite Hres in Hsync |- *. cbn [stateOf] in Hsync.
    exists db2. split; [reflexivity|].
    split; [rewrite Hu2; exact Hu|]. split; [rewrite Hr2; exact Hr|].
    split; [rewrite Hz2; exact Hz|].
    destruct (inSync_rows db2 Hsync) as (l & Hperm & _ & _ & Hrows & Hranks).
    split; [|exact Hranks].
    rewrite Hrows. apply Permutation_map. symmetry. exact Hperm.
  - intros e db1 Hcreate. rewrite Hcreate. cbn [handleValidationError].
    exists db1. split; [reflexivity|].
    destruct (createReputationScore_tables now scoreData db)
      as (Hu & Hl & Hz & Hr).
    rewrite Hcreate in Hu, Hl, Hz, Hr. cbn [stateOf] in Hu, Hl, Hz, Hr.
    repeat (split; [assumption|]). split; [|split; assumption].
    destruct Hr as [Hr|(score & [=] & _)]. exact Hr.
  - intros Hex. unfold createReputationScore.
    cbn [ReputationScore.userId]. rewrite Hex. cbn [negb].
    do 2 eexists. reflexivity.
Qed.

Lemma postReputation_answers_witness :
  exists score db',
    postReputation 10 scanOrderBy Scenario.clock
                   (Valid (Scenario.scored 1 90000 "gold"))
                   Scenario.registered
    = (mkResponse 201 (ScoreBody score), db')
    /\ map LeaderboardEntry.rank (leaderboard db')
       = ranksUpTo (length (eligibleRows db')).
Proof.
  destruct (postReputation_answers 10 scanOrderBy Scenario.clock
              (Scenario.scored 1 90000 "gold") Scenario.registered
              scanOrderBy_ok) as (Hcreated & _).
  destruct (Hcreated _ _ eq_refl) as (db' & Hres & _ & _ & _ & _ & Hranks).
  eexists. exists db'. split; [exact Hres|exact Hranks].
Defined.

Lemma patched_records now userId updates (l : list ReputationScore.t) :
  Forall2
    (fun r r' =>
       if ReputationScore.userId r =? userId
       then scoreFrame now updates r r' /\ scoreWritten updates r'
       else r' = r)
    l
    (map (fun r => if ReputationScore.userId r =? userId
                   then patchScore now updates r else r) l).
Proof.
  induction l as [|r l IH]; simpl; constructor; [|exact IH].
  destruct (ReputationScore.userId r =? userId); [|reflexivity].
  split; [apply patchScore_frame|apply patchScore_written].
Qed.

(** X19. [PUT /api/reputation/:userId] with a body that parses: when
    [updateReputationScore] resolves with [undefined], which it does only
    for an identity that owns no record, the answer is 404 and nothing has
    changed; when it resolves with a record, the answer is 200 with that
    record, which is a record of the identity in which every column the
    body supplies holds the supplied value and every other column but
    lastCalculated and updatedAt holds its prior value, every record of
    the identity has been patched in this way, the other records are as
    they were, and the leaderboard is rebuilt from the patched records;
    when it is rejected, as it is when the identity owns a record and the
    body moves it to an identity that is not registered, the answer is 500
    and nothing has changed. A body that does not parse is answered 400
    with the store untouched. *)
Theorem putReputation_answers (now : Timestamp) (orderBy : OrderBy)
    (clock : nat -> Timestamp) (userId : Z) (updates : ScoreUpdates.t)
    (db : Db) :
  OrderByDesc orderBy ->
  (forall db1,
     updateReputationScore now userId updates db = Resolved None db1 ->
     putReputation now orderBy clock userId (Valid updates) db
     = (mkResponse 404 (ErrorBody "Reputation score not found"), db)
     /\ recordsOf userId db = [])
  /\ (forall score db1,
        updateReputationScore now userId updates db
        = Resolved (Some score) db1 ->
        exists db',
          putReputation now orderBy clock userId (Valid updates) db
          = (mkResponse 200 (ScoreBody score), db')
          /\ (exists r, In r (recordsOf userId db)
                        /\ scoreFrame now updates r score
                        /\ scoreWritten updates score)
          /\ Forall2
               (fun r r' =>
                  if ReputationScore.userId r =? userId
                  then scoreFrame now updates r r' /\ scoreWritten updates r'
                  else r' = r)
               (reputationScores db) (reputationScores db')
          /\ users db' = users db
          /\ zkProofs db' = zkProofs db
          /\ Permutation (map scoreRowOf (leaderboard db'))
                         (map selectScoreRow (eligibleRows db'))
          /\ map LeaderboardEntry.rank (leaderboard db')
             = ranksUpTo (length (eligibleRows db')))
  /\ (forall e db1,
        updateReputationScore now userId updates db = Rejected e db1 ->
        putReputation now orderBy clock userId (Valid updates) db
        = (mkResponse 500 (ErrorBody "Internal server error"), db))
  /\ (recordsOf userId db <> [] ->
      forall owner,
        ScoreUpdates.userId updates = Supplied owner ->
        userExists owner db = false ->
        exists e db1,
          updateReputationScore now userId updates db = Rejected e db1)
  /\ putReputation now orderBy clock userId Invalid db
     = (mkResponse 400 (ErrorBody "Validation failed"), db).
Proof.
  intros Hok. unfold putReputation, updateReputationScore, recordsOf.
  destruct (filter _ (reputationScores db)) as [|r rest] eqn:Ef.
  - assert (Hex : existsb (fun r => ReputationScore.userId r =? userId)
                          (reputationScores db) = false).
    { apply find_none_existsb. rewrite find_hd_filter, Ef. reflexivity. }
    rewrite Hex. cbn [negb].
    split; [intros db1 _; split; reflexivity|].
    split; [discriminate|]. split; [discriminate|].
    split; [intros H; contradiction|reflexivity].
  - assert (Hr : In r (filter (fun r => ReputationScore.userId r =? userId)
                              (reputationScores db)))
      by (rewrite Ef; left; reflexivity).
    assert (Hex : existsb (fun r => ReputationScore.userId r =? userId)
                          (reputationScores db) = true).
    { apply filter_In in Hr. apply existsb_exists. exists r. exact Hr. }
    rewrite Hex. cbn [negb map hd_error].
    destruct (match ScoreUpdates.userId updates with
              | Supplied owner => negb (userExists owner db)
              | Absent => false
              end) eqn:Hfk.
    { split; [discriminate|]. split; [discriminate|].
      split; [intros e db1 _; reflexivity|].
      split; [|reflexivity].
      intros _ owner _ _. do 2 eexists. reflexivity. }
    split; [discriminate|]. split.
    + intros score db1 [= <- <-].
      destruct (updateLeaderboard_resolves orderBy Hok clock
                  (set_reputationScores
                     (map (fun r => if ReputationScore.userId r =? userId
                                    then patchScore now updates r else r))
                     db))
        as (db2 & Hres & Hu2 & Hr2 & Hz2 & _).
      pose proof (inSync_rebuilt orderBy clock
                    (set_reputationScores
                       (map (fun r => if ReputationScore.userId r =? userId
                                      then patchScore now updates r else r))
                       db) Hok) as Hsync.
      rewrite Hres in Hsync |- *. cbn [stateOf] in Hsync.
      exists db2. split; [reflexivity|]. split.
      { exists r. split; [left; reflexivity|].
        split; [apply patchScore_frame|apply patchScore_written]. }
      split; [rewrite Hr2; apply patched_records|].
      split; [rewrite Hu2; reflexivity|]. split; [rewrite Hz2; reflexivity|].
      destruct (inSync_rows db2 Hsync)
        as (l & Hperm & _ & _ & Hrows & Hranks).
      split; [|exact Hranks].
      rewrite Hrows. apply Permutation_map. symmetry. exact Hperm.
    + split; [discriminate|]. split; [|reflexivity].
      intros _ owner Hown Hno. rewrite Hown, Hno in Hfk. discriminate.
Qed.

Lemma putReputation_answers_witness :
  putReputation 20 scanOrderBy Scenario.clock 7 (Valid Scenario.defiOnly)
                Scenario.tied
  = (mkResponse 404 (ErrorBody "Reputation score not found"), Scenario.tied)
  /\ exists score db',
       putReputation 20 scanOrderBy Scenario.clock 1
                     (Valid Scenario.defiOnly) Scenario.tied
       = (mkResponse 200 (ScoreBody score), db')
       /\ ReputationScore.defiScore score = Some 25025.
Proof.
  destruct (putReputation_answers 20 scanOrderBy Scenario.clock 7
              Scenario.defiOnly Scenario.tied scanOrderBy_ok)
    as (Hmissing & _).
  split; [apply (Hmissing _ eq_refl)|].
  destruct (putReputation_answers 20 scanOrderBy Scenario.clock 1
              Scenario.defiOnly Scenario.tied scanOrderBy_ok)
    as (_ & Hput & _).
  destruct (Hput _ _ eq_refl)
    as (db' & Hres & (r & _ & _ & Hwritten) & _).
  eexists. exists db'. split; [exact Hres|].
  destruct Hwritten as (_ & _ & _ & _ & Hdefi & _).
  apply Hdefi. reflexivity.
Defined.

(** ** More round trips *)

(** X20. A proof hash is written once: [createZkProof] for a hash that is
    already stored is rejected, nothing is stored and the stored artifact
    stays what the hash resolves to. A [createZkProof] that resolves was
    for a fresh hash and a registered owner, and it resolves with the
    artifact the hash then resolves to, stored with the owner, validity
    flag and expiry supplied (null when no expiry is supplied) and listed
    by [getZkProofs] for its owner after the proofs listed before. *)
Theorem createZkProof_once (now : Timestamp) (insertProof : InsertZkProof.t)
    (db : Db) :
  (forall stored,
     getZkProofByHash (InsertZkProof.proofHash insertProof) db = Some stored ->
     exists e db',
       createZkProof now insertProof db = Rejected e db'
       /\ zkProofs db' = zkProofs db
       /\ getZkProofByHash (InsertZkProof.proofHash insertProof) db'
          = Some stored)
  /\ (forall proof db',
        createZkProof now insertProof db = Resolved proof db' ->
        getZkProofByHash (InsertZkProof.proofHash insertProof) db = None
        /\ userExists (InsertZkProof.userId insertProof) db = true
        /\ zkProofs db' = zkProofs db ++ [proof]
        /\ getZkProofByHash (InsertZkProof.proofHash insertProof) db'
           = Some proof
        /\ getZkProofs (InsertZkProof.userId insertProof) db'
           = getZkProofs (InsertZkProof.userId insertProof) db ++ [proof]
        /\ ZkProof.userId proof = InsertZkProof.userId insertProof
        /\ (forall flag, InsertZkProof.isValid insertProof = Supplied flag ->
                         ZkProof.isValid proof = flag)
        /\ (forall expiry,
              InsertZkProof.expiresAt insertProof = Supplied expiry ->
              ZkProof.expiresAt proof = expiry)
        /\ (InsertZkProof.expiresAt insertProof = Absent ->
            ZkProof.expiresAt proof = None)).
Proof.
  unfold createZkProof. cbn [ZkProof.proofHash ZkProof.userId].
  destruct (existsb (fun p => String.eqb (ZkProof.proofHash p)
                                (InsertZkProof.proofHash insertProof))
                    (zkProofs db)) eqn:Ehash.
  - split; [|discriminate].
    intros stored Hstored. do 2 eexists. split; [reflexivity|].
    split; [reflexivity|exact Hstored].
  - pose proof Ehash as Hfresh. apply find_none_existsb in Hfresh.
    split.
    { intros stored Hstored. unfold getZkProofByHash in Hstored.
      congruence. }
    intros proof db'.
    destruct (userExists (InsertZkProof.userId insertProof) db) eqn:Hown;
      cbn [negb]; [|discriminate].
    intros [= <- <-]. split; [exact Hfresh|]. split; [reflexivity|].
    unfold getZkProofByHash, getZkProofs.
    cbn [zkProofs set_zkProofs bump_zkProofs_id_seq].
    split; [reflexivity|].
    split; [rewrite find_app_none by exact Ehash; simpl;
            rewrite String.eqb_refl; reflexivity|].
    split; [rewrite filter_app; simpl; rewrite Z.eqb_refl; reflexivity|].
    cbn. repeat split; intros; subst;
      match goal with H : _ = _ |- _ => rewrite H end; reflexivity.
Qed.

Lemma createZkProof_once_witness :
  exists proof db',
    createZkProof 500 Scenario.credential Scenario.registered
    = Resolved proof db'
    /\ getZkProofByHash "0xHASH1" db' = Some proof
    /\ exists e db2,
         createZkProof 600 Scenario.credential db' = Rejected e db2
         /\ getZkProofByHash "0xHASH1" db2 = Some proof.
Proof.
  do 2 eexists. split; [reflexivity|].
  destruct (createZkProof_once 500 Scenario.credential Scenario.registered)
    as (_ & Hnew).
  destruct (Hnew _ _ eq_refl) as (_ & _ & _ & Hget & _).
  split; [exact Hget|].
  match goal with
  | |- exists e db2, createZkProof _ _ ?d = _ /\ _ =>
      destruct (createZkProof_once 600 Scenario.credential d)
        as (Hagain & _)
  end.
  destruct (Hagain _ Hget) as (e & db2 & Hrej & _ & Hkept).
  exists e, db2. split; [exact Hrej|exact Hkept].
Defined.

(** X21. [POST /api/users] with a body that parses registers the wallet
    under the pseudonymous id the handler generates, whatever pseudonymous
    id the body carries: when neither the wallet address nor the generated
    id is taken the answer is 201 with the new identity, which
    [GET /api/users/:walletAddress] then returns; when the wallet address is
    already registered the answer is 500 and the registry is unchanged. *)
Theorem postUser_answers (now : Timestamp) (generated : string)
    (userData : InsertUser.t) (db : Db) :
  ((forall u, In u (users db) ->
              User.walletAddress u <> InsertUser.walletAddress userData
              /\ User.pseudonymousId u <> Some generated) ->
   exists user db',
     postUser now generated (Valid userData) db
     = (mkResponse 201 (UserBody user), db')
     /\ User.walletAddress user = InsertUser.walletAddress userData
     /\ User.pseudonymousId user = Some generated
     /\ getUserRoute (InsertUser.walletAddress userData) db'
        = mkResponse 200 (UserBody user)
     /\ getUserByPseudonymousId generated db' = Some user)
  /\ ((exists u, In u (users db)
                 /\ User.walletAddress u
                    = InsertUser.walletAddress userData) ->
      exists db',
        postUser now generated (Valid userData) db
        = (mkResponse 500 (ErrorBody "Internal server error"), db')
        /\ users db' = users db).
Proof.
  unfold postUser, createUser.
  cbn [User.walletAddress User.pseudonymousId InsertUser.walletAddress
       InsertUser.pseudonymousId orDefault].
  split.
  - intros Hfree.
    assert (Hw : existsb (fun u => String.eqb (User.walletAddress u)
                                     (InsertUser.walletAddress userData))
                         (users db) = false).
    { destruct (existsb _ (users db)) eqn:E; [|reflexivity].
      apply existsb_exists in E as (u & Hu & Heq).
      apply String.eqb_eq in Heq. destruct (Hfree u Hu) as [Hne _].
      contradiction. }
    assert (Hp : existsb (fun u => eqNullable (User.pseudonymousId u)
                                               generated)
                         (users db) = false).
    { destruct (existsb (fun u => eqNullable (User.pseudonymousId u)
                                             generated) (users db)) eqn:E;
        [|reflexivity].
      apply existsb_exists in E as (u & Hu & Heq).
      destruct (Hfree u Hu) as [_ Hne]. exfalso. apply Hne.
      destruct (User.pseudonymousId u) as [q|]; [|discriminate].
      apply String.eqb_eq in Heq. congruence. }
    rewrite Hw, Hp. do 2 eexists. split; [reflexivity|].
    split; [reflexivity|]. split; [reflexivity|].
    unfold getUserRoute, getUserByWallet, getUserByPseudonymousId.
    cbn [users set_users bump_users_id_seq].
    rewrite !find_app_none by assumption. simpl.
    rewrite !String.eqb_refl. split; reflexivity.
  - intros (u & Hu & Heq).
    assert (Hw : existsb (fun u => String.eqb (User.walletAddress u)
                                     (InsertUser.walletAddress userData))
                         (users db) = true).
    { apply existsb_exists. exists u. split; [exact Hu|].
      apply String.eqb_eq. exact Heq. }
    rewrite Hw. eexists. split; reflexivity.
Qed.

Lemma postUser_answers_witness :
  exists user db',
    postUser 4 "anon_E" (Valid (InsertUser.mk "0xEE" "solana" Absent
                                              (Supplied (Some "mine"))))
             Scenario.registered
    = (mkResponse 201 (UserBody user), db')
    /\ User.pseudonymousId user = Some "anon_E".
Proof.
  destruct (postUser_answers 4 "anon_E"
              (InsertUser.mk "0xEE" "solana" Absent (Supplied (Some "mine")))
              Scenario.registered) as (Hnew & _).
  destruct Hnew as (user & db' & Hres & _ & Hp & _).
  - intros u Hu. vm_compute in Hu.
    destruct Hu as [<-|[<-|[<-|[]]]]; split; discriminate.
  - exists user, db'. split; [exact Hres|exact Hp].
Defined.

(** X22. A [createActivity] that resolves was for a registered identity
    and only adds to the ledger: the activity it resolves with carries the
    supplied owner, type and event timestamp, and from then on
    [getActivitiesByType] lists it for its identity and type together with
    exactly the activities listed before, while the listing for every
    other identity or type holds the activities it held. The listing is in
    descending order of event timestamp. *)
Theorem createActivity_then_listed (sortDesc : SortDesc) (now : Timestamp)
    (insertActivity : InsertActivity.t) (db : Db) (ledger ledger' : Ledger)
    (activity : Activity.t) :
  SortDescOk sortDesc ->
  createActivity now insertActivity db ledger = Written activity ledger' ->
  userExists (InsertActivity.userId insertActivity) db = true
  /\ activities ledger' = activities ledger ++ [activity]
  /\ mintedNfts ledger' = mintedNfts ledger
  /\ Activity.userId activity = InsertActivity.userId insertActivity
  /\ Activity.activityType activity
     = InsertActivity.activityType insertActivity
  /\ Activity.timestamp activity = InsertActivity.timestamp insertActivity
  /\ (forall userId activityType,
        StronglySorted (descBy Activity.timestamp)
          (getActivitiesByType sortDesc userId activityType ledger')
        /\ Permutation
             (getActivitiesByType sortDesc userId activityType ledger')
             (if (InsertActivity.userId insertActivity =? userId)
                 && String.eqb (InsertActivity.activityType insertActivity)
                               activityType
              then activity
                   :: getActivitiesByType sortDesc userId activityType
                                          ledger
              else getActivitiesByType sortDesc userId activityType
                                       ledger)).
Proof.
  intros Hok. unfold createActivity. cbn [Activity.userId].
  destruct (userExists (InsertActivity.userId insertActivity) db) eqn:Hown;
    cbn [negb]; [|discriminate].
  intros [= <- <-]. cbn [activities mintedNfts].
  repeat (split; [reflexivity|]).
  intros userId activityType. unfold getActivitiesByType. cbn [activities].
  split; [apply Hok|].
  rewrite filter_app. cbn [filter Activity.userId Activity.activityType].
  match goal with
  | |- Permutation (sortDesc _ _ ?l) _ =>
      destruct (Hok _ Activity.timestamp l) as [Hperm _];
      rewrite <- Hperm
  end.
  match goal with
  | |- Permutation (?old ++ _) _ =>
      destruct (Hok _ Activity.timestamp old) as [Hold _]
  end.
  destruct ((InsertActivity.userId insertActivity =? userId)
            && String.eqb (InsertActivity.activityType insertActivity)
                          activityType).
  - rewrite <- Hold. rewrite Permutation_app_comm. reflexivity.
  - rewrite app_nil_r. exact Hold.
Qed.

Lemma createActivity_then_listed_witness :
  exists activity ledger',
    createActivity 20 Tour.swap Scenario.registered emptyLedger
    = Written activity ledger'
    /\ Permutation
         (getActivitiesByType stableSortDesc 1 "defi_transaction" ledger')
         [activity].
Proof.
  do 2 eexists. split; [reflexivity|].
  destruct (createActivity_then_listed stableSortDesc 20 Tour.swap
              Scenario.registered emptyLedger _ _ stableSortDesc_ok eq_refl)
    as (_ & _ & _ & _ & _ & _ & Hlist).
  apply (Hlist 1 "defi_transaction").
Defined.

(** ** The registry in reachable states *)

Lemma users_id_seq_kept op d :
  users_id_seq d <= users_id_seq (runStoreOp op d).
Proof.
  destruct op as [now ins|now uid upd|[now ins|now uid upd]
                  |now ins|orderBy clock]; simpl.
  - unfold createUser. cbn [User.walletAddress User.pseudonymousId].
    destruct (existsb _ (users d)); [simpl; lia|].
    destruct (match orDefault (InsertUser.pseudonymousId ins) None with
              | Some p =>
                  existsb (fun x => eqNullable (User.pseudonymousId x) p)
                          (users d)
              | None => false
              end); simpl; lia.
  - unfold updateUser.
    destruct (negb (existsb _ (users d))); [simpl; lia|].
    destruct (updateUserConflicts uid upd d); simpl; lia.
  - unfold createReputationScore.
    destruct (negb (userExists _ d)); simpl; lia.
  - unfold updateReputationScore.
    destruct (negb (existsb _ (reputationScores d))); [simpl; lia|].
    destruct (ScoreUpdates.userId upd) as [|owner]; [simpl; lia|].
    destruct (negb (userExists owner d)); simpl; lia.
  - unfold createZkProof.
    destruct (existsb _ (zkProofs d)); [simpl; lia|].
    destruct (negb (userExists _ d)); simpl; lia.
  - unfold updateLeaderboard. rewrite insertRanked_users_id_seq. simpl. lia.
Qed.

Lemma ids_from_sequence op d :
  Forall (fun x => 1 <= User.id x) (users d) /\ 1 <= users_id_seq d ->
  Forall (fun x => 1 <= User.id x) (users (runStoreOp op d))
  /\ 1 <= users_id_seq (runStoreOp op d).
Proof.
  intros [Hids Hs]. pose proof (users_id_seq_kept op d) as Hseq.
  split; [|lia]. clear Hseq.
  destruct op as [now ins|now uid upd|[now ins|now uid upd]
                  |now ins|orderBy clock]; simpl.
  - destruct (createUser_tables now ins d) as (_ & _ & _ & [-> | ->]);
      [exact Hids|].
    apply Forall_app. split; [exact Hids|]. repeat constructor. exact Hs.
  - destruct (updateUser_tables now uid upd d) as (_ & _ & _ & Hmap).
    apply Forall_forall. intros x Hx.
    assert (Hin : In (User.id x)
                     (map User.id
                          (users (stateOf (updateUser now uid upd d)))))
      by (apply in_map; exact Hx).
    rewrite Hmap in Hin. apply in_map_iff in Hin as (y & <- & Hy).
    rewrite Forall_forall in Hids. apply Hids. exact Hy.
  - destruct (createReputationScore_tables now ins d) as (-> & _).
    exact Hids.
  - destruct (updateReputationScore_tables now uid upd d) as (-> & _).
    exact Hids.
  - destruct (createZkProof_tables now ins d) as (-> & _). exact Hids.
  - destruct (updateLeaderboard_tables orderBy clock d) as (-> & _).
    exact Hids.
Qed.

Lemma ids_from_sequence_reachable ops :
  Forall (fun x => 1 <= User.id x) (users (runStoreOps ops emptyDb)).
Proof.
  assert (H0 : Forall (fun x => 1 <= User.id x) (users emptyDb)
               /\ 1 <= users_id_seq emptyDb)
    by (split; [constructor|simpl; lia]).
  assert (Hall : Forall (fun x => 1 <= User.id x)
                        (users (runStoreOps ops emptyDb))
                 /\ 1 <= users_id_seq (runStoreOps ops emptyDb)).
  { unfold runStoreOps. revert H0. generalize emptyDb.
    induction ops as [|op ops IH]; intros d Hd; simpl; [exact Hd|].
    apply IH. apply ids_from_sequence. exact Hd. }
  apply Hall.
Qed.

(** X8. In every state the storage operations reach from the empty store,
    [updateUser] included, no two registered identities share an id, a
    wallet address or a pseudonymous id that is not null, and every id in
    use was handed out by the sequence: the three lookups of the registry
    have at most one identity to find. *)
Theorem registry_keys_reachable (ops : list StoreOp) (u v : User.t) :
  let db := runStoreOps ops emptyDb in
  In u (users db) -> In v (users db) ->
  (User.id u = User.id v -> u = v)
  /\ (User.walletAddress u = User.walletAddress v -> u = v)
  /\ (User.pseudonymousId u = User.pseudonymousId v ->
      User.pseudonymousId u <> None -> u = v)
  /\ 1 <= User.id u < users_id_seq db.
Proof.
  intros db Hu Hv.
  assert (Hok : schemaOk db)
    by (apply schemaOk_runStoreOps; exact schemaOk_emptyDb).
  destruct Hok as (Hpk & Hw & Hp & Hseq).
  split; [|split; [|split]].
  - apply (NoDup_map_eq User.id (users db)); assumption.
  - intros Heq.
    apply (uniqueOn_inj (fun x => Some (User.walletAddress x)) (users db));
      trivial; [f_equal; exact Heq|discriminate].
  - intros Heq Hsome.
    apply (uniqueOn_inj User.pseudonymousId (users db)); assumption.
  - rewrite Forall_forall in Hseq. split; [|apply Hseq; exact Hu].
    pose proof (ids_from_sequence_reachable ops) as Hall.
    rewrite Forall_forall in Hall. apply Hall. exact Hu.
Qed.

Lemma registry_keys_reachable_witness :
  In (User.mk 1 "0xAA" "ethereum" None (Some "anon_A") 1 1)
     (users Scenario.registered)
  /\ In (User.mk 2 "0xBB" "ethereum" None (Some "anon_B") 2 2)
        (users Scenario.registered)
  /\ 1 <= 1 < users_id_seq Scenario.registered.
Proof.
  assert (Hu : In (User.mk 1 "0xAA" "ethereum" None (Some "anon_A") 1 1)
                  (users Scenario.registered))
    by (left; reflexivity).
  assert (Hv : In (User.mk 2 "0xBB" "ethereum" None (Some "anon_B") 2 2)
                  (users Scenario.registered))
    by (right; left; reflexivity).
  split; [exact Hu|]. split; [exact Hv|].
  apply (registry_keys_reachable
           [CreateUser 1 Scenario.walletA; CreateUser 2 Scenario.walletB;
            CreateUser 3 Scenario.walletC] _ _ Hu Hv).
Defined.

(** ** The read routes *)

Lemma getUserByWallet_registered db u :
  walletsUnique db -> In u (users db) ->
  getUserByWallet (User.walletAddress u) db = Some u.
Proof.
  intros Hw Hu.
  assert (Hin : In u (filter (fun x => String.eqb (User.walletAddress x)
                                         (User.walletAddress u))
                             (users db)))
    by (apply filter_In; split; [exact Hu|apply String.eqb_refl]).
  rewrite (wallet_rows db (User.walletAddress u) Hw) in Hin.
  destruct (getUserByWallet (User.walletAddress u) db) as [u'|];
    [|contradiction].
  destruct Hin as [->|[]]. reflexivity.
Qed.

(** X23. [GET /api/reputation/:walletAddress] answers from [users] and
    [reputation_scores] alone: 200 with the record of the identity
    registered under the wallet address whenever that identity owns exactly
    one, 404 when the wallet address is not registered or its identity owns
    no record. No proof is looked up on the way: the answer is the same
    whatever [zk_proofs] and the leaderboard hold. *)
Theorem getReputationRoute_answers (walletAddress : string) (db : Db) :
  walletsUnique db ->
  match getUserByWallet walletAddress db with
  | None =>
      getReputationRoute walletAddress db
      = mkResponse 404 (ErrorBody "Reputation score not found")
  | Some user =>
      (recordsOf (User.id user) db = [] ->
       getReputationRoute walletAddress db
       = mkResponse 404 (ErrorBody "Reputation score not found"))
      /\ (forall score,
            recordsOf (User.id user) db = [score] ->
            getReputationRoute walletAddress db
            = mkResponse 200 (ScoreBody score))
  end
  /\ forall db',
       users db' = users db ->
       reputationScores db' = reputationScores db ->
       getReputationRoute walletAddress db'
       = getReputationRoute walletAddress db.
Proof.
  intros Hw. split.
  - unfold getReputationRoute, getReputationScoreByWallet, recordsOf.
    rewrite (join_by_wallet ReputationScore.userId (fun r _ => r)
               (reputationScores db) db walletAddress Hw).
    destruct (getUserByWallet walletAddress db) as [u|]; [|reflexivity].
    rewrite map_id. split.
    + intros ->. reflexivity.
    + intros score ->. reflexivity.
  - intros db' Hu Hr.
    unfold getReputationRoute, getReputationScoreByWallet.
    rewrite Hu, Hr. reflexivity.
Qed.

Lemma getReputationRoute_answers_witness :
  getReputationRoute "0xEE" Scenario.tied
  = mkResponse 404 (ErrorBody "Reputation score not found")
  /\ exists score,
       getReputationRoute "0xAA" Scenario.tied
       = mkResponse 200 (ScoreBody score).
Proof.
  assert (Hw : walletsUnique Scenario.tied) by distinct_keys.
  split.
  - destruct (getReputationRoute_answers "0xEE" Scenario.tied Hw)
      as [Hmissing _].
    exact Hmissing.
  - eexists.
    destruct (getReputationRoute_answers "0xAA" Scenario.tied Hw)
      as [[_ Hfound] _].
    apply Hfound. reflexivity.
Defined.

(** X24. [POST /api/zkproofs] with a body that parses. The body is JSON
    and the schema does not coerce, so it carries no expiry or a null one.
    When [createZkProof] resolves, the answer is 201 with the stored
    artifact; right after it [GET /api/zkproofs/hash/:proofHash] answers
    200 with that artifact, [GET /api/zkproofs/:walletAddress] lists it for
    the owner's wallet address after the proofs listed before, and
    [GET /api/zkproofs/verify/:proofHash] answers 200 with [isValid] true
    exactly when the stored flag is true, at whatever time it is asked: a
    credential issued through the route never expires. When
    [createZkProof] is rejected, as it is for a hash that is already
    stored, the answer is 500 and no proof or user row has changed. A body
    that does not parse is answered 400 with the store untouched. *)
Theorem postZkProof_answers (now : Timestamp) (proofData : InsertZkProof.t)
    (db : Db) :
  InsertZkProof.expiresAt proofData = Absent
  \/ InsertZkProof.expiresAt proofData = Supplied None ->
  (forall proof db1,
     createZkProof now proofData db = Resolved proof db1 ->
     postZkProof now (Valid proofData) db
     = (mkResponse 201 (ProofBody proof), db1)
     /\ getZkProofRoute (InsertZkProof.proofHash proofData) db1
        = mkResponse 200 (ProofBody proof)
     /\ (forall owner,
           walletsUnique db -> In owner (users db) ->
           User.id owner = InsertZkProof.userId proofData ->
           getZkProofsRoute (User.walletAddress owner) db1
           = mkResponse 200
               (ProofsBody (getZkProofs (User.id owner) db ++ [proof])))
     /\ forall checkedAt,
          verifyZkProofRoute checkedAt (InsertZkProof.proofHash proofData)
                             db1
          = mkResponse 200 (IsValidBody (truthy (ZkProof.isValid proof))))
  /\ (forall e db1,
        createZkProof now proofData db = Rejected e db1 ->
        postZkProof now (Valid proofData) db
        = (mkResponse 500 (ErrorBody "Internal server error"), db1)
        /\ zkProofs db1 = zkProofs db
        /\ users db1 = users db)
  /\ (forall stored,
        getZkProofByHash (InsertZkProof.proofHash proofData) db
        = Some stored ->
        exists e db1, createZkProof now proofData db = Rejected e db1)
  /\ postZkProof now Invalid db
     = (mkResponse 400 (ErrorBody "Validation failed"), db).
Proof.
  intros Hjson.
  assert (Hnever : orDefault (InsertZkProof.expiresAt proofData) None
                   = None)
    by (destruct Hjson as [-> | ->]; reflexivity).
  unfold postZkProof, createZkProof.
  cbn [ZkProof.proofHash ZkProof.userId]. rewrite Hnever.
  destruct (existsb (fun p => String.eqb (ZkProof.proofHash p)
                                (InsertZkProof.proofHash proofData))
                    (zkProofs db)) eqn:Ehash.
  { split; [discriminate|].
    split; [intros e db1 [= _ <-]; repeat split; reflexivity|].
    split; [|reflexivity].
    intros stored _. do 2 eexists. reflexivity. }
  destruct (userExists (InsertZkProof.userId proofData) db) eqn:Hown;
    cbn [negb].
  - split.
    + intros proof db1 [= <- <-]. split; [reflexivity|].
      unfold getZkProofRoute, getZkProofsRoute, verifyZkProofRoute,
             validateZkProof, getZkProofByHash, getZkProofs.
      cbn [zkProofs set_zkProofs bump_zkProofs_id_seq].
      rewrite find_app_none by exact Ehash. simpl find.
      rewrite String.eqb_refl. split; [reflexivity|]. split.
      * intros owner Hw Hin Hid.
        change (getUserByWallet (User.walletAddress owner)
                  (set_zkProofs (fun ps => ps ++ _)
                                (bump_zkProofs_id_seq db)))
          with (getUserByWallet (User.walletAddress owner) db).
        rewrite (getUserByWallet_registered db owner Hw Hin).
        rewrite filter_app. simpl. rewrite Hid, Z.eqb_refl. reflexivity.
      * intros checkedAt. cbn [ZkProof.isValid ZkProof.expiresAt].
        destruct (truthy _); reflexivity.
    + split; [discriminate|]. split; [|reflexivity].
      intros stored Hstored. apply find_none_existsb in Ehash.
      unfold getZkProofByHash in Hstored. congruence.
  - split; [discriminate|].
    split; [intros e db1 [= _ <-]; repeat split; reflexivity|].
    split; [|reflexivity].
    intros stored Hstored. apply find_none_existsb in Ehash.
    unfold getZkProofByHash in Hstored. congruence.
Qed.

Lemma postZkProof_answers_witness :
  exists proof db',
    postZkProof 500 (Valid Scenario.plainCredential) Scenario.registered
    = (mkResponse 201 (ProofBody proof), db')
    /\ verifyZkProofRoute 1001 "0xHASH2" db'
       = mkResponse 200 (IsValidBody true).
Proof.
  destruct (postZkProof_answers 500 Scenario.plainCredential
              Scenario.registered (or_introl eq_refl)) as (Hnew & _).
  destruct (Hnew _ _ eq_refl) as (Hres & _ & _ & Hverify).
  do 2 eexists. split; [exact Hres|]. apply (Hverify 1001).
Defined.
